(** * auto-entM: the ESP32 audio receiver

    A shallow embedding of the three TCP receivers of the repository
    (all of them live in [audio_process_server/esp_receiver/esp_audio_reciver.cpp]):

    - [Draft]    : [esp_audio_reciver.cpp] itself ([recive_full],
                   [int32_to_24_bytes_little_endian], [tcp_server_loop]);
    - [Combined] : [esp_receiver_and_web_combined.cpp] ([recv_all],
                   [int32_left24_to_3bytes_le], [finalize_wav_header],
                   [tcp_audio_receiver_server_loop]);
    - [Fixed]    : [code_reciver_fixed.cpp] ([recv_all], [int32_to_24le_bytes],
                   [tcp_server_loop]);

    together with the sending side, [Streamer]: the packets [sendPacketTCP]
    and [audioTask] of [esp32_stream_tcp_i2s_fixed_high_quality.ino] build,
    and the gain the [/control] handlers store.

    Fixed-width integers are [Z] with the wrap-around written out, bytes are
    [Byte.byte], a [double] is an IEEE 754 binary64 value of the standard
    library's [SpecFloat] (precision 53, [emax] 1024, round to nearest even). *)

From Stdlib Require Import ZArith List Bool Lia SpecFloat.
From Stdlib Require Import Strings.Byte.
Import ListNotations.
Local Open Scope Z_scope.

(* ================================================================== *)
(** * Definitions                                                      *)
(* ================================================================== *)

(** ** Fixed-width integers and bytes *)

Definition to_uint8 (x : Z) : Z := x mod 2 ^ 8.
Definition to_uint16 (x : Z) : Z := x mod 2 ^ 16.
Definition to_uint32 (x : Z) : Z := x mod 2 ^ 32.
Definition to_uint64 (x : Z) : Z := x mod 2 ^ 64.
(** Conversion to [int32_t] / [int]: two's complement. *)
Definition to_int32 (x : Z) : Z := (x + 2 ^ 31) mod 2 ^ 32 - 2 ^ 31.

Definition INT32_MAX : Z := 2147483647.
Definition INT32_MIN : Z := -2147483648.
Definition in_int32 (x : Z) : Prop := INT32_MIN <= x <= INT32_MAX.
Definition in_uint32 (x : Z) : Prop := 0 <= x < 2 ^ 32.

Definition byte_to_Z (b : byte) : Z := Z.of_N (Byte.to_N b).

(** The cast [(uint8_t) x]. *)
Definition byte_of_Z (x : Z) : byte :=
  match Byte.of_N (Z.to_N (to_uint8 x)) with
  | Some b => b
  | None => x00
  end.

(** Reading [buffer[i]]; [None] is a read outside the buffer. *)
Definition byte_at (buffer : list byte) (i : nat) : option Z :=
  option_map byte_to_Z (nth_error buffer i).

(** ** Little-endian numbers, as the wire format and the container define
    them: byte [i] has weight [256 ^ i]. *)

Fixpoint le_value (bs : list byte) : Z :=
  match bs with
  | [] => 0
  | b :: rest => byte_to_Z b + 256 * le_value rest
  end.

Fixpoint le_bytes (n : nat) (v : Z) : list byte :=
  match n with
  | O => []
  | S n' => byte_of_Z (v mod 256) :: le_bytes n' (v / 256)
  end.

Definition slice (off len : nat) (bs : list byte) : list byte :=
  firstn len (skipn off bs).

(** ** IEEE 754 binary64 *)

Definition prec : Z := 53.
Definition emax : Z := 1024.
Definition double : Type := spec_float.

(** [(double) z] for an integer [z]: correctly rounded. *)
Definition double_of_int (z : Z) : double := binary_normalize prec emax z 0 false.
Definition dmul (x y : double) : double := SFmul prec emax x y.
(** [x < y] and [x > y] on doubles (false as soon as one side is a NaN). *)
Definition dlt (x y : double) : bool := SFltb x y.
Definition dgt (x y : double) : bool := SFltb y x.

Definition gain_1_0 : double := S754_finite false 4503599627370496 (-52).
Definition gain_2_0 : double := S754_finite false 4503599627370496 (-51).

Definition in_int64 (x : Z) : bool := (- 2 ^ 63 <=? x) && (x <=? 2 ^ 63 - 1).

(** [std::llround]: nearest integer, halfway cases away from zero.  The
    result is unspecified for a NaN, an infinity or a value outside
    [long long]: [None]. *)
Definition llround (x : double) : option Z :=
  match x with
  | S754_zero _ => Some 0
  | S754_finite s m e =>
      let magnitude :=
        match e with
        | Zneg p =>
            let d := 2 ^ Zpos p in
            let q := Zpos m / d in
            let r := Zpos m mod d in
            if d <=? 2 * r then q + 1 else q
        | _ => Zpos m * 2 ^ e
        end in
      let v := if s then - magnitude else magnitude in
      if in_int64 v then Some v else None
  | S754_infinity _ | S754_nan => None
  end.

(** ** Constants shared by the three receivers *)

Definition HEADER_MAGIC : Z := 0x45535032.
Definition HEADER_SIZE : nat := 34.
Definition FORMAT_INT32_LEFT24 : Z := 1.
Definition SAMPLE_RATE : Z := 48000.
Definition CHANNELS : Z := 1.
Definition IN_BYTES_PER_SAMPLE : Z := 4.
Definition OUT_BYTES_PER_SAMPLE : Z := 3.

(** [size_t] is 64 bits wide. *)
Definition to_size_t (x : Z) : Z := to_uint64 x.

(** ** The client socket

    What the peer and the network do to one connection: data arriving in
    chunks, a [recv] interrupted by a signal ([EINTR]), a [recv] failing
    for another reason.  When the events are used up the peer has closed
    the connection and [recv] returns 0. *)

Inductive recv_event : Type :=
| Chunk (bs : list byte)
| Eintr
| Failure.

Definition socket : Type := list recv_event.

(** The three kinds of return of [recv]: [r >= 0] with the bytes stored,
    [r < 0] with [errno == EINTR], [r < 0] otherwise. *)
Inductive recv_result : Type :=
| Received (bs : list byte)
| Interrupted
| Failed.

(** What is left of a socket once [n] bytes of its first chunk are taken. *)
Definition after_chunk (n : nat) (bs : list byte) (rest : socket) : socket :=
  match skipn n bs with
  | [] => rest
  | remaining => Chunk remaining :: rest
  end.

Definition recv (sock : socket) (len : nat) : recv_result * socket :=
  match sock with
  | [] => (Received [], [])
  | Eintr :: rest => (Interrupted, rest)
  | Failure :: rest => (Failed, rest)
  | Chunk bs :: rest => (Received (firstn len bs), after_chunk len bs rest)
  end.

Definition socket_bytes (sock : socket) : nat :=
  fold_right (fun ev n => match ev with Chunk bs => length bs + n | _ => n end)%nat 0%nat sock.

(** All the bytes the events of a socket carry. *)
Definition socket_data (sock : socket) : list byte :=
  flat_map (fun ev => match ev with Chunk bs => bs | _ => [] end) sock.

(** Whether the stream hands over [n] bytes before it fails or closes. *)
Fixpoint delivers (sock : socket) (n : nat) {struct sock} : bool :=
  match n with
  | O => true
  | _ =>
      match sock with
      | [] => false
      | Eintr :: rest => delivers rest n
      | Failure :: _ => false
      | Chunk [] :: _ => false
      | Chunk bs :: rest => (n <=? length bs)%nat || delivers rest (n - length bs)
      end
  end.

(** ** The output file

    A stdio stream on the output file: its bytes, the stream position and
    the number of bytes the device still takes ([fwrite] is short beyond
    it). *)

Record FILE : Type := mkFILE {
  content : list byte;
  position : nat;
  space : nat
}.

(** Bytes [bs] stored at offset [pos]; a gap after the end is filled with
    zero bytes. *)
Definition store (c : list byte) (pos : nat) (bs : list byte) : list byte :=
  firstn pos c ++ repeat x00 (pos - length c) ++ bs ++ skipn (pos + length bs) c.

Definition fwrite (bs : list byte) (f : FILE) : nat * FILE :=
  let wrote := firstn (space f) bs in
  (length wrote,
   match wrote with
   | [] => f
   | _ => {| content := store (content f) (position f) wrote;
             position := position f + length wrote;
             space := space f - length wrote |}
   end).

Definition fseek_set (offset : nat) (f : FILE) : FILE :=
  {| content := content f; position := offset; space := space f |}.

Definition fseek_end (f : FILE) : FILE :=
  {| content := content f; position := length (content f); space := space f |}.

(** [fopen(name, "wb+")] truncates, [fopen(name, "rb+")] keeps the bytes. *)
Definition fopen_wb (f : FILE) : FILE :=
  {| content := []; position := 0; space := space f |}.

Definition fopen_rb (f : FILE) : FILE :=
  {| content := content f; position := 0; space := space f |}.

Definition fwrite_ (bs : list byte) (f : FILE) : FILE := snd (fwrite bs f).

Definition RIFF : list byte := [x52; x49; x46; x46].
Definition WAVE : list byte := [x57; x41; x56; x45].
Definition fmt_ : list byte := [x66; x6d; x74; x20].
Definition fmt0 : list byte := [x66; x6d; x74; x00].
Definition data : list byte := [x64; x61; x74; x61].

(** ** Process-wide state

    The globals of a receiver and its output file.  The fields carry the
    names of the combined receiver; the other two receivers call them
    [global_running]/[g_running], [global_gain]/[g_gain],
    [global_total_samples_written]/[g_total_samples_written],
    [global_highest_recived_idx]/[g_highest_received_index] and
    [global_last_sequence]/[g_last_seq].  No other thread writes them while
    a packet is handled. *)

Inductive event : Type :=
| Accepted
| FileOpened
| ClientClosed
| FileClosed.

Record world : Type := mkWorld {
  output_wav_file : FILE;
  global_should_run : bool;
  global_makeup_gain : double;
  global_total_samples_written_count : Z;
  global_highest_received_sample_index : Z;
  global_last_received_sequence : Z;
  trace : list event
}.

Definition with_file (f : FILE) (w : world) : world :=
  {| output_wav_file := f;
     global_should_run := global_should_run w;
     global_makeup_gain := global_makeup_gain w;
     global_total_samples_written_count := global_total_samples_written_count w;
     global_highest_received_sample_index := global_highest_received_sample_index w;
     global_last_received_sequence := global_last_received_sequence w;
     trace := trace w |}.

Definition note (ev : event) (w : world) : world :=
  {| output_wav_file := output_wav_file w;
     global_should_run := global_should_run w;
     global_makeup_gain := global_makeup_gain w;
     global_total_samples_written_count := global_total_samples_written_count w;
     global_highest_received_sample_index := global_highest_received_sample_index w;
     global_last_received_sequence := global_last_received_sequence w;
     trace := trace w ++ [ev] |}.

(** The end of a successfully handled packet: the bytes are written, the
    sample count grows by [frames] (an [int]), the two status atoms are
    stored. *)
Definition publish (f : FILE) (frames first_sample_index sequence : Z) (w : world) : world :=
  {| output_wav_file := f;
     global_should_run := global_should_run w;
     global_makeup_gain := global_makeup_gain w;
     global_total_samples_written_count :=
       to_int32 (global_total_samples_written_count w + frames);
     global_highest_received_sample_index := to_uint64 (first_sample_index + frames - 1);
     global_last_received_sequence := sequence;
     trace := trace w |}.

(** The state a receiver starts in: running, gain [1.0], nothing written,
    no output file yet; [device_space] bytes can be written. *)
Definition initial_world (device_space : nat) : world :=
  {| output_wav_file := {| content := []; position := 0; space := device_space |};
     global_should_run := true;
     global_makeup_gain := gain_1_0;
     global_total_samples_written_count := 0;
     global_highest_received_sample_index := 0;
     global_last_received_sequence := 0;
     trace := [] |}.

(** ** The packet header *)

(** A header on the wire, field by field as [sendPacketTCP] of the ESP32
    streamer lays it out. *)
Definition make_header (sequence first_sample timestamp frames channels bytes_per_sample
                        sample_rate format_id : Z) : list byte :=
  le_bytes 4 HEADER_MAGIC ++ le_bytes 4 sequence ++ le_bytes 8 first_sample
  ++ le_bytes 8 timestamp ++ le_bytes 2 frames ++ le_bytes 1 channels
  ++ le_bytes 1 bytes_per_sample ++ le_bytes 4 sample_rate ++ le_bytes 2 format_id.

Record packet_header : Type := mkHeader {
  magic : Z;
  sequence_number : Z;
  first_sample_index : Z;
  timestamp_microseconds : Z;
  frames_in_packet : Z;
  channels_in_packet : Z;
  bytes_per_sample_in_packet : Z;
  sample_rate_in_packet : Z;
  format_id_in_packet : Z
}.

(** [header_buffer[i]]; the buffer holds [HEADER_SIZE] bytes whenever it
    is parsed. *)
Definition hb (header_buffer : list byte) (i : nat) : Z :=
  byte_to_Z (nth i header_buffer x00).

(** [for (i = 0; i < 8; ++i) acc |= ((uint64_t)header[at + i]) << (8 * i)] *)
Definition or_8_bytes (header_buffer : list byte) (at_ : nat) : Z :=
  fold_left
    (fun acc i => Z.lor acc (to_uint64 (Z.shiftl (hb header_buffer (at_ + i)) (8 * Z.of_nat i))))
    (seq 0 8) 0.

(** What one turn of the packet loop ends in. *)
Inductive outcome : Type :=
| Continue (w : world) (client : socket)
| Break (connection_ok : bool) (w : world) (client : socket)
| Undefined
| OutOfFuel.

(** What a packet loop ends in. *)
Inductive loop_end : Type :=
| Exited (connection_ok : bool) (w : world) (client : socket)
| Stopped (w : world) (client : socket)
| LoopUndefined
| LoopOutOfFuel.

(** What [accept] returns: a client (with whether the output file can be
    opened at that moment), [EINTR], another error. *)
Inductive accept_result : Type :=
| Client (client : socket) (file_opens : bool)
| AcceptEintr
| AcceptError.

(** ** The payload

    A payload is a sequence of 32-bit little-endian samples, the channels
    of one frame next to each other: sample [k] is bytes [4k] to [4k+3],
    and channel [c] of frame [i] is sample [i * channels + c]. *)
Definition wire_sample (payload : list byte) (k : nat) : option Z :=
  match slice (4 * k) 4 payload with
  | [b0; b1; b2; b3] => Some (to_int32 (le_value [b0; b1; b2; b3]))
  | _ => None
  end.

(** ** The three receivers *)

(** *** [esp_receiver_and_web_combined.cpp] *)

Module Combined.

Definition EXPECTED_SAMPLE_RATE : Z := 48000.
Definition EXPECTED_CHANNEL_COUNT : Z := 1.

Definition write_u32_le (value : Z) (file_pointer : FILE) : FILE :=
  fwrite_ [ byte_of_Z (Z.land value 0xFF);
            byte_of_Z (Z.land (Z.shiftr value 8) 0xFF);
            byte_of_Z (Z.land (Z.shiftr value 16) 0xFF);
            byte_of_Z (Z.land (Z.shiftr value 24) 0xFF) ] file_pointer.

Definition write_u16_le (value : Z) (file_pointer : FILE) : FILE :=
  fwrite_ [ byte_of_Z (Z.land value 0xFF);
            byte_of_Z (Z.land (Z.shiftr value 8) 0xFF) ] file_pointer.

(** [recv_all]: [received] is what [buffer] holds below [total_received]. *)
Fixpoint recv_all_loop (fuel : nat) (sockfd : socket) (required_bytes : nat)
    (received : list byte) : option (bool * list byte * socket) :=
  if (length received <? required_bytes)%nat then
    match fuel with
    | O => None
    | S fuel' =>
        match recv sockfd (required_bytes - length received) with
        | (Interrupted, sockfd') => recv_all_loop fuel' sockfd' required_bytes received
        | (Failed, sockfd') => Some (false, received, sockfd')
        | (Received [], sockfd') => Some (false, received, sockfd')
        | (Received r, sockfd') => recv_all_loop fuel' sockfd' required_bytes (received ++ r)
        end
    end
  else Some (true, received, sockfd).

Definition recv_all (sockfd : socket) (required_bytes : nat)
    : option (bool * list byte * socket) :=
  recv_all_loop (S (required_bytes + length sockfd)) sockfd required_bytes [].

(** [write_wav_header_placeholder] on an open file. *)
Definition write_wav_header_placeholder (file_pointer : FILE) (sample_rate channels : Z)
    : bool * FILE :=
  let f := fwrite_ RIFF file_pointer in
  let f := write_u32_le 0 f in
  let f := fwrite_ WAVE f in
  let f := fwrite_ fmt_ f in
  let f := write_u32_le 16 f in
  let f := write_u16_le 1 f in
  let f := write_u16_le channels f in
  let f := write_u32_le sample_rate f in
  let byte_rate := to_uint32 (sample_rate * channels * OUT_BYTES_PER_SAMPLE) in
  let f := write_u32_le byte_rate f in
  let block_align := to_uint16 (channels * OUT_BYTES_PER_SAMPLE) in
  let f := write_u16_le block_align f in
  let f := write_u16_le (OUT_BYTES_PER_SAMPLE * 8) f in
  let f := fwrite_ data f in
  let f := write_u32_le 0 f in
  (true, f).

(** [finalize_wav_header] on an open file; every operand is a
    [uint32_t]. *)
Definition finalize_wav_header (file_pointer : FILE)
    (total_samples_written channels sample_rate : Z) : FILE :=
  let data_bytes :=
    to_uint32 (to_uint32 (total_samples_written * channels) * OUT_BYTES_PER_SAMPLE) in
  let riff_size := to_uint32 (4 + (8 + 16) + to_uint32 (8 + data_bytes)) in
  let f := fseek_set 4 file_pointer in
  let f := write_u32_le riff_size f in
  let f := fseek_set 40 f in
  write_u32_le data_bytes f.

(** [int32_left24_to_3bytes_le] *)
Definition int32_left24_to_3bytes_le (sample_int32_left24 : Z) : list byte :=
  let sample_24 := Z.shiftr sample_int32_left24 8 in
  let u24 := Z.land (to_uint32 sample_24) 0xFFFFFF in
  [ byte_of_Z (Z.land u24 0xFF);
    byte_of_Z (Z.land (Z.shiftr u24 8) 0xFF);
    byte_of_Z (Z.land (Z.shiftr u24 16) 0xFF) ].

(** [le_bytes_to_int32 (&buffer[base])]; [None] reads past the buffer. *)
Definition le_bytes_to_int32 (buffer : list byte) (base : nat) : option Z :=
  match byte_at buffer base, byte_at buffer (base + 1),
        byte_at buffer (base + 2), byte_at buffer (base + 3) with
  | Some p0, Some p1, Some p2, Some p3 =>
      let w := Z.lor (Z.lor (Z.lor p0 (to_uint32 (Z.shiftl p1 8)))
                            (to_uint32 (Z.shiftl p2 16)))
                     (to_uint32 (Z.shiftl p3 24)) in
      Some (to_int32 w)
  | _, _, _, _ => None
  end.

(** The header fields as the packet loop computes them. *)
Definition parse_header (header_buffer : list byte) : packet_header :=
  let h := hb header_buffer in
  {| magic := Z.lor (Z.lor (Z.lor (h 0%nat) (to_uint32 (Z.shiftl (h 1%nat) 8)))
                           (to_uint32 (Z.shiftl (h 2%nat) 16)))
                    (to_uint32 (Z.shiftl (h 3%nat) 24));
     sequence_number :=
       Z.lor (Z.lor (Z.lor (h 4%nat) (to_uint32 (Z.shiftl (h 5%nat) 8)))
                    (to_uint32 (Z.shiftl (h 6%nat) 16)))
             (to_uint32 (Z.shiftl (h 7%nat) 24));
     first_sample_index := or_8_bytes header_buffer 8;
     timestamp_microseconds := or_8_bytes header_buffer 16;
     frames_in_packet := to_uint16 (Z.lor (h 24%nat) (Z.shiftl (h 25%nat) 8));
     channels_in_packet := h 26%nat;
     bytes_per_sample_in_packet := h 27%nat;
     sample_rate_in_packet :=
       Z.lor (Z.lor (Z.lor (h 28%nat) (to_uint32 (Z.shiftl (h 29%nat) 8)))
                    (to_uint32 (Z.shiftl (h 30%nat) 16)))
             (to_uint32 (Z.shiftl (h 31%nat) 24));
     format_id_in_packet := to_uint16 (Z.lor (h 32%nat) (Z.shiftl (h 33%nat) 8)) |}.

Definition payload_bytes_of (h : packet_header) : Z :=
  to_size_t (to_size_t (frames_in_packet h * channels_in_packet h)
             * bytes_per_sample_in_packet h).

Definition MAX_FRAMES_LIMIT : Z := Z.shiftl 1 16.

(** The test guarding the payload read. *)
Definition suspicious_number_of_frames (h : packet_header) : bool :=
  (frames_in_packet h =? 0) || (MAX_FRAMES_LIMIT <? frames_in_packet h).

Definition clamp (scaled : double) : double :=
  let scaled := if dgt scaled (double_of_int INT32_MAX)
                then double_of_int INT32_MAX else scaled in
  if dlt scaled (double_of_int INT32_MIN) then double_of_int INT32_MIN else scaled.

(** One frame of the conversion loop, from the sample read to the three
    bytes pushed. *)
Definition convert_sample (sample_int32 : Z) (gain_now : double) : option (list byte) :=
  let scaled := clamp (dmul (double_of_int sample_int32) gain_now) in
  match llround scaled with
  | None => None
  | Some r => Some (int32_left24_to_3bytes_le (to_int32 r))
  end.

(** The conversion loop over the frame indices still to do. *)
Fixpoint convert_frames (frame_indices : list nat) (payload_buffer : list byte)
    (h : packet_header) (gain_now : double) (output_bytes : list byte)
    : option (list byte) :=
  match frame_indices with
  | [] => Some output_bytes
  | frame_index :: later =>
      let base := to_size_t (to_size_t (Z.of_nat frame_index * bytes_per_sample_in_packet h)
                             * channels_in_packet h) in
      match le_bytes_to_int32 payload_buffer (Z.to_nat base) with
      | None => None
      | Some sample_int32 =>
          match convert_sample sample_int32 gain_now with
          | None => None
          | Some three_bytes =>
              convert_frames later payload_buffer h gain_now (output_bytes ++ three_bytes)
          end
      end
  end.

(** One turn of the packet loop of [tcp_audio_receiver_server_loop];
    [validate_header_basics] only prints. *)
Definition packet (w : world) (client_fd : socket) : outcome :=
  match recv_all client_fd HEADER_SIZE with
  | None => OutOfFuel
  | Some (false, _, client_fd) => Break true w client_fd
  | Some (true, header_buffer, client_fd) =>
      let h := parse_header header_buffer in
      if negb (magic h =? HEADER_MAGIC) then Break false w client_fd
      else
        let payload_bytes := payload_bytes_of h in
        if payload_bytes =? 0 then Continue w client_fd
        else if suspicious_number_of_frames h then Break false w client_fd
        else
          match recv_all client_fd (Z.to_nat payload_bytes) with
          | None => OutOfFuel
          | Some (false, _, client_fd) => Break false w client_fd
          | Some (true, payload_buffer, client_fd) =>
              let gain_now := global_makeup_gain w in
              match convert_frames (seq 0 (Z.to_nat (frames_in_packet h)))
                      payload_buffer h gain_now [] with
              | None => Undefined
              | Some output_bytes =>
                  let f := fwrite_ output_bytes (output_wav_file w) in
                  Continue (publish f (frames_in_packet h) (first_sample_index h)
                              (sequence_number h) w) client_fd
              end
          end
  end.

(** [while (global_should_run.load() && connection_ok) { ... }] *)
Fixpoint packet_loop (fuel : nat) (w : world) (client_fd : socket) : loop_end :=
  if global_should_run w then
    match fuel with
    | O => LoopOutOfFuel
    | S fuel' =>
        match packet w client_fd with
        | Continue w' client_fd' => packet_loop fuel' w' client_fd'
        | Break connection_ok w' client_fd' => Exited connection_ok w' client_fd'
        | Undefined => LoopUndefined
        | OutOfFuel => LoopOutOfFuel
        end
    end
  else Stopped w client_fd.

(** What a fresh connection finds in the output file. *)
Definition open_output (w : world) : bool * FILE :=
  write_wav_header_placeholder (fopen_wb (output_wav_file w))
    EXPECTED_SAMPLE_RATE EXPECTED_CHANNEL_COUNT.

(** The accept loop of [tcp_audio_receiver_server_loop] over what
    [accept] returns, one after the other; with nothing left to accept
    the run ends in the blocked [accept]. *)
Fixpoint tcp_audio_receiver_server_loop (listen_fd : list accept_result) (w : world)
    : option world :=
  if global_should_run w then
    match listen_fd with
    | [] => Some w
    | AcceptEintr :: later => tcp_audio_receiver_server_loop later w
    | AcceptError :: _ => Some w
    | Client client_fd file_opens :: later =>
        let w := note Accepted w in
        if file_opens then
          let (written, f) := open_output w in
          if written then
            let w := note FileOpened (with_file (fseek_end f) w) in
            match packet_loop (S (socket_bytes client_fd)) w client_fd with
            | Exited _ w' _ | Stopped w' _ =>
                tcp_audio_receiver_server_loop later
                  (note FileClosed (note ClientClosed w'))
            | LoopUndefined | LoopOutOfFuel => None
            end
          else
            tcp_audio_receiver_server_loop later
              (note ClientClosed (note FileClosed (with_file f w)))
        else tcp_audio_receiver_server_loop later (note ClientClosed w)
    end
  else Some w.

(** The end of [main]: once the receiver thread is joined the header of
    the output file is patched. *)
Definition finalize_on_exit (w : world) : world :=
  with_file
    (finalize_wav_header (fopen_rb (output_wav_file w))
       (to_uint32 (global_total_samples_written_count w))
       EXPECTED_CHANNEL_COUNT EXPECTED_SAMPLE_RATE) w.

End Combined.

(** *** [code_reciver_fixed.cpp] *)

Module Fixed.

(** [recv_all], [write_u32_le], [write_u16_le],
    [write_wav_header_placeholder], [finalize_wav_header] and
    [le_bytes_to_int32] read as in the combined receiver. *)
Definition recv_all := Combined.recv_all.
Definition write_wav_header_placeholder := Combined.write_wav_header_placeholder.
Definition finalize_wav_header := Combined.finalize_wav_header.

(** [int32_to_24le_bytes] *)
Definition int32_to_24le_bytes (s32 : Z) : list byte :=
  let s24 := Z.shiftr s32 8 in
  let u := Z.land (to_uint32 s24) 0xFFFFFF in
  [ byte_of_Z (Z.land u 0xFF);
    byte_of_Z (Z.land (Z.shiftr u 8) 0xFF);
    byte_of_Z (Z.land (Z.shiftr u 16) 0xFF) ].

Definition parse_header := Combined.parse_header.

Definition payload_bytes_of (h : packet_header) : Z :=
  to_size_t (to_size_t (frames_in_packet h * channels_in_packet h)
             * bytes_per_sample_in_packet h).

Definition clamp (scaled : double) : double :=
  let scaled := if dgt scaled (double_of_int INT32_MAX)
                then double_of_int INT32_MAX else scaled in
  if dlt scaled (double_of_int INT32_MIN) then double_of_int INT32_MIN else scaled.

(** One iteration of the conversion loop of [tcp_server_loop], from
    [s32] to the three bytes pushed; the loop packs the bytes inline. *)
Definition convert_sample (s32 : Z) (gf : double) : option (list byte) :=
  let scaled := clamp (dmul (double_of_int s32) gf) in
  match llround scaled with
  | None => None
  | Some r =>
      let s32_scaled := to_int32 r in
      let s24 := Z.shiftr s32_scaled 8 in
      let u24 := Z.land (to_uint32 s24) 0xFFFFFF in
      Some [ byte_of_Z (Z.land u24 0xFF);
             byte_of_Z (Z.land (Z.shiftr u24 8) 0xFF);
             byte_of_Z (Z.land (Z.shiftr u24 16) 0xFF) ]
  end.

(** [payload[base + 0] | payload[base + 1] << 8 | ...] *)
Definition sample_at (payload : list byte) (base : nat) : option Z :=
  match byte_at payload (base + 0), byte_at payload (base + 1),
        byte_at payload (base + 2), byte_at payload (base + 3) with
  | Some p0, Some p1, Some p2, Some p3 =>
      Some (to_int32 (Z.lor (Z.lor (Z.lor p0 (to_uint32 (Z.shiftl p1 8)))
                                   (to_uint32 (Z.shiftl p2 16)))
                            (to_uint32 (Z.shiftl p3 24))))
  | _, _, _, _ => None
  end.

(** The conversion loop: [base = i * 4]. *)
Fixpoint convert_frames (indices : list nat) (payload : list byte) (gf : double)
    (out_bytes : list byte) : option (list byte) :=
  match indices with
  | [] => Some out_bytes
  | i :: later =>
      let base := to_size_t (Z.of_nat i * 4) in
      match sample_at payload (Z.to_nat base) with
      | None => None
      | Some s32 =>
          match convert_sample s32 gf with
          | None => None
          | Some three => convert_frames later payload gf (out_bytes ++ three)
          end
      end
  end.

(** One turn of the packet loop of [tcp_server_loop]. *)
Definition packet (w : world) (cli_fd : socket) : outcome :=
  match recv_all cli_fd HEADER_SIZE with
  | None => OutOfFuel
  | Some (false, _, cli_fd) => Break true w cli_fd
  | Some (true, hdr, cli_fd) =>
      let h := parse_header hdr in
      if negb (magic h =? HEADER_MAGIC) then Break false w cli_fd
      else
        let payload_bytes := payload_bytes_of h in
        if payload_bytes =? 0 then Continue w cli_fd
        else
          match recv_all cli_fd (Z.to_nat payload_bytes) with
          | None => OutOfFuel
          | Some (false, _, cli_fd) => Break false w cli_fd
          | Some (true, payload, cli_fd) =>
              match convert_frames (seq 0 (Z.to_nat (frames_in_packet h)))
                      payload (global_makeup_gain w) [] with
              | None => Undefined
              | Some out_bytes =>
                  let f := fwrite_ out_bytes (output_wav_file w) in
                  Continue (publish f (frames_in_packet h) (first_sample_index h)
                              (sequence_number h) w) cli_fd
              end
          end
  end.

Fixpoint packet_loop (fuel : nat) (w : world) (cli_fd : socket) : loop_end :=
  if global_should_run w then
    match fuel with
    | O => LoopOutOfFuel
    | S fuel' =>
        match packet w cli_fd with
        | Continue w' cli_fd' => packet_loop fuel' w' cli_fd'
        | Break conn_ok w' cli_fd' => Exited conn_ok w' cli_fd'
        | Undefined => LoopUndefined
        | OutOfFuel => LoopOutOfFuel
        end
    end
  else Stopped w cli_fd.

Definition open_output (w : world) : bool * FILE :=
  write_wav_header_placeholder (fopen_wb (output_wav_file w)) SAMPLE_RATE CHANNELS.

(** The accept loop of [tcp_server_loop]. *)
Fixpoint tcp_server_loop (listen_fd : list accept_result) (w : world) : option world :=
  if global_should_run w then
    match listen_fd with
    | [] => Some w
    | AcceptEintr :: later => tcp_server_loop later w
    | AcceptError :: _ => Some w
    | Client cli_fd file_opens :: later =>
        let w := note Accepted w in
        if file_opens then
          let (written, f) := open_output w in
          if written then
            let w := note FileOpened (with_file (fseek_end f) w) in
            match packet_loop (S (socket_bytes cli_fd)) w cli_fd with
            | Exited _ w' _ | Stopped w' _ =>
                tcp_server_loop later (note FileClosed (note ClientClosed w'))
            | LoopUndefined | LoopOutOfFuel => None
            end
          else tcp_server_loop later (note ClientClosed (note FileClosed (with_file f w)))
        else tcp_server_loop later (note ClientClosed w)
    end
  else Some w.

End Fixed.

(** *** [esp_audio_reciver.cpp] *)

Module Draft.

(** [recive_full].  The test for a closed peer and the update of
    [total_recived_bytes] sit inside the [r < 0] branch, behind the
    [continue] and the [return]: no path reaches them, and a [recv] that
    returns [r >= 0] only stores its bytes at [buffer_pointer +
    total_recived_bytes]. *)
Fixpoint recive_full (fuel : nat) (socket_file_descriptior : socket)
    (buffer : list byte) (total_recived_bytes required_bytes : nat)
    : option (bool * list byte * socket) :=
  if (total_recived_bytes <? required_bytes)%nat then
    match fuel with
    | O => None
    | S fuel' =>
        match recv socket_file_descriptior (required_bytes - total_recived_bytes) with
        | (Interrupted, sock') =>
            recive_full fuel' sock' buffer total_recived_bytes required_bytes
        | (Failed, sock') => Some (false, buffer, sock')
        | (Received r, sock') =>
            recive_full fuel' sock' (store buffer total_recived_bytes r)
              total_recived_bytes required_bytes
        end
    end
  else Some (true, buffer, socket_file_descriptior).

Definition write_uint32t_little_endian (intvalue : Z) (f : FILE) : FILE :=
  fwrite_ [ byte_of_Z (Z.land intvalue 0xff);
            byte_of_Z (Z.land (Z.shiftr intvalue 8) 0xff);
            byte_of_Z (Z.land (Z.shiftr intvalue 16) 0xff);
            byte_of_Z (Z.land (Z.shiftr intvalue 24) 0xff) ] f.

Definition write_uint16t_little_endian (intvalue : Z) (f : FILE) : FILE :=
  fwrite_ [ byte_of_Z (Z.land intvalue 0xff);
            byte_of_Z (Z.land (Z.shiftr intvalue 8) 0xff) ] f.

(** [write_wev_header_placeholder]: the string ["fmt"] with its
    terminator, no sample rate field. *)
Definition write_wev_header_placeholder (f : FILE) (sample_rate channels : Z)
    : bool * FILE :=
  let f := fwrite_ RIFF f in
  let f := write_uint32t_little_endian 16 f in
  let f := fwrite_ WAVE f in
  let f := fwrite_ fmt0 f in
  let f := write_uint32t_little_endian 16 f in
  let f := write_uint16t_little_endian 1 f in
  let f := write_uint16t_little_endian channels f in
  let byte_rate := to_uint32 (sample_rate * channels * OUT_BYTES_PER_SAMPLE) in
  let block_align := to_uint16 (channels * OUT_BYTES_PER_SAMPLE) in
  let f := write_uint32t_little_endian byte_rate f in
  let f := write_uint16t_little_endian block_align f in
  let f := write_uint16t_little_endian (OUT_BYTES_PER_SAMPLE * 8) f in
  let f := fwrite_ data f in
  let f := write_uint32t_little_endian 0 f in
  (true, f).

Definition finalize_wav_header (f : FILE) (total_samples channels sample_rate : Z) : FILE :=
  let data_bytes := to_uint32 (to_uint32 (total_samples * channels) * OUT_BYTES_PER_SAMPLE) in
  let riff_size := to_uint32 (4 + (8 + 16) + to_uint32 (8 + data_bytes)) in
  let f := fseek_set 4 f in
  let f := write_uint32t_little_endian riff_size f in
  let f := fseek_set 40 f in
  write_uint32t_little_endian data_bytes f.

(** [int32_to_24_bytes_little_endian]; the mask is written with seven
    hexadecimal digits. *)
Definition int32_to_24_bytes_little_endian (sound_32_bits : Z) : list byte :=
  let sound_24_bits := Z.shiftr sound_32_bits 8 in
  let casted_sound_24_bits := Z.land (to_uint32 sound_24_bits) 0xfffffff in
  [ byte_of_Z (Z.land casted_sound_24_bits 0xff);
    byte_of_Z (Z.land (Z.shiftr casted_sound_24_bits 8) 0xff);
    byte_of_Z (Z.land (Z.shiftr casted_sound_24_bits 16) 0xff) ].

(** The header fields as [tcp_server_loop] computes them: the sequence
    takes [header[5]] a second time where the third byte belongs, the
    timestamp loop reads from [header[8 + i]]. *)
Definition parse_header (header : list byte) : packet_header :=
  let h := hb header in
  {| magic := Z.lor (Z.lor (h 0%nat) (to_uint32 (Z.shiftl (h 1%nat) 8)))
                    (Z.lor (to_uint32 (Z.shiftl (h 2%nat) 16))
                           (to_uint32 (Z.shiftl (h 3%nat) 24)));
     sequence_number :=
       Z.lor (Z.lor (h 4%nat) (to_uint32 (Z.shiftl (h 5%nat) 8)))
             (Z.lor (to_uint32 (Z.shiftl (h 5%nat) 16))
                    (to_uint32 (Z.shiftl (h 7%nat) 24)));
     first_sample_index := or_8_bytes header 8;
     timestamp_microseconds := or_8_bytes header 8;
     frames_in_packet := to_uint16 (Z.lor (h 24%nat) (Z.shiftl (h 25%nat) 8));
     channels_in_packet := h 26%nat;
     bytes_per_sample_in_packet := h 27%nat;
     sample_rate_in_packet :=
       Z.lor (Z.lor (Z.lor (h 28%nat) (to_uint32 (Z.shiftl (h 29%nat) 8)))
                    (to_uint32 (Z.shiftl (h 30%nat) 16)))
             (to_uint32 (Z.shiftl (h 31%nat) 24));
     format_id_in_packet := to_uint16 (Z.lor (h 32%nat) (Z.shiftl (h 33%nat) 8)) |}.

Definition payload_bytes_of (h : packet_header) : Z :=
  to_size_t (to_size_t (frames_in_packet h * channels_in_packet h)
             * bytes_per_sample_in_packet h).

(** The clamp of [tcp_server_loop]: [if (...) ... else if (...) ...]. *)
Definition clamp (scaled_reconstruction : double) : double :=
  if dgt scaled_reconstruction (double_of_int INT32_MAX)
  then double_of_int INT32_MAX
  else if dlt scaled_reconstruction (double_of_int INT32_MIN)
       then double_of_int INT32_MIN
       else scaled_reconstruction.

(** One iteration of the conversion loop of [tcp_server_loop], from the
    reconstructed sample to the three bytes pushed to the output. *)
Definition convert_sample (sound : Z) (gain_factor : double) : option (list byte) :=
  let scaled_reconstruction := clamp (dmul (double_of_int sound) gain_factor) in
  match llround scaled_reconstruction with
  | None => None
  | Some r =>
      let scaled_int32 := to_int32 r in
      let scaled_24bit := Z.shiftr scaled_int32 8 in
      let unsigned_24bit_masked_sound := Z.land (to_uint32 scaled_24bit) 0xFFFFFF in
      Some [ byte_of_Z (Z.land unsigned_24bit_masked_sound 0xff);
             byte_of_Z (Z.land (to_uint32 (Z.shiftr unsigned_24bit_masked_sound 8)) 0xff);
             byte_of_Z (Z.land (to_uint32 (Z.shiftr unsigned_24bit_masked_sound 16)) 0xff) ]
  end.

Definition sample_at (payload_data_container : list byte) (base_shift : nat) : option Z :=
  match byte_at payload_data_container (base_shift + 0),
        byte_at payload_data_container (base_shift + 1),
        byte_at payload_data_container (base_shift + 2),
        byte_at payload_data_container (base_shift + 3) with
  | Some p0, Some p1, Some p2, Some p3 =>
      Some (to_int32 (Z.lor (Z.lor (Z.lor p0 (to_uint32 (Z.shiftl p1 8)))
                                   (to_uint32 (Z.shiftl p2 16)))
                            (to_uint32 (Z.shiftl p3 24))))
  | _, _, _, _ => None
  end.

(** The conversion loop: [base_shift = i * 4]. *)
Fixpoint convert_frames (indices : list nat) (payload_data_container : list byte)
    (gain_factor : double) (out_bytes_container : list byte) : option (list byte) :=
  match indices with
  | [] => Some out_bytes_container
  | i :: later =>
      let base_shift := to_size_t (Z.of_nat i * 4) in
      match sample_at payload_data_container (Z.to_nat base_shift) with
      | None => None
      | Some sound =>
          match convert_sample sound gain_factor with
          | None => None
          | Some three =>
              convert_frames later payload_data_container gain_factor
                (out_bytes_container ++ three)
          end
      end
  end.

(** The packet loop body of [tcp_server_loop] from the magic test on,
    for a header buffer that has been filled.  A failed payload receive
    is reported and the turn goes on with what the payload buffer
    holds.  The packet loop sits inside the block that took
    [global_file_mutex] when the file was opened, so the [lock_guard] of
    the write block locks a [std::mutex] its own thread owns: from there
    on the behaviour is undefined, and no turn gets to the [fwrite], the
    sample count or the status atoms. *)
Definition after_header (fuel : nat) (w : world) (client : socket) (header : list byte)
    : outcome :=
  let h := parse_header header in
  if negb (magic h =? HEADER_MAGIC) then Break false w client
  else
    let payload_bytes := payload_bytes_of h in
    if payload_bytes =? 0 then Continue w client
    else
      match recive_full fuel client (repeat x00 (Z.to_nat payload_bytes)) 0
              (Z.to_nat payload_bytes) with
      | None => OutOfFuel
      | Some (_, payload_data_container, client) =>
          match convert_frames (seq 0 (Z.to_nat (frames_in_packet h)))
                  payload_data_container (global_makeup_gain w) [] with
          | None => Undefined
          | Some _ => Undefined
          end
      end.

(** One turn of the packet loop; [header] is the array the turns share. *)
Definition packet (fuel : nat) (w : world) (client : socket) (header : list byte)
    : outcome * list byte :=
  match recive_full fuel client header 0 HEADER_SIZE with
  | None => (OutOfFuel, header)
  | Some (false, header, client) => (Break true w client, header)
  | Some (true, header, client) => (after_header fuel w client header, header)
  end.

Definition open_output (w : world) : bool * FILE :=
  write_wev_header_placeholder (fopen_wb (output_wav_file w)) SAMPLE_RATE CHANNELS.

(** The accept loop of [tcp_server_loop].  The [if] on the result of
    [write_wev_header_placeholder] ends in a semicolon, so the block
    after it runs for every client: the file and the client are closed
    and the loop goes back to [accept]; the packet loop below it is never
    entered. *)
Fixpoint tcp_server_loop (listen_fd : list accept_result) (w : world) : option world :=
  if global_should_run w then
    match listen_fd with
    | [] => Some w
    | AcceptEintr :: later => tcp_server_loop later w
    | AcceptError :: _ => Some w
    | Client client file_opens :: later =>
        let w := note Accepted w in
        if file_opens then
          let (_, f) := open_output w in
          tcp_server_loop later
            (note ClientClosed (note FileClosed (note FileOpened (with_file f w))))
        else tcp_server_loop later (note ClientClosed w)
    end
  else Some w.

End Draft.

(** *** The ESP32 streamer, [esp32_stream_tcp_i2s_fixed_high_quality.ino] *)

Module Streamer.

Definition SAMPLE_RATE : Z := 48000.
Definition CHANNELS : Z := 1.
Definition FRAMES_PER_PACKET : Z := 1024.
Definition BYTES_PER_SAMPLE : Z := 4.

(** [(uint8_t)(value & 0xFF)], [(uint8_t)((value >> 8) & 0xFF)], ... for
    [n] bytes. *)
Definition bytes_of (value : Z) (n : nat) : list byte :=
  map (fun i => byte_of_Z (Z.land (Z.shiftr value (8 * Z.of_nat i)) 0xFF)) (seq 0 n).

(** The header array [sendPacketTCP] fills. *)
Definition build_header (seq_ first_sample_index timestamp_us frames : Z) : list byte :=
  bytes_of HEADER_MAGIC 4 ++ bytes_of seq_ 4 ++ bytes_of first_sample_index 8
  ++ bytes_of timestamp_us 8 ++ bytes_of frames 2
  ++ [byte_of_Z CHANNELS; byte_of_Z BYTES_PER_SAMPLE]
  ++ bytes_of SAMPLE_RATE 4 ++ bytes_of FORMAT_INT32_LEFT24 2.

(** The payload [sendPacketTCP] writes: the first [frames] words of
    [payload_words], each in the byte order of the ESP32 (least
    significant byte first). *)
Definition payload_of (payload_words : list Z) (frames : Z) : list byte :=
  flat_map (fun word => bytes_of (to_uint32 word) 4) (firstn (Z.to_nat frames) payload_words).

(** The right-channel words [audioTask] picks out of the I2S buffer
    [L0, R0, L1, R1, ...] for a full read. *)
Definition right_channel (i2s_words : list Z) (frames : nat) : list Z :=
  map (fun i => nth (i * 2 + 1) i2s_words 0) (seq 0 frames).

(** The bytes one turn of [audioTask] sends once [i2s_read] has filled
    [word_count] words of [i2s_words]: the right-channel words of the
    frames read in full (the rest of [payload_words] is zero-filled and
    not sent), under the sequence number, the sample index and the
    timestamp of the turn. *)
Definition audio_packet (i2s_words : list Z) (word_count : nat)
    (seq_ first_sample_index timestamp_us : Z) : list byte :=
  let need_words := (Z.to_nat FRAMES_PER_PACKET * 2)%nat in
  let avail_frames :=
    if (need_words <=? word_count)%nat then Z.to_nat FRAMES_PER_PACKET
    else (word_count / 2)%nat in
  let payload_words :=
    if (need_words <=? word_count)%nat
    then right_channel i2s_words (Z.to_nat FRAMES_PER_PACKET)
    else right_channel i2s_words (word_count / 2)
         ++ repeat 0 (Z.to_nat FRAMES_PER_PACKET - word_count / 2) in
  build_header seq_ first_sample_index timestamp_us (to_uint16 (Z.of_nat avail_frames))
  ++ payload_of payload_words (to_uint16 (Z.of_nat avail_frames)).

End Streamer.

(** *** The control plane *)

Definition gain_0_01 : double := S754_finite false 5764607523034235 (-59).
Definition gain_16_0 : double := S754_finite false 4503599627370496 (-48).

(** The [/control] handler of the combined receiver (and of
    [web-server/main.cpp]) once the number is read from the request:
    [if (g < 0.01) g = 0.01; if (g > 16.0) g = 16.0;] and the store. *)
Definition clamp_requested_gain (requested_gain : double) : double :=
  let requested_gain :=
    if dlt requested_gain gain_0_01 then gain_0_01 else requested_gain in
  if dgt requested_gain gain_16_0 then gain_16_0 else requested_gain.

Definition control_set_gain (requested_gain : double) (w : world) : world :=
  {| output_wav_file := output_wav_file w;
     global_should_run := global_should_run w;
     global_makeup_gain := clamp_requested_gain requested_gain;
     global_total_samples_written_count := global_total_samples_written_count w;
     global_highest_received_sample_index := global_highest_received_sample_index w;
     global_last_received_sequence := global_last_received_sequence w;
     trace := trace w |}.

(** The [/control] handler of the fixed receiver once the [gain]
    parameter is found in the query string: [std::stod] and the store, with
    no clamp. *)
Definition fixed_control_set_gain (g : double) (w : world) : world :=
  {| output_wav_file := output_wav_file w;
     global_should_run := global_should_run w;
     global_makeup_gain := g;
     global_total_samples_written_count := global_total_samples_written_count w;
     global_highest_received_sample_index := global_highest_received_sample_index w;
     global_last_received_sequence := global_last_received_sequence w;
     trace := trace w |}.

(** ** Notions used in the statements *)

(** A socket on which no [recv] fails and no chunk is empty: the peer
    sends its bytes, in whatever pieces, and closes. *)
Definition orderly (sock : socket) : Prop :=
  Forall (fun ev => match ev with
                    | Chunk [] | Failure => False
                    | _ => True
                    end) sock.

(** [turns packet w client w' client']: a packet loop whose turn is
    [packet], entered in state [w] on [client], is in state [w'] on
    [client'] after some number of turns that went on. *)
Inductive turns (packet : world -> socket -> outcome)
    : world -> socket -> world -> socket -> Prop :=
| turns_none (w : world) (client : socket) : turns packet w client w client
| turns_more (w w1 w2 : world) (client client1 client2 : socket) :
    packet w client = Continue w1 client1 ->
    turns packet w1 client1 w2 client2 ->
    turns packet w client w2 client2.

(** The state in which the packet loop of a client is entered: the client
    is accepted, the output file is truncated and holds the placeholder
    header, its stream is at the end. *)
Definition combined_opened (w : world) : world :=
  note FileOpened
    (with_file (fseek_end (snd (Combined.open_output (note Accepted w)))) (note Accepted w)).

Definition fixed_opened (w : world) : world :=
  note FileOpened
    (with_file (fseek_end (snd (Fixed.open_output (note Accepted w)))) (note Accepted w)).

(** The state after the client and the file of a connection are closed. *)
Definition closed (w : world) : world := note FileClosed (note ClientClosed w).

(** The stream of the output file is at the end of the file. *)
Definition at_end (f : FILE) : Prop := position f = length (content f).

Definition count_event (ev : event) (t : list event) : nat :=
  length (filter (fun e => match ev, e with
                           | Accepted, Accepted | FileOpened, FileOpened
                           | ClientClosed, ClientClosed | FileClosed, FileClosed => true
                           | _, _ => false
                           end) t).

(** The 44 bytes of a RIFF/WAVE header for 24-bit PCM with the two size
    fields given: the RIFF chunk, the 16-byte [fmt ] chunk and the head of
    the [data] chunk. *)
Definition wav_header (sample_rate channels riff_size data_bytes : Z) : list byte :=
  RIFF ++ le_bytes 4 riff_size ++ WAVE
  ++ fmt_ ++ le_bytes 4 16 ++ le_bytes 2 1 ++ le_bytes 2 channels ++ le_bytes 4 sample_rate
  ++ le_bytes 4 (sample_rate * channels * 3) ++ le_bytes 2 (channels * 3) ++ le_bytes 2 24
  ++ data ++ le_bytes 4 data_bytes.

(** The 40 bytes [write_wev_header_placeholder] of the draft writes: the
    tag of the format chunk ends in a zero byte, the RIFF size field holds
    16 and there is no sample rate field. *)
Definition draft_wav_header (sample_rate channels : Z) : list byte :=
  RIFF ++ le_bytes 4 16 ++ WAVE
  ++ fmt0 ++ le_bytes 4 16 ++ le_bytes 2 1 ++ le_bytes 2 channels
  ++ le_bytes 4 (sample_rate * channels * 3) ++ le_bytes 2 (channels * 3) ++ le_bytes 2 24
  ++ data ++ le_bytes 4 0.

(** What the connection log gains while one client is served. *)
Definition served_session (s : list event) : Prop :=
  s = [Accepted; FileOpened; ClientClosed; FileClosed] \/ s = [Accepted; ClientClosed].

Definition draft_session (s : list event) : Prop :=
  s = [Accepted; FileOpened; FileClosed; ClientClosed] \/ s = [Accepted; ClientClosed].

(** A 24-bit two's complement value read from three little-endian bytes. *)
Definition signed24 (three : list byte) : Z :=
  let v := le_value three in
  if v <? 2 ^ 23 then v else v - 2 ^ 24.

(** ** Concrete inputs *)

(** The output file of a connection that sent nothing: the placeholder
    header of the combined receiver. *)
Definition header_only_file : FILE :=
  snd (Combined.write_wav_header_placeholder
         {| content := []; position := 0; space := 100 |}
         Combined.EXPECTED_SAMPLE_RATE Combined.EXPECTED_CHANNEL_COUNT).

(** A header with a wrong magic (all bytes zero) and one announcing
    nothing: [frames = 0]. *)
Definition zero_header : list byte := repeat x00 34.
Definition no_frames_header : list byte := make_header 7 4800 0 0 1 4 48000 1.

(** A header for one mono frame of four bytes, and one for two stereo
    frames. *)
Definition one_frame_header : list byte := make_header 1 0 0 1 1 4 48000 1.
Definition two_stereo_frames_header : list byte := make_header 1 0 0 2 2 4 48000 1.

(** Two stereo frames on the wire: left 0x100 and right 0x200, then left
    0x300 and right 0x400. *)
Definition two_stereo_frames_payload : list byte :=
  le_bytes 4 0x100 ++ le_bytes 4 0x200 ++ le_bytes 4 0x300 ++ le_bytes 4 0x400.

(** A header whose sequence number is 0x00010000 and whose timestamp is 1,
    the first sample index being 0. *)
Definition sequence_65536_header : list byte := make_header 0x10000 0 1 1 1 4 48000 1.

(** The largest frame count the 16-bit field can carry. *)
Definition most_frames_header : list byte := make_header 1 0 0 65535 1 4 48000 1.

(** Two mono frames, samples 0x00000100 and 0xFFFFFE00 (+1 and -2 in
    24-bit units), first sample index 4800. *)
Definition two_mono_frames_header : list byte := make_header 1 4800 0 2 1 4 48000 1.
Definition two_mono_frames_payload : list byte := le_bytes 4 0x100 ++ le_bytes 4 0xFFFFFE00.

(* ================================================================== *)
(** * Bytes and little-endian numbers                                *)
(* ================================================================== *)

Lemma byte_to_Z_range (b : byte) : 0 <= byte_to_Z b < 256.
Proof.
  unfold byte_to_Z. pose proof (Byte.to_N_bounded b). lia.
Qed.

Lemma byte_of_to_Z (b : byte) : byte_of_Z (byte_to_Z b) = b.
Proof.
  unfold byte_of_Z, to_uint8.
  pose proof (byte_to_Z_range b).
  rewrite Z.mod_small by (change (2 ^ 8) with 256; lia).
  unfold byte_to_Z. rewrite N2Z.id, Byte.of_to_N. reflexivity.
Qed.

Lemma byte_to_of_Z (x : Z) : byte_to_Z (byte_of_Z x) = x mod 256.
Proof.
  unfold byte_of_Z, to_uint8. change (2 ^ 8) with 256.
  pose proof (Z.mod_pos_bound x 256 ltac:(lia)) as Hr.
  destruct (Byte.of_N (Z.to_N (x mod 256))) as [b|] eqn:E.
  - apply Byte.to_of_N in E. unfold byte_to_Z. rewrite E. lia.
  - apply Byte.of_N_None_iff in E. lia.
Qed.

Lemma byte_of_Z_mod (x : Z) : byte_of_Z (x mod 256) = byte_of_Z x.
Proof.
  unfold byte_of_Z, to_uint8. change (2 ^ 8) with 256.
  rewrite Z.mod_mod by lia. reflexivity.
Qed.

Lemma length_le_bytes (n : nat) (v : Z) : length (le_bytes n v) = n.
Proof. revert v. induction n; intros v; cbn [le_bytes length]; [|rewrite IHn]; reflexivity. Qed.

Lemma le_value_le_bytes (n : nat) (v : Z) :
  le_value (le_bytes n v) = v mod 256 ^ Z.of_nat n.
Proof.
  revert v. induction n as [|n IH]; intros v.
  - cbn. symmetry. apply Z.mod_1_r.
  - cbn [le_bytes le_value]. rewrite IH, byte_to_of_Z, Z.mod_mod by lia.
    rewrite Nat2Z.inj_succ, Z.pow_succ_r by lia.
    rewrite Z.rem_mul_r by (try apply Z.pow_pos_nonneg; lia). reflexivity.
Qed.

Lemma window_mod (v n k : Z) :
  0 <= k -> k + 8 <= n ->
  ((v mod 2 ^ n) / 2 ^ k) mod 2 ^ 8 = (v / 2 ^ k) mod 2 ^ 8.
Proof.
  intros Hk Hn.
  rewrite <- !Z.shiftr_div_pow2 by lia. rewrite <- !Z.land_ones by lia.
  apply Z.bits_inj'. intros i Hi.
  rewrite !Z.land_spec, !Z.shiftr_spec by lia. rewrite Z.land_spec.
  destruct (Z.ltb_spec i 8) as [Hlt|Hge].
  - rewrite (Z.ones_spec_low n (i + k)) by lia. rewrite andb_true_r. reflexivity.
  - rewrite (Z.ones_spec_high 8 i) by lia. rewrite !andb_false_r. reflexivity.
Qed.

Lemma byte_of_window (v n k : Z) :
  0 <= k -> k + 8 <= n ->
  Z.land (Z.shiftr (v mod 2 ^ n) k) 0xff = (v / 2 ^ k) mod 256.
Proof.
  intros Hk Hn.
  change 0xff with (Z.ones 8). rewrite Z.land_ones, Z.shiftr_div_pow2 by lia.
  apply window_mod; lia.
Qed.

Lemma land_ones_of_uint32 (v n : Z) :
  0 <= n <= 32 -> Z.land (to_uint32 v) (Z.ones n) = v mod 2 ^ n.
Proof.
  intros Hn. unfold to_uint32.
  apply Z.bits_inj'. intros i Hi. rewrite Z.land_spec.
  destruct (Z.ltb_spec i n) as [Hlt|Hge].
  - rewrite Z.ones_spec_low, (Z.mod_pow2_bits_low v 32), (Z.mod_pow2_bits_low v n) by lia.
    apply andb_true_r.
  - rewrite Z.ones_spec_high, (Z.mod_pow2_bits_high v n) by lia. apply andb_false_r.
Qed.

(** The three bytes a 24-bit pack produces, whatever mask of at least 24
    bits guards it. *)
Lemma pack24_spec (v n : Z) :
  24 <= n ->
  [ byte_of_Z (Z.land (v mod 2 ^ n) 0xff);
    byte_of_Z (Z.land (Z.shiftr (v mod 2 ^ n) 8) 0xff);
    byte_of_Z (Z.land (Z.shiftr (v mod 2 ^ n) 16) 0xff) ]
  = le_bytes 3 (Z.land v 0xFFFFFF).
Proof.
  intros Hn.
  rewrite <- (Z.shiftr_0_r (v mod 2 ^ n)) at 1.
  rewrite !byte_of_window by lia.
  change 0xFFFFFF with (Z.ones 24). rewrite Z.land_ones by lia.
  cbn [le_bytes]. rewrite !byte_of_Z_mod.
  rewrite Z.div_div by lia.
  change (256 * 256) with (2 ^ 16). change 256 with (2 ^ 8).
  rewrite <- (byte_of_Z_mod (v mod 2 ^ 24)).
  rewrite <- (byte_of_Z_mod (v mod 2 ^ 24 / 2 ^ 8)).
  rewrite <- (byte_of_Z_mod (v mod 2 ^ 24 / 2 ^ 16)).
  change 256 with (2 ^ 8).
  rewrite <- (Z.div_1_r (v mod 2 ^ 24)) at 1. change 1 with (2 ^ 0) at 1.
  rewrite !window_mod by lia.
  change (2 ^ 8) with 256. rewrite !byte_of_Z_mod. reflexivity.
Qed.

Lemma u32_bytes_spec (v : Z) :
  [ byte_of_Z (Z.land v 0xFF);
    byte_of_Z (Z.land (Z.shiftr v 8) 0xFF);
    byte_of_Z (Z.land (Z.shiftr v 16) 0xFF);
    byte_of_Z (Z.land (Z.shiftr v 24) 0xFF) ] = le_bytes 4 v.
Proof.
  change 0xFF with (Z.ones 8). rewrite !Z.land_ones, !Z.shiftr_div_pow2 by lia.
  cbn [le_bytes]. rewrite !Z.div_div by lia.
  change (2 ^ 8) with 256. change (2 ^ 16) with (256 * 256).
  change (2 ^ 24) with (256 * 256 * 256). reflexivity.
Qed.

Lemma lor_add_shifted (acc b k : Z) :
  0 <= k -> 0 <= acc < 2 ^ k -> Z.lor acc (Z.shiftl b k) = acc + b * 2 ^ k.
Proof.
  intros Hk Hacc. rewrite Z.shiftl_mul_pow2 by lia.
  rewrite <- Z.add_lor_land.
  replace (Z.land acc (b * 2 ^ k)) with 0; [lia|].
  symmetry. apply Z.bits_inj'. intros i Hi.
  rewrite Z.land_spec, Z.bits_0.
  destruct (Z.ltb_spec i k) as [Hlt|Hge].
  - rewrite Z.mul_pow2_bits_low by lia. apply andb_false_r.
  - rewrite <- (Z.mod_small acc (2 ^ k)) by lia.
    rewrite Z.mod_pow2_bits_high by lia. reflexivity.
Qed.

Lemma lor_byte (width acc b k : Z) :
  0 <= k -> k + 8 <= width -> 0 <= acc < 2 ^ k -> 0 <= b < 256 ->
  Z.lor acc (Z.shiftl b k mod 2 ^ width) = acc + b * 2 ^ k /\
  0 <= acc + b * 2 ^ k < 2 ^ (k + 8).
Proof.
  intros Hk Hw Hacc Hb.
  assert (Hp : 0 < 2 ^ k) by (apply Z.pow_pos_nonneg; lia).
  assert (H8 : 2 ^ (k + 8) = 2 ^ k * 256) by (rewrite Z.pow_add_r by lia; reflexivity).
  assert (Hle : 2 ^ (k + 8) <= 2 ^ width) by (apply Z.pow_le_mono_r; lia).
  assert (Hr : 0 <= acc + b * 2 ^ k < 2 ^ (k + 8)) by nia.
  split; [|exact Hr].
  rewrite Z.mod_small.
  - apply lor_add_shifted; lia.
  - rewrite Z.shiftl_mul_pow2 by lia. nia.
Qed.

Lemma le_value_4 (b0 b1 b2 b3 : byte) :
  Z.lor (Z.lor (Z.lor (byte_to_Z b0) (to_uint32 (Z.shiftl (byte_to_Z b1) 8)))
               (to_uint32 (Z.shiftl (byte_to_Z b2) 16)))
        (to_uint32 (Z.shiftl (byte_to_Z b3) 24))
  = le_value [b0; b1; b2; b3].
Proof.
  pose proof (byte_to_Z_range b0) as H0. pose proof (byte_to_Z_range b1) as H1.
  pose proof (byte_to_Z_range b2) as H2. pose proof (byte_to_Z_range b3) as H3.
  unfold to_uint32.
  destruct (lor_byte 32 (byte_to_Z b0) (byte_to_Z b1) 8) as [E1 R1];
    [lia | lia | change (2 ^ 8) with 256; lia | lia |].
  rewrite E1.
  destruct (lor_byte 32 _ (byte_to_Z b2) 16 ltac:(lia) ltac:(lia) R1 H2) as [E2 R2].
  rewrite E2.
  destruct (lor_byte 32 _ (byte_to_Z b3) 24 ltac:(lia) ltac:(lia) R2 H3) as [E3 R3].
  rewrite E3.
  cbn [le_value]. change (2 ^ 8) with 256. change (2 ^ 16) with 65536.
  change (2 ^ 24) with 16777216. lia.
Qed.

Lemma le_value_2 (b0 b1 : byte) :
  to_uint16 (Z.lor (byte_to_Z b0) (Z.shiftl (byte_to_Z b1) 8)) = le_value [b0; b1].
Proof.
  pose proof (byte_to_Z_range b0) as H0. pose proof (byte_to_Z_range b1) as H1.
  rewrite (lor_add_shifted (byte_to_Z b0) (byte_to_Z b1) 8) by (change (2 ^ 8) with 256; lia).
  unfold to_uint16. change (2 ^ 8) with 256. change (2 ^ 16) with 65536.
  rewrite Z.mod_small by lia. cbn [le_value]. lia.
Qed.

Lemma le_value_8 (b0 b1 b2 b3 b4 b5 b6 b7 : byte) (before : list byte) (after : list byte) :
  or_8_bytes (before ++ b0 :: b1 :: b2 :: b3 :: b4 :: b5 :: b6 :: b7 :: after) (length before)
  = le_value [b0; b1; b2; b3; b4; b5; b6; b7].
Proof.
  pose proof (byte_to_Z_range b0) as H0. pose proof (byte_to_Z_range b1) as H1.
  pose proof (byte_to_Z_range b2) as H2. pose proof (byte_to_Z_range b3) as H3.
  pose proof (byte_to_Z_range b4) as H4. pose proof (byte_to_Z_range b5) as H5.
  pose proof (byte_to_Z_range b6) as H6. pose proof (byte_to_Z_range b7) as H7.
  unfold or_8_bytes, hb. cbn [seq fold_left].
  rewrite !app_nth2_plus. cbn [nth].
  change (8 * Z.of_nat 0) with 0. change (8 * Z.of_nat 1) with 8.
  change (8 * Z.of_nat 2) with 16. change (8 * Z.of_nat 3) with 24.
  change (8 * Z.of_nat 4) with 32. change (8 * Z.of_nat 5) with 40.
  change (8 * Z.of_nat 6) with 48. change (8 * Z.of_nat 7) with 56.
  unfold to_uint64.
  rewrite Z.shiftl_0_r, (Z.mod_small (byte_to_Z b0))
    by (change (2 ^ 64) with 18446744073709551616; lia).
  rewrite Z.lor_0_l.
  assert (R0 : 0 <= byte_to_Z b0 < 2 ^ 8) by (change (2 ^ 8) with 256; lia).
  destruct (lor_byte 64 _ (byte_to_Z b1) 8 ltac:(lia) ltac:(lia) R0 H1) as [E1 R1].
  rewrite E1.
  destruct (lor_byte 64 _ (byte_to_Z b2) 16 ltac:(lia) ltac:(lia) R1 H2) as [E2 R2].
  rewrite E2.
  destruct (lor_byte 64 _ (byte_to_Z b3) 24 ltac:(lia) ltac:(lia) R2 H3) as [E3 R3].
  rewrite E3.
  destruct (lor_byte 64 _ (byte_to_Z b4) 32 ltac:(lia) ltac:(lia) R3 H4) as [E4 R4].
  rewrite E4.
  destruct (lor_byte 64 _ (byte_to_Z b5) 40 ltac:(lia) ltac:(lia) R4 H5) as [E5 R5].
  rewrite E5.
  destruct (lor_byte 64 _ (byte_to_Z b6) 48 ltac:(lia) ltac:(lia) R5 H6) as [E6 R6].
  rewrite E6.
  destruct (lor_byte 64 _ (byte_to_Z b7) 56 ltac:(lia) ltac:(lia) R6 H7) as [E7 R7].
  rewrite E7.
  cbn [le_value].
  change (2 ^ 8) with 256. change (2 ^ 16) with 65536. change (2 ^ 24) with 16777216.
  change (2 ^ 32) with 4294967296. change (2 ^ 40) with 1099511627776.
  change (2 ^ 48) with 281474976710656. change (2 ^ 56) with 72057594037927936.
  lia.
Qed.

(* ================================================================== *)
(** * Doubles that hold an integer                                   *)
(* ================================================================== *)

Lemma digits2_pos_iter_xO (p d : positive) :
  digits2_pos (Pos.iter xO p d) = (d + digits2_pos p)%positive.
Proof.
  induction d as [|d IH] using Pos.peano_ind.
  - rewrite Pos.add_1_l. reflexivity.
  - rewrite Pos.iter_succ. cbn [digits2_pos]. rewrite IH, Pos.add_succ_l. reflexivity.
Qed.

Lemma Zpos_iter_xO (p d : positive) :
  Zpos (Pos.iter xO p d) = Zpos p * 2 ^ Zpos d.
Proof.
  induction d as [|d IH] using Pos.peano_ind.
  - cbn [Pos.iter]. rewrite Pos2Z.inj_xO. change (2 ^ 1) with 2. lia.
  - rewrite Pos.iter_succ, Pos2Z.inj_xO, IH, Pos2Z.inj_succ, Z.pow_succ_r by lia. lia.
Qed.

Lemma digits2_pos_bound (p : positive) (n : positive) :
  Zpos p < 2 ^ Zpos n -> (digits2_pos p <= n)%positive.
Proof.
  revert n. induction p as [p IH|p IH|]; intros n H; simpl.
  - destruct (Pos.eq_dec n 1) as [->|Hn]; [simpl in H; lia|].
    assert (Hs : n = Pos.succ (Pos.pred n)) by (rewrite Pos.succ_pred; auto).
    rewrite Hs in H |- *. rewrite Pos2Z.inj_succ, Z.pow_succ_r in H by lia.
    specialize (IH (Pos.pred n)). lia.
  - destruct (Pos.eq_dec n 1) as [->|Hn]; [simpl in H; lia|].
    assert (Hs : n = Pos.succ (Pos.pred n)) by (rewrite Pos.succ_pred; auto).
    rewrite Hs in H |- *. rewrite Pos2Z.inj_succ, Z.pow_succ_r in H by lia.
    specialize (IH (Pos.pred n)). lia.
  - lia.
Qed.

(** A 53-bit significand with an exponent in range is already rounded. *)
Lemma binary_round_aux_exact (sx : bool) (m : positive) (e : Z) :
  digits2_pos m = 53%positive -> -1074 <= e <= 971 ->
  binary_round_aux prec emax sx (Zpos m) e loc_Exact = S754_finite sx m e.
Proof.
  intros Hd He.
  assert (Hn : fexp prec emax (Zdigits2 (Zpos m) + e) - e = 0).
  { unfold Zdigits2. rewrite Hd. unfold fexp, SpecFloat.emin, prec, emax. lia. }
  unfold binary_round_aux, shr_fexp. rewrite Hn. cbn [shr shr_record_of_loc shr_m loc_of_shr_record round_nearest_even].
  rewrite Hn. cbn [shr shr_record_of_loc shr_m].
  replace (e <=? emax - prec) with true; [reflexivity|].
  symmetry. apply Z.leb_le. unfold emax, prec. lia.
Qed.

Lemma iter_shr_1_52 (m : positive) :
  iter_pos shr_1 52 {| shr_m := Zpos (Pos.iter xO m 52); shr_r := false; shr_s := false |}
  = {| shr_m := Zpos m; shr_r := false; shr_s := false |}.
Proof. reflexivity. Qed.

(** Multiplying a normal double by [1.0] returns it. *)
Lemma dmul_gain_1_0 (s : bool) (m : positive) (e : Z) :
  digits2_pos m = 53%positive -> -1074 <= e <= 971 ->
  dmul (S754_finite s m e) gain_1_0 = S754_finite s m e.
Proof.
  intros Hd He. unfold dmul, gain_1_0, SFmul.
  replace (m * 4503599627370496)%positive with (Pos.iter xO m 52)
    by (rewrite Pos.mul_comm; reflexivity).
  assert (Hn : fexp prec emax (Zdigits2 (Zpos (Pos.iter xO m 52)) + (e + -52)) - (e + -52) = 52).
  { unfold Zdigits2. rewrite digits2_pos_iter_xO, Hd.
    unfold fexp, SpecFloat.emin, prec, emax. lia. }
  unfold binary_round_aux at 1. unfold shr_fexp at 1. rewrite Hn.
  cbn [shr shr_record_of_loc]. rewrite iter_shr_1_52.
  cbn [shr_m loc_of_shr_record round_nearest_even].
  assert (Hn' : fexp prec emax (Zdigits2 (Zpos m) + (e + -52 + 52)) - (e + -52 + 52) = 0).
  { unfold Zdigits2. rewrite Hd. unfold fexp, SpecFloat.emin, prec, emax. lia. }
  unfold shr_fexp. rewrite Hn'. cbn [shr shr_record_of_loc shr_m].
  replace (e + -52 + 52) with e by lia.
  replace (e <=? emax - prec) with true
    by (symmetry; apply Z.leb_le; unfold emax, prec; lia).
  destruct s; reflexivity.
Qed.

(** The double of a non-zero integer of fewer than 53 bits. *)
Lemma double_of_int_small (sx : bool) (p : positive) :
  (digits2_pos p < 53)%positive ->
  binary_round prec emax sx p 0
  = S754_finite sx (Pos.iter xO p (53 - digits2_pos p)) (Zneg (53 - digits2_pos p)).
Proof.
  intros Hk. unfold binary_round, shl_align.
  assert (Hf : fexp prec emax (Zpos (digits2_pos p) + 0) = Zneg (53 - digits2_pos p)).
  { unfold fexp, SpecFloat.emin, prec, emax. lia. }
  rewrite Hf. cbn [Z.sub Z.opp Z.add].
  apply binary_round_aux_exact.
  - rewrite digits2_pos_iter_xO. lia.
  - lia.
Qed.

Lemma llround_shifted (sx : bool) (p d : positive) :
  Zpos p <= 2 ^ 63 - 1 ->
  llround (S754_finite sx (Pos.iter xO p d) (Zneg d))
  = Some (if sx then - Zpos p else Zpos p).
Proof.
  intros Hp. unfold llround.
  rewrite Zpos_iter_xO.
  assert (H2 : 0 < 2 ^ Zpos d) by (apply Z.pow_pos_nonneg; lia).
  rewrite Z.div_mul, Z.mod_mul by lia.
  replace (2 ^ Zpos d <=? 2 * 0) with false by (symmetry; apply Z.leb_gt; lia).
  replace (in_int64 (if sx then - Zpos p else Zpos p)) with true; [reflexivity|].
  symmetry. unfold in_int64. destruct sx; apply andb_true_iff; split; apply Z.leb_le; lia.
Qed.

(** Every [int32_t] converts to a double exactly, gain [1.0] leaves it as
    it is, and [llround] gives the integer back. *)
Lemma llround_dmul_gain_1_0 (S : Z) :
  in_int32 S -> llround (dmul (double_of_int S) gain_1_0) = Some S.
Proof.
  unfold in_int32, INT32_MIN, INT32_MAX. intros HS.
  destruct S as [|p|p]; [reflexivity| |].
  - assert (Hk : (digits2_pos p <= 32)%positive) by (apply digits2_pos_bound; lia).
    unfold double_of_int, binary_normalize.
    rewrite double_of_int_small by lia.
    rewrite dmul_gain_1_0 by (try rewrite digits2_pos_iter_xO; lia).
    rewrite llround_shifted by lia. reflexivity.
  - assert (Hk : (digits2_pos p <= 32)%positive) by (apply digits2_pos_bound; lia).
    unfold double_of_int, binary_normalize.
    rewrite double_of_int_small by lia.
    rewrite dmul_gain_1_0 by (try rewrite digits2_pos_iter_xO; lia).
    rewrite llround_shifted by lia. reflexivity.
Qed.

Lemma double_of_int_gain_1_0 (S : Z) :
  in_int32 S -> dmul (double_of_int S) gain_1_0 = double_of_int S.
Proof.
  unfold in_int32, INT32_MIN, INT32_MAX. intros HS.
  destruct S as [|p|p]; [reflexivity| |].
  - assert (Hk : (digits2_pos p <= 32)%positive) by (apply digits2_pos_bound; lia).
    unfold double_of_int, binary_normalize.
    rewrite double_of_int_small by lia.
    apply dmul_gain_1_0; [rewrite digits2_pos_iter_xO|]; lia.
  - assert (Hk : (digits2_pos p <= 32)%positive) by (apply digits2_pos_bound; lia).
    unfold double_of_int, binary_normalize.
    rewrite double_of_int_small by lia.
    apply dmul_gain_1_0; [rewrite digits2_pos_iter_xO|]; lia.
Qed.

Lemma llround_double_of_int (S : Z) :
  in_int32 S -> llround (double_of_int S) = Some S.
Proof.
  intros HS. rewrite <- (double_of_int_gain_1_0 S HS). apply llround_dmul_gain_1_0, HS.
Qed.

Lemma double_INT32_MAX : double_of_int INT32_MAX = S754_finite false 9007199250546688 (-22).
Proof. reflexivity. Qed.

Lemma double_INT32_MIN : double_of_int INT32_MIN = S754_finite true 4503599627370496 (-21).
Proof. reflexivity. Qed.

Lemma not_above_INT32_MAX (S : Z) :
  in_int32 S -> dgt (double_of_int S) (double_of_int INT32_MAX) = false.
Proof.
  unfold in_int32, INT32_MIN. rewrite double_INT32_MAX. unfold INT32_MAX. intros HS.
  destruct S as [|p|p]; [reflexivity| |].
  - assert (Hk : (digits2_pos p <= 31)%positive) by (apply digits2_pos_bound; lia).
    unfold double_of_int, binary_normalize. rewrite double_of_int_small by lia.
    unfold dgt, SFltb, SFcompare.
    destruct (Z.compare (-22) (Zneg (53 - digits2_pos p))) eqn:E.
    + apply Z.compare_eq in E.
      assert (Hd : (53 - digits2_pos p = 22)%positive) by lia.
      rewrite Hd.
      destruct (Pos.compare_cont Eq 9007199250546688 (Pos.iter xO p 22)) eqn:C;
        try reflexivity.
      change (Pos.compare_cont Eq) with Pos.compare in C.
      apply Pos.compare_lt_iff in C.
      assert (C' : Zpos 9007199250546688 < Zpos (Pos.iter xO p 22))
        by exact C.
      rewrite Zpos_iter_xO in C'. change (2 ^ 22) with 4194304 in C'. lia.
    + pose proof (proj1 (Z.compare_lt_iff _ _) E) as E'. lia.
    + reflexivity.
  - unfold double_of_int, binary_normalize.
    assert (Hk : (digits2_pos p <= 32)%positive) by (apply digits2_pos_bound; lia).
    rewrite double_of_int_small by lia. reflexivity.
Qed.

Lemma not_below_INT32_MIN (S : Z) :
  in_int32 S -> dlt (double_of_int S) (double_of_int INT32_MIN) = false.
Proof.
  unfold in_int32, INT32_MAX. rewrite double_INT32_MIN. unfold INT32_MIN. intros HS.
  destruct S as [|p|p]; [reflexivity| |].
  - assert (Hk : (digits2_pos p <= 31)%positive) by (apply digits2_pos_bound; lia).
    unfold double_of_int, binary_normalize. rewrite double_of_int_small by lia.
    reflexivity.
  - assert (Hk : (digits2_pos p <= 32)%positive) by (apply digits2_pos_bound; lia).
    unfold double_of_int, binary_normalize. rewrite double_of_int_small by lia.
    unfold dlt, SFltb, SFcompare.
    destruct (Z.compare (Zneg (53 - digits2_pos p)) (-21)) eqn:E.
    + apply Z.compare_eq in E.
      assert (Hd : (53 - digits2_pos p = 21)%positive) by lia.
      rewrite Hd.
      destruct (Pos.compare_cont Eq (Pos.iter xO p 21) 4503599627370496) eqn:C;
        try reflexivity.
      change (Pos.compare_cont Eq) with Pos.compare in C.
      apply Pos.compare_gt_iff in C.
      assert (C' : Zpos 4503599627370496 < Zpos (Pos.iter xO p 21))
        by exact C.
      rewrite Zpos_iter_xO in C'. change (2 ^ 21) with 2097152 in C'. lia.
    + reflexivity.
    + pose proof (proj1 (Z.compare_gt_iff _ _) E) as E'. lia.
Qed.

(** A product below [INT32_MIN] is not above [INT32_MAX]: the first [if] of
    the sequential clamp leaves it alone. *)
Lemma below_min_not_above_max (x : double) :
  dlt x (double_of_int INT32_MIN) = true -> dgt x (double_of_int INT32_MAX) = false.
Proof.
  rewrite double_INT32_MIN, double_INT32_MAX. unfold dlt, dgt, SFltb, SFcompare.
  destruct x as [s|s| |s m e]; try discriminate.
  - destruct s; [reflexivity|discriminate].
  - destruct s; [reflexivity|discriminate].
Qed.

Lemma in_int32_MAX : in_int32 INT32_MAX.
Proof. unfold in_int32, INT32_MIN, INT32_MAX. lia. Qed.

Lemma in_int32_MIN : in_int32 INT32_MIN.
Proof. unfold in_int32, INT32_MIN, INT32_MAX. lia. Qed.

Lemma to_int32_id (S : Z) : in_int32 S -> to_int32 S = S.
Proof.
  unfold in_int32, INT32_MIN, INT32_MAX, to_int32. intros H.
  change (2 ^ 31) with 2147483648. change (2 ^ 32) with 4294967296.
  rewrite Z.mod_small by lia. lia.
Qed.

(* ================================================================== *)
(** * The sample converter                                           *)
(* ================================================================== *)

Lemma int32_left24_to_3bytes_le_spec (s : Z) :
  Combined.int32_left24_to_3bytes_le s = le_bytes 3 (Z.land (Z.shiftr s 8) 0xFFFFFF).
Proof.
  unfold Combined.int32_left24_to_3bytes_le.
  change 0xFFFFFF with (Z.ones 24) at 1 2 3.
  rewrite land_ones_of_uint32 by lia. apply pack24_spec. lia.
Qed.

Lemma int32_to_24le_bytes_spec (s : Z) :
  Fixed.int32_to_24le_bytes s = le_bytes 3 (Z.land (Z.shiftr s 8) 0xFFFFFF).
Proof. apply int32_left24_to_3bytes_le_spec. Qed.

Lemma int32_to_24_bytes_little_endian_spec (s : Z) :
  Draft.int32_to_24_bytes_little_endian s = le_bytes 3 (Z.land (Z.shiftr s 8) 0xFFFFFF).
Proof.
  unfold Draft.int32_to_24_bytes_little_endian.
  change 0xfffffff with (Z.ones 28).
  rewrite land_ones_of_uint32 by lia. apply pack24_spec. lia.
Qed.

Lemma draft_inline_pack_spec (s : Z) :
  (let scaled_24bit := Z.shiftr s 8 in
   let unsigned_24bit_masked_sound := Z.land (to_uint32 scaled_24bit) 0xFFFFFF in
   [ byte_of_Z (Z.land unsigned_24bit_masked_sound 0xff);
     byte_of_Z (Z.land (to_uint32 (Z.shiftr unsigned_24bit_masked_sound 8)) 0xff);
     byte_of_Z (Z.land (to_uint32 (Z.shiftr unsigned_24bit_masked_sound 16)) 0xff) ])
  = le_bytes 3 (Z.land (Z.shiftr s 8) 0xFFFFFF).
Proof.
  cbv zeta. rewrite <- int32_left24_to_3bytes_le_spec.
  unfold Combined.int32_left24_to_3bytes_le.
  change 0xff with (Z.ones 8). change 0xFF with (Z.ones 8).
  rewrite !land_ones_of_uint32 by lia.
  rewrite !Z.land_ones by lia. reflexivity.
Qed.

Lemma clamp_combined_in_range (S : Z) :
  in_int32 S -> Combined.clamp (double_of_int S) = double_of_int S.
Proof.
  intros HS. unfold Combined.clamp.
  rewrite not_above_INT32_MAX, not_below_INT32_MIN by assumption. reflexivity.
Qed.

Lemma clamp_draft_in_range (S : Z) :
  in_int32 S -> Draft.clamp (double_of_int S) = double_of_int S.
Proof.
  intros HS. unfold Draft.clamp.
  rewrite not_above_INT32_MAX, not_below_INT32_MIN by assumption. reflexivity.
Qed.

Lemma clamp_combined_above (x : double) :
  dgt x (double_of_int INT32_MAX) = true -> Combined.clamp x = double_of_int INT32_MAX.
Proof. intros H. unfold Combined.clamp. rewrite H. reflexivity. Qed.

Lemma clamp_combined_below (x : double) :
  dlt x (double_of_int INT32_MIN) = true -> Combined.clamp x = double_of_int INT32_MIN.
Proof.
  intros H. unfold Combined.clamp.
  rewrite (below_min_not_above_max x H), H. reflexivity.
Qed.

Lemma clamp_draft_above (x : double) :
  dgt x (double_of_int INT32_MAX) = true -> Draft.clamp x = double_of_int INT32_MAX.
Proof. intros H. unfold Draft.clamp. rewrite H. reflexivity. Qed.

Lemma clamp_draft_below (x : double) :
  dlt x (double_of_int INT32_MIN) = true -> Draft.clamp x = double_of_int INT32_MIN.
Proof.
  intros H. unfold Draft.clamp.
  rewrite (below_min_not_above_max x H), H. reflexivity.
Qed.

(** What each converter does once the clamped value is the double of an
    [int32_t]. *)
Lemma convert_sample_of_clamped (s v : Z) (g : double) :
  in_int32 v ->
  (Combined.clamp (dmul (double_of_int s) g) = double_of_int v ->
   Combined.convert_sample s g = Some (le_bytes 3 (Z.land (Z.shiftr v 8) 0xFFFFFF))) /\
  (Fixed.clamp (dmul (double_of_int s) g) = double_of_int v ->
   Fixed.convert_sample s g = Some (le_bytes 3 (Z.land (Z.shiftr v 8) 0xFFFFFF))) /\
  (Draft.clamp (dmul (double_of_int s) g) = double_of_int v ->
   Draft.convert_sample s g = Some (le_bytes 3 (Z.land (Z.shiftr v 8) 0xFFFFFF))).
Proof.
  intros Hv. repeat split; intros Hc.
  - unfold Combined.convert_sample. rewrite Hc, llround_double_of_int, to_int32_id by assumption.
    rewrite int32_left24_to_3bytes_le_spec. reflexivity.
  - unfold Fixed.convert_sample. rewrite Hc, llround_double_of_int, to_int32_id by assumption.
    f_equal. apply int32_left24_to_3bytes_le_spec.
  - unfold Draft.convert_sample. rewrite Hc, llround_double_of_int, to_int32_id by assumption.
    f_equal. apply draft_inline_pack_spec.
Qed.

Lemma clamp_agree (x : double) :
  Fixed.clamp x = Combined.clamp x /\ Draft.clamp x = Combined.clamp x.
Proof.
  split; [reflexivity|].
  unfold Draft.clamp, Combined.clamp.
  destruct (dgt x (double_of_int INT32_MAX)); [|reflexivity].
  replace (dlt (double_of_int INT32_MAX) (double_of_int INT32_MIN)) with false
    by (vm_compute; reflexivity).
  reflexivity.
Qed.

(** The three converters compute the same bytes from every sample and
    gain. *)
Lemma convert_sample_agree (s : Z) (g : double) :
  Fixed.convert_sample s g = Combined.convert_sample s g /\
  Draft.convert_sample s g = Combined.convert_sample s g.
Proof.
  split; [reflexivity|].
  unfold Draft.convert_sample, Combined.convert_sample.
  rewrite (proj2 (clamp_agree _)).
  destruct (llround (Combined.clamp (dmul (double_of_int s) g))) as [r|]; [|reflexivity].
  f_equal. rewrite int32_left24_to_3bytes_le_spec. apply draft_inline_pack_spec.
Qed.

Lemma some_injective (A : Type) (a b : A) : Some a = Some b -> a = b.
Proof. intros H. congruence. Qed.

Lemma length_convert_sample (s : Z) (g : double) (three : list byte) :
  Combined.convert_sample s g = Some three \/
  Fixed.convert_sample s g = Some three \/
  Draft.convert_sample s g = Some three ->
  length three = 3%nat.
Proof.
  intros [H|[H|H]].
  - unfold Combined.convert_sample in H.
    destruct (llround (Combined.clamp (dmul (double_of_int s) g))) as [r|];
      [|discriminate H].
    apply some_injective in H. rewrite <- H. reflexivity.
  - unfold Fixed.convert_sample in H.
    destruct (llround (Fixed.clamp (dmul (double_of_int s) g))) as [r|];
      [|discriminate H].
    apply some_injective in H. rewrite <- H. reflexivity.
  - unfold Draft.convert_sample in H.
    destruct (llround (Draft.clamp (dmul (double_of_int s) g))) as [r|];
      [|discriminate H].
    apply some_injective in H. rewrite <- H. reflexivity.
Qed.

(** C1.  For every 32-bit signed sample [S], converting [S] with gain
    [1.0] clamps nothing and produces exactly the three bytes of
    [(S >> 8) & 0xFFFFFF], least significant byte first, the shift being
    the arithmetic one; this holds for the converters of the three
    receivers and for their pack helpers. *)
Theorem gain_one_packs_shifted_sample (S : Z) :
  in_int32 S ->
  let expected := le_bytes 3 (Z.land (Z.shiftr S 8) 0xFFFFFF) in
  Combined.convert_sample S gain_1_0 = Some expected /\
  Fixed.convert_sample S gain_1_0 = Some expected /\
  Draft.convert_sample S gain_1_0 = Some expected /\
  Combined.clamp (dmul (double_of_int S) gain_1_0) = dmul (double_of_int S) gain_1_0 /\
  Draft.clamp (dmul (double_of_int S) gain_1_0) = dmul (double_of_int S) gain_1_0 /\
  Combined.int32_left24_to_3bytes_le S = expected /\
  Fixed.int32_to_24le_bytes S = expected /\
  Draft.int32_to_24_bytes_little_endian S = expected.
Proof.
  intros HS expected. subst expected.
  pose proof (convert_sample_of_clamped S S gain_1_0 HS) as (Hc & Hf & Hd).
  rewrite (double_of_int_gain_1_0 S HS) in *.
  repeat split.
  - apply Hc, clamp_combined_in_range, HS.
  - apply Hf, clamp_combined_in_range, HS.
  - apply Hd, clamp_draft_in_range, HS.
  - apply clamp_combined_in_range, HS.
  - apply clamp_draft_in_range, HS.
  - apply int32_left24_to_3bytes_le_spec.
  - apply int32_to_24le_bytes_spec.
  - apply int32_to_24_bytes_little_endian_spec.
Qed.

Lemma gain_one_packs_shifted_sample_witness :
  in_int32 (-512) /\
  Combined.convert_sample (-512) gain_1_0 = Some [xfe; xff; xff] /\
  Draft.convert_sample (-512) gain_1_0 = Some [xfe; xff; xff].
Proof.
  assert (H : in_int32 (-512)) by (unfold in_int32, INT32_MIN, INT32_MAX; lia).
  split; [exact H|].
  pose proof (gain_one_packs_shifted_sample (-512) H) as (Hc & _ & Hd & _).
  split; [exact Hc | exact Hd].
Defined.

(** C2.  Whenever the floating-point product of sample and gain exceeds
    [INT32_MAX] (falls below [INT32_MIN]) the converter replaces it by
    [INT32_MAX] ([INT32_MIN]) before rounding and shifting, so the output
    is the 24-bit pack of [INT32_MAX >> 8] ([INT32_MIN >> 8]); sample
    [0x7FFFFFFF] at gain [2.0] is such a case. *)
Theorem clamp_saturates_before_shift (s : Z) (g : double) :
  let product := dmul (double_of_int s) g in
  (dgt product (double_of_int INT32_MAX) = true ->
   Combined.clamp product = double_of_int INT32_MAX /\
   Draft.clamp product = double_of_int INT32_MAX /\
   Combined.convert_sample s g = Some (le_bytes 3 (Z.land (Z.shiftr INT32_MAX 8) 0xFFFFFF)) /\
   Fixed.convert_sample s g = Some (le_bytes 3 (Z.land (Z.shiftr INT32_MAX 8) 0xFFFFFF)) /\
   Draft.convert_sample s g = Some (le_bytes 3 (Z.land (Z.shiftr INT32_MAX 8) 0xFFFFFF))) /\
  (dlt product (double_of_int INT32_MIN) = true ->
   Combined.clamp product = double_of_int INT32_MIN /\
   Draft.clamp product = double_of_int INT32_MIN /\
   Combined.convert_sample s g = Some (le_bytes 3 (Z.land (Z.shiftr INT32_MIN 8) 0xFFFFFF)) /\
   Fixed.convert_sample s g = Some (le_bytes 3 (Z.land (Z.shiftr INT32_MIN 8) 0xFFFFFF)) /\
   Draft.convert_sample s g = Some (le_bytes 3 (Z.land (Z.shiftr INT32_MIN 8) 0xFFFFFF))) /\
  dgt (dmul (double_of_int 0x7FFFFFFF) gain_2_0) (double_of_int INT32_MAX) = true /\
  Combined.convert_sample 0x7FFFFFFF gain_2_0
    = Some (le_bytes 3 (Z.land (Z.shiftr INT32_MAX 8) 0xFFFFFF)) /\
  Draft.convert_sample 0x7FFFFFFF gain_2_0
    = Some (le_bytes 3 (Z.land (Z.shiftr INT32_MAX 8) 0xFFFFFF)).
Proof.
  intros product.
  pose proof (convert_sample_of_clamped s INT32_MAX g in_int32_MAX) as (Hc & Hf & Hd).
  pose proof (convert_sample_of_clamped s INT32_MIN g in_int32_MIN) as (Hc' & Hf' & Hd').
  fold product in Hc, Hf, Hd, Hc', Hf', Hd'.
  split; [|split; [|split; [|split]]].
  - intros H. pose proof (clamp_combined_above product H). pose proof (clamp_draft_above product H).
    auto 8.
  - intros H. pose proof (clamp_combined_below product H). pose proof (clamp_draft_below product H).
    auto 8.
  - reflexivity.
  - reflexivity.
  - reflexivity.
Qed.

Lemma clamp_saturates_before_shift_witness :
  Combined.convert_sample 0x7FFFFFFF gain_2_0 = Some [xff; xff; x7f] /\
  Combined.convert_sample INT32_MIN gain_2_0 = Some [x00; x00; x80].
Proof.
  split.
  - apply (proj1 (clamp_saturates_before_shift 0x7FFFFFFF gain_2_0)). reflexivity.
  - apply (proj1 (proj2 (clamp_saturates_before_shift INT32_MIN gain_2_0))). reflexivity.
Defined.

(* ================================================================== *)
(** * The container writer                                           *)
(* ================================================================== *)

Lemma length_store_inside (c : list byte) (pos : nat) (bs : list byte) :
  (pos + length bs <= length c)%nat -> length (store c pos bs) = length c.
Proof.
  intros H. unfold store.
  rewrite !length_app, length_firstn, repeat_length, length_skipn. lia.
Qed.

Lemma slice_store (c : list byte) (pos : nat) (bs : list byte) :
  slice pos (length bs) (store c pos bs) = bs.
Proof.
  unfold slice, store.
  destruct (Nat.le_gt_cases pos (length c)) as [Hin|Hout].
  - replace (pos - length c)%nat with 0%nat by lia. cbn [repeat app].
    rewrite skipn_app, length_firstn, Nat.min_l by lia.
    rewrite Nat.sub_diag, (skipn_all2 (firstn pos c)) by (rewrite length_firstn; lia).
    cbn [skipn app]. rewrite firstn_app, Nat.sub_diag. cbn [firstn].
    rewrite firstn_all, app_nil_r. reflexivity.
  - rewrite (firstn_all2 (n := pos) c) by lia.
    rewrite app_assoc, skipn_app.
    rewrite (skipn_all2 (c ++ repeat x00 (pos - length c)))
      by (rewrite length_app, repeat_length; lia).
    rewrite length_app, repeat_length.
    replace (pos - (length c + (pos - length c)))%nat with 0%nat by lia.
    cbn [skipn app]. rewrite firstn_app, Nat.sub_diag. cbn [firstn].
    rewrite firstn_all, app_nil_r. reflexivity.
Qed.

Lemma nth_error_store_outside (c : list byte) (pos : nat) (bs : list byte) (i : nat) :
  (pos + length bs <= length c)%nat ->
  (i < pos \/ pos + length bs <= i)%nat ->
  nth_error (store c pos bs) i = nth_error c i.
Proof.
  intros Hin Hi. unfold store.
  replace (pos - length c)%nat with 0%nat by lia. cbn [repeat app].
  destruct Hi as [Hlo|Hhi].
  - rewrite nth_error_app1 by (rewrite length_firstn; lia).
    rewrite nth_error_firstn.
    replace (i <? pos)%nat with true by (symmetry; apply Nat.ltb_lt; lia). reflexivity.
  - rewrite nth_error_app2 by (rewrite length_firstn; lia).
    rewrite length_firstn, Nat.min_l by lia.
    rewrite nth_error_app2 by lia.
    rewrite nth_error_skipn. f_equal. lia.
Qed.

Lemma slice_store_other (c : list byte) (pos : nat) (bs : list byte) (off len : nat) :
  (pos + length bs <= length c)%nat ->
  (off + len <= pos \/ pos + length bs <= off)%nat ->
  slice off len (store c pos bs) = slice off len c.
Proof.
  intros Hin Hoff. unfold slice.
  apply nth_error_ext. intros i.
  destruct (Nat.lt_ge_cases i len) as [Hlt|Hge].
  - rewrite !nth_error_firstn. 
    replace (i <? len)%nat with true by (symmetry; apply Nat.ltb_lt; lia).
    rewrite !nth_error_skipn. apply nth_error_store_outside; lia.
  - rewrite !nth_error_firstn.
    replace (i <? len)%nat with false by (symmetry; apply Nat.ltb_ge; lia).
    reflexivity.
Qed.

Lemma write_u32_le_complete (v : Z) (f : FILE) :
  (4 <= space f)%nat ->
  Combined.write_u32_le v f
  = {| content := store (content f) (position f) (le_bytes 4 v);
       position := position f + 4;
       space := space f - 4 |}.
Proof.
  intros H. unfold Combined.write_u32_le. rewrite u32_bytes_spec.
  unfold fwrite_, fwrite. rewrite firstn_all2 by (rewrite length_le_bytes; lia).
  cbn [le_bytes length snd]. reflexivity.
Qed.

Lemma finalize_wav_header_content (f : FILE) (N channels sample_rate : Z) :
  (8 <= space f)%nat ->
  content (Combined.finalize_wav_header f N channels sample_rate)
  = store (store (content f) 4
             (le_bytes 4 (to_uint32 (4 + (8 + 16)
                + to_uint32 (8 + to_uint32 (to_uint32 (N * channels) * OUT_BYTES_PER_SAMPLE))))))
      40 (le_bytes 4 (to_uint32 (to_uint32 (N * channels) * OUT_BYTES_PER_SAMPLE))).
Proof.
  intros H. unfold Combined.finalize_wav_header.
  rewrite (write_u32_le_complete _ (fseek_set 4 f)) by (cbn [space fseek_set]; lia).
  rewrite write_u32_le_complete by (cbn [space fseek_set]; lia).
  reflexivity.
Qed.

Lemma size_fields_mod (N : Z) :
  to_uint32 (to_uint32 (N * 1) * OUT_BYTES_PER_SAMPLE) = (N * 3) mod 2 ^ 32 /\
  to_uint32 (4 + (8 + 16) + to_uint32 (8 + to_uint32 (to_uint32 (N * 1) * OUT_BYTES_PER_SAMPLE)))
  = (4 + (8 + 16) + (8 + N * 3)) mod 2 ^ 32.
Proof.
  unfold to_uint32, OUT_BYTES_PER_SAMPLE. rewrite Z.mul_1_r.
  rewrite Z.mul_mod_idemp_l by discriminate.
  split; [reflexivity|].
  rewrite Z.add_mod_idemp_r by discriminate.
  rewrite (Z.add_assoc _ 8), Z.add_mod_idemp_r by discriminate.
  rewrite <- Z.add_assoc. reflexivity.
Qed.

(** C3, amended.  The finalize step patches exactly two header fields of
    the output file: the 32-bit little-endian value at offset 4 becomes
    [4 + (8+16) + (8 + N*3)] reduced modulo [2^32] and the one at offset 40
    becomes [N*3] reduced modulo [2^32]; every other byte and the length of
    the file stay.  The two values are [4 + (8+16) + (8 + N*3)] and [N*3]
    themselves as long as [N <= 1431655753]. *)
Theorem finalize_patches_two_size_fields (f : FILE) (N : Z) :
  in_uint32 N ->
  (8 <= space f)%nat ->
  (44 <= length (content f))%nat ->
  let before := content f in
  let after :=
    content (Combined.finalize_wav_header f N
               Combined.EXPECTED_CHANNEL_COUNT Combined.EXPECTED_SAMPLE_RATE) in
  le_value (slice 4 4 after) = (4 + (8 + 16) + (8 + N * 3)) mod 2 ^ 32 /\
  le_value (slice 40 4 after) = (N * 3) mod 2 ^ 32 /\
  length after = length before /\
  (forall i, (i < 4 \/ 8 <= i < 40 \/ 44 <= i)%nat ->
             nth_error after i = nth_error before i) /\
  (N <= 1431655753 ->
   le_value (slice 4 4 after) = 4 + (8 + 16) + (8 + N * 3) /\
   le_value (slice 40 4 after) = N * 3).
Proof.
  intros HN Hspace Hlen before after.
  assert (Hafter : after
    = store (store before 4 (le_bytes 4 ((4 + (8 + 16) + (8 + N * 3)) mod 2 ^ 32)))
        40 (le_bytes 4 ((N * 3) mod 2 ^ 32))).
  { subst after before. rewrite finalize_wav_header_content by exact Hspace.
    unfold Combined.EXPECTED_CHANNEL_COUNT.
    destruct (size_fields_mod N) as [-> ->]. reflexivity. }
  assert (Hlen1 : length (store before 4 (le_bytes 4 ((4 + (8 + 16) + (8 + N * 3)) mod 2 ^ 32)))
                  = length before).
  { apply length_store_inside. rewrite length_le_bytes. subst before. lia. }
  assert (H4 : le_value (slice 4 4 after) = (4 + (8 + 16) + (8 + N * 3)) mod 2 ^ 32).
  { rewrite Hafter, slice_store_other by (rewrite ?length_le_bytes, ?Hlen1; subst before; lia).
    rewrite <- (length_le_bytes 4 ((4 + (8 + 16) + (8 + N * 3)) mod 2 ^ 32)) at 2.
    rewrite slice_store, le_value_le_bytes.
    change (256 ^ Z.of_nat 4) with (2 ^ 32). apply Z.mod_mod. discriminate. }
  assert (H40 : le_value (slice 40 4 after) = (N * 3) mod 2 ^ 32).
  { rewrite Hafter.
    rewrite <- (length_le_bytes 4 ((N * 3) mod 2 ^ 32)) at 2.
    rewrite slice_store, le_value_le_bytes.
    change (256 ^ Z.of_nat 4) with (2 ^ 32). apply Z.mod_mod. discriminate. }
  split; [exact H4|]. split; [exact H40|]. split; [|split].
  - rewrite Hafter, length_store_inside by (rewrite length_le_bytes, Hlen1; subst before; lia).
    exact Hlen1.
  - intros i Hi. rewrite Hafter.
    rewrite nth_error_store_outside
      by (rewrite ?length_le_bytes, ?Hlen1; subst before; lia).
    apply nth_error_store_outside; rewrite length_le_bytes; subst before; lia.
  - intros Hsmall. rewrite H4, H40. unfold in_uint32 in HN.
    change (2 ^ 32) with 4294967296 in *.
    rewrite !Z.mod_small by lia. split; reflexivity.
Qed.

Lemma finalize_patches_two_size_fields_witness :
  le_value (slice 4 4 (content (Combined.finalize_wav_header (fopen_rb header_only_file) 2
             Combined.EXPECTED_CHANNEL_COUNT Combined.EXPECTED_SAMPLE_RATE))) = 42 /\
  le_value (slice 40 4 (content (Combined.finalize_wav_header (fopen_rb header_only_file) 2
             Combined.EXPECTED_CHANNEL_COUNT Combined.EXPECTED_SAMPLE_RATE))) = 6.
Proof.
  assert (HN : in_uint32 2) by (unfold in_uint32; lia).
  assert (Hs : (8 <= space (fopen_rb header_only_file))%nat) by (vm_compute; lia).
  assert (Hl : (44 <= length (content (fopen_rb header_only_file)))%nat) by (vm_compute; lia).
  pose proof (finalize_patches_two_size_fields (fopen_rb header_only_file) 2 HN Hs Hl)
    as (_ & _ & _ & _ & Hexact).
  apply Hexact. lia.
Defined.

(** C3 as stated fails once [N*3] no longer fits 32 bits: after
    1431655766 samples (less than nine hours at 48 kHz) the data size
    field holds 2 and the overall size field holds 38. *)
Lemma finalize_size_fields_wrap :
  let after := content (Combined.finalize_wav_header (fopen_rb header_only_file) 1431655766
                          Combined.EXPECTED_CHANNEL_COUNT Combined.EXPECTED_SAMPLE_RATE) in
  le_value (slice 40 4 after) = 2 /\
  le_value (slice 40 4 after) <> 1431655766 * 3 /\
  le_value (slice 4 4 after) = 38 /\
  le_value (slice 4 4 after) <> 4 + (8 + 16) + (8 + 1431655766 * 3).
Proof. vm_compute. repeat split; discriminate. Qed.

Lemma finalize_on_exit_spec (w : world) :
  output_wav_file (Combined.finalize_on_exit w)
  = Combined.finalize_wav_header (fopen_rb (output_wav_file w))
      (to_uint32 (global_total_samples_written_count w))
      Combined.EXPECTED_CHANNEL_COUNT Combined.EXPECTED_SAMPLE_RATE.
Proof. reflexivity. Qed.

(* ================================================================== *)
(** * Receiving exactly n bytes                                      *)
(* ================================================================== *)

Lemma delivers_0 (sock : socket) : delivers sock 0 = true.
Proof. destruct sock; reflexivity. Qed.

Lemma recv_all_loop_done (fuel : nat) (sock : socket) (required : nat) (received : list byte) :
  (required <= length received)%nat ->
  Combined.recv_all_loop fuel sock required received = Some (true, received, sock).
Proof.
  intros H. destruct fuel; cbn [Combined.recv_all_loop];
    (replace (length received <? required)%nat with false
       by (symmetry; apply Nat.ltb_ge; lia)); reflexivity.
Qed.

Lemma socket_data_after_chunk (n : nat) (bs : list byte) (rest : socket) :
  socket_data (after_chunk n bs rest) = skipn n bs ++ socket_data rest.
Proof.
  unfold after_chunk. destruct (skipn n bs); reflexivity.
Qed.

Lemma recv_all_loop_chunk (fuel : nat) (b : byte) (bs' : list byte) (rest : socket)
    (required : nat) (received : list byte) :
  (length received < required)%nat ->
  Combined.recv_all_loop (S fuel) (Chunk (b :: bs') :: rest) required received
  = Combined.recv_all_loop fuel
      (after_chunk (required - length received) (b :: bs') rest) required
      (received ++ firstn (required - length received) (b :: bs')).
Proof.
  intros H. cbn [Combined.recv_all_loop].
  replace (length received <? required)%nat with true by (symmetry; apply Nat.ltb_lt; lia).
  cbn [recv]. destruct (required - length received)%nat as [|k] eqn:E; [lia|].
  reflexivity.
Qed.

Lemma recv_all_loop_spec (fuel : nat) :
  forall (sock : socket) (required : nat) (received : list byte),
    (length received <= required)%nat ->
    (required - length received + length sock < fuel)%nat ->
    exists buf sock',
      Combined.recv_all_loop fuel sock required received
      = Some (delivers sock (required - length received), buf, sock') /\
      (delivers sock (required - length received) = true ->
       buf = received ++ firstn (required - length received) (socket_data sock) /\
       socket_data sock
       = firstn (required - length received) (socket_data sock) ++ socket_data sock' /\
       length buf = required).
Proof.
  induction fuel as [|fuel IH]; intros sock required received Hle Hfuel; [lia|].
  destruct (Nat.lt_ge_cases (length received) required) as [Hlt|Hge].
  2:{ rewrite recv_all_loop_done by lia.
      replace (required - length received)%nat with 0%nat by lia.
      rewrite delivers_0. exists received, sock. split; [reflexivity|]. intros _.
      cbn [firstn]. rewrite app_nil_r. repeat split. lia. }
  destruct sock as [|[bs| |] rest].
  - (* the peer has closed *)
    exists received, []. cbn [Combined.recv_all_loop recv].
    replace (length received <? required)%nat with true by (symmetry; apply Nat.ltb_lt; lia).
    destruct (required - length received)%nat eqn:E; [lia|]. cbn [delivers].
    split; [reflexivity|discriminate].
  - destruct bs as [|b bs'].
    + (* recv returns 0 *)
      exists received, rest. cbn [Combined.recv_all_loop recv].
      replace (length received <? required)%nat with true
        by (symmetry; apply Nat.ltb_lt; lia).
      destruct (required - length received)%nat eqn:E; [lia|]. cbn [delivers firstn].
      split; [reflexivity|discriminate].
    + rewrite recv_all_loop_chunk by lia.
      set (need := (required - length received)%nat) in *.
      set (bs := b :: bs') in *.
      assert (Hdel : delivers (Chunk bs :: rest) need
                     = (need <=? length bs)%nat || delivers rest (need - length bs)).
      { subst bs. destruct need eqn:E; [subst need; lia|]. reflexivity. }
      rewrite Hdel. cbn [socket_data flat_map]. fold (socket_data rest).
      destruct (Nat.leb_spec need (length bs)) as [Hfit|Hmore].
      * (* the chunk holds what is still needed *)
        rewrite recv_all_loop_done by (rewrite length_app, length_firstn; lia).
        eexists _, _. split; [reflexivity|]. intros _.
        rewrite socket_data_after_chunk, firstn_app.
        replace (need - length bs)%nat with 0%nat by lia.
        cbn [firstn]. rewrite app_nil_r.
        repeat split.
        -- rewrite app_assoc, firstn_skipn. reflexivity.
        -- rewrite length_app, length_firstn. lia.
      * (* the whole chunk is taken and more is needed *)
        assert (Hall : firstn need bs = bs) by (apply firstn_all2; lia).
        assert (Hnone : after_chunk need bs rest = rest).
        { unfold after_chunk. rewrite skipn_all2 by lia. reflexivity. }
        rewrite Hall, Hnone.
        specialize (IH rest required (received ++ bs)).
        rewrite length_app in IH.
        replace (required - (length received + length bs))%nat
          with (need - length bs)%nat in IH by lia.
        destruct IH as (buf & sock' & Hrun & Hok);
          [lia | cbn [length] in Hfuel; lia |].
        exists buf, sock'. cbn [orb]. split; [exact Hrun|].
        intros Hd. destruct (Hok Hd) as (Hbuf & Hdata & Hlen).
        rewrite firstn_app, (firstn_all2 (n := need) bs) by lia.
        repeat split.
        -- rewrite Hbuf, <- app_assoc. reflexivity.
        -- rewrite <- app_assoc. f_equal. exact Hdata.
        -- exact Hlen.
  - (* EINTR: the call is made again *)
    cbn [Combined.recv_all_loop recv].
    replace (length received <? required)%nat with true by (symmetry; apply Nat.ltb_lt; lia).
    assert (Hdel : delivers (Eintr :: rest) (required - length received)
                   = delivers rest (required - length received)).
    { destruct (required - length received)%nat eqn:E; [lia|]. reflexivity. }
    rewrite Hdel. cbn [socket_data flat_map app]. fold (socket_data rest).
    apply IH; [exact Hle|]. cbn [length] in Hfuel. lia.
  - (* recv fails *)
    exists received, rest. cbn [Combined.recv_all_loop recv].
    replace (length received <? required)%nat with true by (symmetry; apply Nat.ltb_lt; lia).
    destruct (required - length received)%nat eqn:E; [lia|]. cbn [delivers].
    split; [reflexivity|discriminate].
Qed.

(** [recv_all] always returns; it returns [true] exactly when the stream
    delivers the bytes, and then the buffer holds the next [n] bytes of the
    stream and nothing more was taken from the socket. *)
Lemma recv_all_spec (sock : socket) (n : nat) :
  exists buf sock',
    Combined.recv_all sock n = Some (delivers sock n, buf, sock') /\
    (delivers sock n = true ->
     buf = firstn n (socket_data sock) /\
     socket_data sock = buf ++ socket_data sock' /\
     length buf = n).
Proof.
  unfold Combined.recv_all.
  destruct (recv_all_loop_spec (S (n + length sock)) sock n []) as (buf & sock' & Hrun & Hok).
  - cbn. lia.
  - cbn [length]. lia.
  - cbn [length] in Hrun, Hok. rewrite Nat.sub_0_r in Hrun, Hok.
    exists buf, sock'. split; [exact Hrun|].
    intros Hd. destruct (Hok Hd) as (Hbuf & Hdata & Hlen). cbn [app] in Hbuf.
    subst buf. repeat split; assumption.
Qed.

Lemma recv_all_returns (sock : socket) (n : nat) : Combined.recv_all sock n <> None.
Proof.
  destruct (recv_all_spec sock n) as (buf & sock' & Hrun & _). rewrite Hrun. discriminate.
Qed.

Lemma socket_bytes_data (sock : socket) : socket_bytes sock = length (socket_data sock).
Proof.
  induction sock as [|[bs| |] rest IH]; cbn [socket_bytes socket_data fold_right flat_map].
  - reflexivity.
  - rewrite length_app. fold (socket_bytes rest). fold (socket_data rest). rewrite IH.
    reflexivity.
  - exact IH.
  - exact IH.
Qed.

Lemma recv_all_consumes (sock sock' : socket) (n : nat) (ok : bool) (buf : list byte) :
  Combined.recv_all sock n = Some (ok, buf, sock') ->
  ok = true -> (socket_bytes sock' + n = socket_bytes sock)%nat.
Proof.
  intros H Hok. subst ok.
  destruct (recv_all_spec sock n) as (buf0 & sock0 & Hrun & Hspec).
  rewrite H in Hrun. injection Hrun as Hd Hb Hs. subst buf0 sock0.
  destruct (Hspec (eq_sym Hd)) as (_ & Hdata & Hlen).
  rewrite !socket_bytes_data, Hdata, length_app. lia.
Qed.

Lemma header_received (client client' : socket) (header : list byte) :
  Combined.recv_all client HEADER_SIZE = Some (true, header, client') ->
  length header = 34%nat /\ socket_data client = header ++ socket_data client'.
Proof.
  intros H. destruct (recv_all_spec client HEADER_SIZE) as (buf & sock' & Hrun & Hok).
  rewrite H in Hrun. injection Hrun as Hd Hb Hs. subst buf sock'.
  destruct (Hok (eq_sym Hd)) as (_ & Hdata & Hlen). split; assumption.
Qed.

Lemma store_nothing (buffer : list byte) : store buffer 0 [] = buffer.
Proof. reflexivity. Qed.

(** [recive_full] never reports success for a request of at least one
    byte. *)
Lemma recive_full_never_true (fuel : nat) :
  forall (sock : socket) (buffer : list byte) (required : nat),
    (0 < required)%nat ->
    forall buf sock', Draft.recive_full fuel sock buffer 0 required <> Some (true, buf, sock').
Proof.
  induction fuel as [|fuel IH]; intros sock buffer required Hreq buf sock'.
  - cbn [Draft.recive_full].
    replace (0 <? required)%nat with true by (symmetry; apply Nat.ltb_lt; lia).
    discriminate.
  - cbn [Draft.recive_full].
    replace (0 <? required)%nat with true by (symmetry; apply Nat.ltb_lt; lia).
    destruct (recv sock (required - 0)) as [[r| |] sock1].
    + apply IH. exact Hreq.
    + apply IH. exact Hreq.
    + discriminate.
Qed.

(** Once the peer has closed, [recive_full] spins. *)
Lemma recive_full_closed_peer (fuel : nat) :
  forall (buffer : list byte) (required : nat),
    (0 < required)%nat -> Draft.recive_full fuel [] buffer 0 required = None.
Proof.
  induction fuel as [|fuel IH]; intros buffer required Hreq.
  - cbn [Draft.recive_full].
    replace (0 <? required)%nat with true by (symmetry; apply Nat.ltb_lt; lia).
    reflexivity.
  - cbn [Draft.recive_full recv].
    replace (0 <? required)%nat with true by (symmetry; apply Nat.ltb_lt; lia).
    rewrite store_nothing. apply IH. exact Hreq.
Qed.

(** C9 on the draft receiver.  A peer sends the 34 bytes of a header in
    one piece and closes: [recive_full] does not return, however long it
    runs, where [recv_all] returns [true] with the 34 bytes. *)
Theorem recive_full_does_not_return :
  (forall fuel : nat,
     Draft.recive_full fuel [Chunk one_frame_header] zero_header 0 HEADER_SIZE = None) /\
  Combined.recv_all [Chunk one_frame_header] HEADER_SIZE = Some (true, one_frame_header, []) /\
  Fixed.recv_all [Chunk one_frame_header] HEADER_SIZE = Some (true, one_frame_header, []).
Proof.
  split; [|split; reflexivity].
  intros [|fuel]; [reflexivity|].
  cbn [Draft.recive_full]. change (0 <? HEADER_SIZE)%nat with true. cbv iota.
  change (recv [Chunk one_frame_header] (HEADER_SIZE - 0))
    with (Received one_frame_header, @nil recv_event).
  cbv iota. apply recive_full_closed_peer. unfold HEADER_SIZE. lia.
Qed.

(* ================================================================== *)
(** * The packet codec                                               *)
(* ================================================================== *)

Ltac destruct_34 header H :=
  do 34 (destruct header as [|? header]; [discriminate H|]);
  destruct header; [clear H|discriminate H].

(** The combined receiver reads every header field little-endian from its
    place in the wire layout. *)
Lemma combined_parse_header_spec (header : list byte) :
  length header = 34%nat ->
  let h := Combined.parse_header header in
  magic h = le_value (slice 0 4 header) /\
  sequence_number h = le_value (slice 4 4 header) /\
  first_sample_index h = le_value (slice 8 8 header) /\
  timestamp_microseconds h = le_value (slice 16 8 header) /\
  frames_in_packet h = le_value (slice 24 2 header) /\
  channels_in_packet h = le_value (slice 26 1 header) /\
  bytes_per_sample_in_packet h = le_value (slice 27 1 header) /\
  sample_rate_in_packet h = le_value (slice 28 4 header) /\
  format_id_in_packet h = le_value (slice 32 2 header).
Proof.
  intros H. destruct_34 header H.
  cbv zeta. unfold Combined.parse_header.
  cbn [magic sequence_number first_sample_index timestamp_microseconds frames_in_packet
       channels_in_packet bytes_per_sample_in_packet sample_rate_in_packet
       format_id_in_packet slice skipn firstn].
  unfold hb. cbn [nth].
  rewrite !le_value_4, !le_value_2.
  repeat split; try (cbn [le_value]; lia).
  - apply (le_value_8 b7 b8 b9 b10 b11 b12 b13 b14 [b; b0; b1; b2; b3; b4; b5; b6]).
  - apply (le_value_8 b15 b16 b17 b18 b19 b20 b21 b22
             [b; b0; b1; b2; b3; b4; b5; b6; b7; b8; b9; b10; b11; b12; b13; b14]).
Qed.

(** The draft reads the magic, the sample index, the frame count, the
    channel count, the sample width, the rate and the format as the wire
    layout has them. *)
Lemma draft_parse_header_spec (header : list byte) :
  length header = 34%nat ->
  let h := Draft.parse_header header in
  magic h = le_value (slice 0 4 header) /\
  first_sample_index h = le_value (slice 8 8 header) /\
  frames_in_packet h = le_value (slice 24 2 header) /\
  channels_in_packet h = le_value (slice 26 1 header) /\
  bytes_per_sample_in_packet h = le_value (slice 27 1 header) /\
  sample_rate_in_packet h = le_value (slice 28 4 header) /\
  format_id_in_packet h = le_value (slice 32 2 header).
Proof.
  intros H.
  pose proof (combined_parse_header_spec header H) as (Hm & _ & Hf & _ & Hfr & Hc & Hb & Hr & Hfo).
  cbv zeta. rewrite <- Hm, <- Hf, <- Hfr, <- Hc, <- Hb, <- Hr, <- Hfo.
  unfold Draft.parse_header, Combined.parse_header.
  cbn [magic first_sample_index frames_in_packet channels_in_packet
       bytes_per_sample_in_packet sample_rate_in_packet format_id_in_packet].
  rewrite Z.lor_assoc. repeat split.
Qed.

(** The draft reads its timestamp from the bytes of the first sample
    index, whatever the header. *)
Lemma draft_timestamp_is_sample_index (header : list byte) :
  timestamp_microseconds (Draft.parse_header header)
  = first_sample_index (Draft.parse_header header).
Proof. reflexivity. Qed.

(** C5.  For every 34-byte header the combined and the fixed receiver
    take the sequence number from bytes 4 to 7, the first sample index
    from bytes 8 to 15 and the timestamp from bytes 16 to 23, each of them
    least significant byte first: byte [i] of a field has weight
    [256 ^ i]. *)
Theorem header_fields_are_read_little_endian (header : list byte) :
  length header = 34%nat ->
  let byte_ (i : nat) := byte_to_Z (nth i header x00) in
  sequence_number (Combined.parse_header header) = le_value (slice 4 4 header) /\
  first_sample_index (Combined.parse_header header) = le_value (slice 8 8 header) /\
  timestamp_microseconds (Combined.parse_header header) = le_value (slice 16 8 header) /\
  sequence_number (Fixed.parse_header header) = le_value (slice 4 4 header) /\
  first_sample_index (Fixed.parse_header header) = le_value (slice 8 8 header) /\
  timestamp_microseconds (Fixed.parse_header header) = le_value (slice 16 8 header) /\
  le_value (slice 4 4 header)
  = byte_ 4%nat + 256 * byte_ 5%nat + 256 ^ 2 * byte_ 6%nat + 256 ^ 3 * byte_ 7%nat /\
  le_value (slice 8 8 header)
  = byte_ 8%nat + 256 * byte_ 9%nat + 256 ^ 2 * byte_ 10%nat + 256 ^ 3 * byte_ 11%nat
    + 256 ^ 4 * byte_ 12%nat + 256 ^ 5 * byte_ 13%nat + 256 ^ 6 * byte_ 14%nat + 256 ^ 7 * byte_ 15%nat /\
  le_value (slice 16 8 header)
  = byte_ 16%nat + 256 * byte_ 17%nat + 256 ^ 2 * byte_ 18%nat + 256 ^ 3 * byte_ 19%nat
    + 256 ^ 4 * byte_ 20%nat + 256 ^ 5 * byte_ 21%nat + 256 ^ 6 * byte_ 22%nat + 256 ^ 7 * byte_ 23%nat.
Proof.
  intros H byte_.
  pose proof (combined_parse_header_spec header H) as (_ & Hs & Hf & Ht & _).
  unfold Fixed.parse_header. rewrite Hs, Hf, Ht.
  do 6 (split; [reflexivity|]).
  subst byte_. destruct_34 header H.
  unfold slice. cbn [skipn firstn nth le_value].
  repeat split; lia.
Qed.

Lemma header_fields_are_read_little_endian_witness :
  sequence_number (Combined.parse_header sequence_65536_header)
  = le_value (slice 4 4 sequence_65536_header) /\
  le_value (slice 4 4 sequence_65536_header) = 0x10000 /\
  timestamp_microseconds (Fixed.parse_header sequence_65536_header)
  = le_value (slice 16 8 sequence_65536_header) /\
  le_value (slice 16 8 sequence_65536_header) = 1.
Proof.
  destruct (header_fields_are_read_little_endian sequence_65536_header)
    as (Hs & _ & _ & _ & _ & Ht & _).
  - reflexivity.
  - split; [exact Hs|]. split; [reflexivity|]. split; [exact Ht|reflexivity].
Defined.

Lemma frames_range (header : list byte) :
  0 <= frames_in_packet (Combined.parse_header header) < 65536.
Proof.
  unfold Combined.parse_header. cbn [frames_in_packet]. unfold to_uint16.
  change (2 ^ 16) with 65536. apply Z.mod_pos_bound. lia.
Qed.

Lemma payload_bytes_exact (frames channels bytes_per_sample : Z) :
  0 <= frames < 65536 -> 0 <= channels < 256 -> 0 <= bytes_per_sample < 256 ->
  to_size_t (to_size_t (frames * channels) * bytes_per_sample)
  = frames * channels * bytes_per_sample.
Proof.
  intros Hf Hc Hb. unfold to_size_t, to_uint64.
  change (2 ^ 64) with 18446744073709551616.
  assert (Hp : 0 <= frames * channels < 65536 * 256) by nia.
  rewrite (Z.mod_small (frames * channels)) by lia.
  apply Z.mod_small. revert Hp. generalize (frames * channels). intros p Hp. nia.
Qed.

(** No header makes the payload size wrap: it is the product of the three
    fields. *)
Lemma payload_bytes_of_spec (header : list byte) :
  let frames := le_value (slice 24 2 header) in
  let channels := le_value (slice 26 1 header) in
  let bytes_per_sample := le_value (slice 27 1 header) in
  length header = 34%nat ->
  Combined.payload_bytes_of (Combined.parse_header header)
  = frames * channels * bytes_per_sample /\
  Fixed.payload_bytes_of (Fixed.parse_header header)
  = frames * channels * bytes_per_sample /\
  Draft.payload_bytes_of (Draft.parse_header header)
  = frames * channels * bytes_per_sample.
Proof.
  intros frames channels bytes_per_sample H.
  pose proof (combined_parse_header_spec header H) as (_ & _ & _ & _ & Hfr & Hc & Hb & _).
  pose proof (draft_parse_header_spec header H) as (_ & _ & Hfr' & Hc' & Hb' & _).
  pose proof (frames_range header) as Rf.
  assert (Rc : 0 <= channels_in_packet (Combined.parse_header header) < 256)
    by apply byte_to_Z_range.
  assert (Rb : 0 <= bytes_per_sample_in_packet (Combined.parse_header header) < 256)
    by apply byte_to_Z_range.
  unfold Combined.payload_bytes_of, Fixed.payload_bytes_of, Draft.payload_bytes_of,
    Fixed.parse_header.
  rewrite Hfr', Hc', Hb'. rewrite Hfr, Hc, Hb in *.
  fold frames channels bytes_per_sample in Rf, Rc, Rb |- *.
  rewrite payload_bytes_exact by assumption. repeat split.
Qed.

Lemma frame_guard_passes (header : list byte) :
  Combined.payload_bytes_of (Combined.parse_header header) <> 0 ->
  Combined.suspicious_number_of_frames (Combined.parse_header header) = false.
Proof.
  intros Hp. pose proof (frames_range header) as Hf.
  unfold Combined.suspicious_number_of_frames.
  destruct (Z.eqb_spec (frames_in_packet (Combined.parse_header header)) 0) as [E|E].
  - exfalso. apply Hp. unfold Combined.payload_bytes_of. rewrite E. reflexivity.
  - cbn [orb]. apply Z.ltb_ge. change Combined.MAX_FRAMES_LIMIT with 65536. lia.
Qed.

(** C8 on the combined receiver.  The guard on the frame count rejects no
    header: a frame count is a 16-bit value, so it never exceeds the limit
    of [1 << 16], and a frame count of 0 has already been skipped as an
    empty payload.  The largest frame count, 65535, passes the guard and
    asks for 262140 payload bytes. *)
Theorem frame_limit_rejects_nothing :
  (forall header : list byte,
     Combined.payload_bytes_of (Combined.parse_header header) = 0 \/
     Combined.suspicious_number_of_frames (Combined.parse_header header) = false) /\
  frames_in_packet (Combined.parse_header most_frames_header) = 65535 /\
  Combined.suspicious_number_of_frames (Combined.parse_header most_frames_header) = false /\
  Combined.payload_bytes_of (Combined.parse_header most_frames_header) = 262140.
Proof.
  split; [|vm_compute; repeat split].
  intros header. pose proof (frames_range header) as Hf.
  unfold Combined.suspicious_number_of_frames, Combined.payload_bytes_of.
  destruct (Z.eqb_spec (frames_in_packet (Combined.parse_header header)) 0) as [E|E].
  - left. rewrite E. reflexivity.
  - right. cbn [orb]. apply Z.ltb_ge. change Combined.MAX_FRAMES_LIMIT with 65536. lia.
Qed.

(* ================================================================== *)
(** * The conversion loop                                            *)
(* ================================================================== *)

Lemma four_bytes_at (buffer : list byte) (base : nat) :
  match byte_at buffer (base + 0), byte_at buffer (base + 1),
        byte_at buffer (base + 2), byte_at buffer (base + 3) with
  | Some p0, Some p1, Some p2, Some p3 =>
      Some (to_int32 (Z.lor (Z.lor (Z.lor p0 (to_uint32 (Z.shiftl p1 8)))
                                   (to_uint32 (Z.shiftl p2 16)))
                            (to_uint32 (Z.shiftl p3 24))))
  | _, _, _, _ => None
  end
  = match slice base 4 buffer with
    | [b0; b1; b2; b3] => Some (to_int32 (le_value [b0; b1; b2; b3]))
    | _ => None
    end.
Proof.
  unfold byte_at, slice. rewrite <- !nth_error_skipn.
  destruct (skipn base buffer) as [|b0 [|b1 [|b2 [|b3 rest]]]]; try reflexivity.
  cbn [nth_error option_map firstn]. rewrite le_value_4. reflexivity.
Qed.

Lemma le_bytes_to_int32_wire (payload : list byte) (k : nat) :
  Combined.le_bytes_to_int32 payload (4 * k) = wire_sample payload k.
Proof.
  unfold Combined.le_bytes_to_int32, wire_sample.
  rewrite <- four_bytes_at, Nat.add_0_r. reflexivity.
Qed.

Lemma sample_at_wire (payload : list byte) (k : nat) :
  Fixed.sample_at payload (4 * k) = wire_sample payload k /\
  Draft.sample_at payload (4 * k) = wire_sample payload k.
Proof.
  unfold Fixed.sample_at, Draft.sample_at, wire_sample.
  rewrite <- four_bytes_at. split; reflexivity.
Qed.

(** The conversion loop of the combined receiver, for samples of four
    bytes: frame [i] contributes the conversion of sample [i * channels],
    the first channel of the frame. *)
Lemma combined_convert_frames_spec (payload : list byte) (h : packet_header) (g : double) :
  bytes_per_sample_in_packet h = 4 ->
  0 <= channels_in_packet h < 256 ->
  forall (indices : list nat) (output result : list byte),
    Forall (fun i => Z.of_nat i < 65536) indices ->
    Combined.convert_frames indices payload h g output = Some result ->
    exists groups : list (list byte),
      result = output ++ concat groups /\
      length result = (length output + 3 * length indices)%nat /\
      Forall2 (fun i three =>
                 exists s, wire_sample payload (i * Z.to_nat (channels_in_packet h)) = Some s /\
                           Combined.convert_sample s g = Some three)
              indices groups.
Proof.
  intros Hb Hc indices. induction indices as [|i later IH]; intros output result Hi Hrun.
  - cbn in Hrun. injection Hrun as <-. exists []. cbn. rewrite app_nil_r.
    repeat split; [lia|constructor].
  - cbn [Combined.convert_frames] in Hrun. inversion Hi as [|? ? Hi0 Hi']; subst.
    assert (Hbase : Z.to_nat (to_size_t (to_size_t (Z.of_nat i * bytes_per_sample_in_packet h)
                                          * channels_in_packet h))
                    = (4 * (i * Z.to_nat (channels_in_packet h)))%nat).
    { rewrite Hb. unfold to_size_t, to_uint64.
      change (2 ^ 64) with 18446744073709551616.
      rewrite (Z.mod_small (Z.of_nat i * 4)) by lia.
      rewrite Z.mod_small by nia. nia. }
    rewrite Hbase, le_bytes_to_int32_wire in Hrun.
    destruct (wire_sample payload (i * Z.to_nat (channels_in_packet h))) as [s|] eqn:Hs;
      [|discriminate].
    destruct (Combined.convert_sample s g) as [three|] eqn:Hthree; [|discriminate].
    destruct (IH _ _ Hi' Hrun) as (groups & Hres & Hlen & Hall).
    exists (three :: groups). repeat split.
    + rewrite Hres, <- app_assoc. reflexivity.
    + rewrite Hlen, length_app, (length_convert_sample s g three) by (left; exact Hthree).
      cbn [length]. lia.
    + constructor; [|exact Hall]. exists s. split; assumption.
Qed.

Lemma draft_convert_frames_eq (payload : list byte) (g : double) :
  forall (indices : list nat) (output : list byte),
    Draft.convert_frames indices payload g output
    = Fixed.convert_frames indices payload g output.
Proof.
  intros indices. induction indices as [|i later IH]; intros output; [reflexivity|].
  cbn [Draft.convert_frames Fixed.convert_frames].
  change (Draft.sample_at payload) with (Fixed.sample_at payload).
  destruct (Fixed.sample_at payload (Z.to_nat (to_size_t (Z.of_nat i * 4)))) as [s|];
    [|reflexivity].
  rewrite (proj2 (convert_sample_agree s g)), <- (proj1 (convert_sample_agree s g)).
  destruct (Fixed.convert_sample s g); [apply IH|reflexivity].
Qed.

(** The conversion loops of the fixed and of the draft receiver: frame [i]
    contributes the conversion of sample [i], whatever the channel
    count. *)
Lemma fixed_convert_frames_spec (payload : list byte) (g : double) :
  forall (indices : list nat) (output result : list byte),
    Forall (fun i => Z.of_nat i < 65536) indices ->
    Fixed.convert_frames indices payload g output = Some result \/
    Draft.convert_frames indices payload g output = Some result ->
    exists groups : list (list byte),
      result = output ++ concat groups /\
      length result = (length output + 3 * length indices)%nat /\
      Forall2 (fun i three =>
                 exists s, wire_sample payload i = Some s /\
                           Fixed.convert_sample s g = Some three)
              indices groups.
Proof.
  intros indices output result Hi Hrun.
  assert (Hfixed : Fixed.convert_frames indices payload g output = Some result).
  { destruct Hrun as [H|H]; [exact H|]. rewrite <- draft_convert_frames_eq. exact H. }
  clear Hrun. revert output result Hi Hfixed.
  induction indices as [|i later IH]; intros output result Hi Hrun.
  - cbn in Hrun. injection Hrun as <-. exists []. cbn. rewrite app_nil_r.
    repeat split; [lia|constructor].
  - inversion Hi as [|? ? Hi0 Hi']; subst.
    assert (Hbase : Z.to_nat (to_size_t (Z.of_nat i * 4)) = (4 * i)%nat).
    { unfold to_size_t, to_uint64. change (2 ^ 64) with 18446744073709551616.
      rewrite Z.mod_small by lia. lia. }
    cbn [Fixed.convert_frames] in Hrun.
    rewrite Hbase, (proj1 (sample_at_wire payload i)) in Hrun.
    destruct (wire_sample payload i) as [s|] eqn:Hs; [|discriminate].
    destruct (Fixed.convert_sample s g) as [three|] eqn:Hthree; [|discriminate].
    destruct (IH _ _ Hi' Hrun) as (groups & Hres & Hlen & Hall).
    exists (three :: groups). repeat split.
    + rewrite Hres, <- app_assoc. reflexivity.
    + rewrite Hlen, length_app, (length_convert_sample s g three)
        by (right; left; exact Hthree).
      cbn [length]. lia.
    + constructor; [|exact Hall]. exists s. split; assumption.
Qed.

(** C10 on the fixed and the draft receiver.  Two stereo frames arrive,
    left 0x100 and right 0x200, then left 0x300 and right 0x400.  The
    conversion loops of [tcp_server_loop] take the first two 32-bit words,
    so the right sample of the first frame is written and the left sample
    of the second frame is not; the combined receiver writes the two left
    samples. *)
Theorem fixed_converts_consecutive_words :
  let w := initial_world 1000 in
  let client := [Chunk two_stereo_frames_header; Chunk two_stereo_frames_payload] in
  wire_sample two_stereo_frames_payload 0 = Some 0x100 /\
  wire_sample two_stereo_frames_payload 1 = Some 0x200 /\
  wire_sample two_stereo_frames_payload 2 = Some 0x300 /\
  Fixed.convert_frames (seq 0 2) two_stereo_frames_payload gain_1_0 []
  = Some ([x01; x00; x00] ++ [x02; x00; x00]) /\
  Draft.convert_frames (seq 0 2) two_stereo_frames_payload gain_1_0 []
  = Some ([x01; x00; x00] ++ [x02; x00; x00]) /\
  Combined.convert_frames (seq 0 2) two_stereo_frames_payload
    (Combined.parse_header two_stereo_frames_header) gain_1_0 []
  = Some ([x01; x00; x00] ++ [x03; x00; x00]) /\
  Fixed.packet w client
  = Continue (publish {| content := [x01; x00; x00; x02; x00; x00];
                         position := 6; space := 994 |} 2 0 1 w) [] /\
  Combined.packet w client
  = Continue (publish {| content := [x01; x00; x00; x03; x00; x00];
                         position := 6; space := 994 |} 2 0 1 w) [].
Proof. vm_compute. repeat split. Qed.

(* ================================================================== *)
(** * The session loop                                               *)
(* ================================================================== *)

Lemma bad_magic_packet (w : world) (client client' : socket) (header : list byte) (fuel : nat) :
  Combined.recv_all client HEADER_SIZE = Some (true, header, client') ->
  le_value (slice 0 4 header) <> HEADER_MAGIC ->
  Combined.packet w client = Break false w client' /\
  Fixed.packet w client = Break false w client' /\
  Draft.after_header fuel w client' header = Break false w client'.
Proof.
  intros Hrecv Hmagic. destruct (header_received _ _ _ Hrecv) as [Hlen _].
  pose proof (combined_parse_header_spec header Hlen) as (Hm & _).
  pose proof (draft_parse_header_spec header Hlen) as (Hm' & _).
  unfold Combined.packet, Fixed.packet, Fixed.recv_all, Fixed.parse_header, Draft.after_header.
  rewrite Hrecv, Hm, Hm'.
  replace (le_value (slice 0 4 header) =? HEADER_MAGIC) with false
    by (symmetry; apply Z.eqb_neq; exact Hmagic).
  repeat split.
Qed.

(** A run of the combined receiver: the first client sends a header with
    a wrong magic, the second one connects afterwards and is served; the
    file holds the 44 bytes of the placeholder header. *)
Example bad_magic_then_next_client :
  option_map (fun w => (trace w, length (content (output_wav_file w))))
    (Combined.tcp_audio_receiver_server_loop
       [Client [Chunk zero_header; Chunk [x01; x02]] true; Client [] true]
       (initial_world 1000))
  = Some ([Accepted; FileOpened; ClientClosed; FileClosed;
           Accepted; FileOpened; ClientClosed; FileClosed], 44%nat).
Proof. vm_compute. reflexivity. Qed.

Lemma empty_payload_packet (w : world) (client client' : socket) (header : list byte)
    (fuel : nat) :
  Combined.recv_all client HEADER_SIZE = Some (true, header, client') ->
  le_value (slice 0 4 header) = HEADER_MAGIC ->
  le_value (slice 24 2 header) * le_value (slice 26 1 header) * le_value (slice 27 1 header) = 0 ->
  Combined.packet w client = Continue w client' /\
  Fixed.packet w client = Continue w client' /\
  Draft.after_header fuel w client' header = Continue w client'.
Proof.
  intros Hrecv Hmagic Hzero. destruct (header_received _ _ _ Hrecv) as [Hlen _].
  pose proof (combined_parse_header_spec header Hlen) as (Hm & _).
  pose proof (draft_parse_header_spec header Hlen) as (Hm' & _).
  pose proof (payload_bytes_of_spec header Hlen) as (Hc & Hf & Hd).
  unfold Fixed.parse_header in Hf.
  unfold Combined.packet, Fixed.packet, Fixed.recv_all, Fixed.parse_header, Draft.after_header.
  rewrite Hrecv, Hm, Hm', Hmagic, Hc, Hf, Hd, Hzero. repeat split.
Qed.

(** In the combined and in the fixed receiver a payload that stops short
    ends the connection: the packet loop is left with [connection_ok]
    false, nothing is converted or written, no counter moves. *)
Lemma payload_failure_aborts
    (w : world) (client client' client'' : socket) (header partial : list byte) (fuel : nat) :
  Combined.recv_all client HEADER_SIZE = Some (true, header, client') ->
  le_value (slice 0 4 header) = HEADER_MAGIC ->
  let payload_bytes :=
    le_value (slice 24 2 header) * le_value (slice 26 1 header)
    * le_value (slice 27 1 header) in
  payload_bytes <> 0 ->
  Combined.recv_all client' (Z.to_nat payload_bytes) = Some (false, partial, client'') ->
  Combined.packet w client = Break false w client'' /\
  Fixed.packet w client = Break false w client'' /\
  (global_should_run w = true ->
   Combined.packet_loop (S fuel) w client = Exited false w client'' /\
   Fixed.packet_loop (S fuel) w client = Exited false w client'').
Proof.
  intros Hrecv Hmagic payload_bytes Hnz Hpay.
  destruct (header_received _ _ _ Hrecv) as [Hlen _].
  pose proof (combined_parse_header_spec header Hlen) as (Hm & _).
  pose proof (payload_bytes_of_spec header Hlen) as (Hc & Hf & _).
  unfold Fixed.parse_header in Hf. fold payload_bytes in Hc, Hf.
  assert (Hg : Combined.suspicious_number_of_frames (Combined.parse_header header) = false)
    by (apply frame_guard_passes; rewrite Hc; exact Hnz).
  assert (Hcp : Combined.packet w client = Break false w client'').
  { unfold Combined.packet. rewrite Hrecv, Hm, Hmagic, Hc, Hg, Hpay.
    replace (payload_bytes =? 0) with false by (symmetry; apply Z.eqb_neq; exact Hnz).
    reflexivity. }
  assert (Hfp : Fixed.packet w client = Break false w client'').
  { unfold Fixed.packet, Fixed.recv_all, Fixed.parse_header.
    rewrite Hrecv, Hm, Hmagic, Hf, Hpay.
    replace (payload_bytes =? 0) with false by (symmetry; apply Z.eqb_neq; exact Hnz).
    reflexivity. }
  split; [exact Hcp|]. split; [exact Hfp|].
  intros Hrun. cbn [Combined.packet_loop Fixed.packet_loop].
  rewrite Hrun, Hcp, Hfp. split; reflexivity.
Qed.

(** A turn of the packet loop never waits for ever, and a turn that goes
    on has taken at least the 34 header bytes from the socket. *)
Lemma combined_packet_progress (w : world) (client : socket) :
  match Combined.packet w client with
  | Continue _ client' => (socket_bytes client' + 34 <= socket_bytes client)%nat
  | OutOfFuel => False
  | _ => True
  end.
Proof.
  unfold Combined.packet.
  destruct (Combined.recv_all client HEADER_SIZE) as [[[ok header] client']|] eqn:Hrecv.
  2:{ exact (recv_all_returns _ _ Hrecv). }
  destruct ok; [|exact I].
  pose proof (recv_all_consumes _ _ _ _ _ Hrecv eq_refl) as Hh. unfold HEADER_SIZE in Hh.
  destruct (negb _); [exact I|].
  destruct (_ =? 0); [lia|].
  destruct (Combined.suspicious_number_of_frames _); [exact I|].
  destruct (Combined.recv_all client' _) as [[[ok2 payload] client'']|] eqn:Hpay.
  2:{ exact (recv_all_returns _ _ Hpay). }
  destruct ok2; [|exact I].
  pose proof (recv_all_consumes _ _ _ _ _ Hpay eq_refl) as Hp.
  destruct (Combined.convert_frames _ _ _ _ _); [lia|exact I].
Qed.

Lemma fixed_packet_progress (w : world) (client : socket) :
  match Fixed.packet w client with
  | Continue _ client' => (socket_bytes client' + 34 <= socket_bytes client)%nat
  | OutOfFuel => False
  | _ => True
  end.
Proof.
  unfold Fixed.packet, Fixed.recv_all.
  destruct (Combined.recv_all client HEADER_SIZE) as [[[ok header] client']|] eqn:Hrecv.
  2:{ exact (recv_all_returns _ _ Hrecv). }
  destruct ok; [|exact I].
  pose proof (recv_all_consumes _ _ _ _ _ Hrecv eq_refl) as Hh. unfold HEADER_SIZE in Hh.
  destruct (negb _); [exact I|].
  destruct (_ =? 0); [lia|].
  destruct (Combined.recv_all client' _) as [[[ok2 payload] client'']|] eqn:Hpay.
  2:{ exact (recv_all_returns _ _ Hpay). }
  destruct ok2; [|exact I].
  pose proof (recv_all_consumes _ _ _ _ _ Hpay eq_refl) as Hp.
  destruct (Fixed.convert_frames _ _ _ _); [lia|exact I].
Qed.

(** With one unit of fuel more than the socket holds bytes the packet loops
    run to their end. *)
Lemma packet_loop_ends (fuel : nat) :
  forall (w : world) (client : socket),
    (socket_bytes client < fuel)%nat ->
    Combined.packet_loop fuel w client <> LoopOutOfFuel /\
    Fixed.packet_loop fuel w client <> LoopOutOfFuel.
Proof.
  induction fuel as [|fuel IH]; intros w client Hfuel; [lia|].
  cbn [Combined.packet_loop Fixed.packet_loop].
  destruct (global_should_run w); [|split; discriminate].
  pose proof (combined_packet_progress w client) as Hc.
  pose proof (fixed_packet_progress w client) as Hf.
  split.
  - destruct (Combined.packet w client) as [w' client'|ok w' client'| |];
      [apply IH; lia|discriminate|discriminate|contradiction].
  - destruct (Fixed.packet w client) as [w' client'|ok w' client'| |];
      [apply IH; lia|discriminate|discriminate|contradiction].
Qed.

(** However the packet loop of a client is left, the combined receiver
    closes the client and the file and goes back to [accept]. *)
Lemma combined_accept_goes_on
    (w w' : world) (client client' : socket) (later : list accept_result) :
  global_should_run w = true ->
  let opened :=
    note FileOpened
      (with_file (fseek_end (snd (Combined.open_output (note Accepted w)))) (note Accepted w)) in
  (exists ok, Combined.packet_loop (S (socket_bytes client)) opened client = Exited ok w' client')
  \/ Combined.packet_loop (S (socket_bytes client)) opened client = Stopped w' client' ->
  Combined.tcp_audio_receiver_server_loop (Client client true :: later) w
  = Combined.tcp_audio_receiver_server_loop later (note FileClosed (note ClientClosed w')).
Proof.
  intros Hrun opened Hloop.
  cbn [Combined.tcp_audio_receiver_server_loop]. rewrite Hrun.
  pose proof (eq_refl : fst (Combined.open_output (note Accepted w)) = true) as Ht.
  subst opened. destruct (Combined.open_output (note Accepted w)) as [written f].
  cbn [fst snd] in *. subst written.
  destruct Hloop as [[ok Hloop]|Hloop]; rewrite Hloop; reflexivity.
Qed.

(** One more turn of the packet loop. *)
Lemma combined_packet_loop_step (fuel : nat) (w w' : world) (client client' : socket) :
  global_should_run w = true ->
  Combined.packet w client = Continue w' client' ->
  Combined.packet_loop (S fuel) w client = Combined.packet_loop fuel w' client'.
Proof.
  intros Hrun Hp. cbn [Combined.packet_loop]. rewrite Hrun, Hp. reflexivity.
Qed.

(** One client sends two mono frames, +1 and -2 in 24-bit units, and
    closes: six bytes follow the 44 header bytes in the file, two samples
    are counted, the highest sample index is the first index plus one. *)
Example two_frames_end_to_end :
  option_map
    (fun w => (skipn 44 (content (output_wav_file w)),
               global_total_samples_written_count w,
               global_highest_received_sample_index w,
               global_last_received_sequence w,
               trace w))
    (Combined.tcp_audio_receiver_server_loop
       [Client [Chunk two_mono_frames_header; Chunk two_mono_frames_payload] true]
       (initial_world 1000))
  = Some ([x01; x00; x00; xfe; xff; xff], 2, 4801, 1,
          [Accepted; FileOpened; ClientClosed; FileClosed]).
Proof. vm_compute. reflexivity. Qed.

(* ================================================================== *)
(** * Further properties: receiving                                    *)
(* ================================================================== *)

Lemma recv_all_loop_false (fuel : nat) :
  forall (sock sock' : socket) (required : nat) (received buf : list byte),
    Combined.recv_all_loop fuel sock required received = Some (false, buf, sock') ->
    (length buf < required)%nat.
Proof.
  induction fuel as [|fuel IH]; intros sock sock' required received buf H.
  - cbn [Combined.recv_all_loop] in H.
    destruct (Nat.ltb_spec (length received) required); discriminate.
  - cbn [Combined.recv_all_loop] in H.
    destruct (Nat.ltb_spec (length received) required) as [Hlt|Hge]; [|discriminate].
    destruct (recv sock (required - length received)) as [[r| |] sock1].
    + destruct r as [|b r'].
      * injection H as <- _. exact Hlt.
      * exact (IH _ _ _ _ _ H).
    + exact (IH _ _ _ _ _ H).
    + injection H as <- _. exact Hlt.
Qed.

(** X1.  [recv_all] always returns.  It returns [true] exactly when the stream
    hands over [n] bytes before a [recv] fails or the peer closes; the
    buffer then holds the next [n] bytes of the stream and the socket keeps
    every byte after them.  When it returns [false] fewer than [n] bytes
    were received. *)
Theorem recv_all_exact (sock : socket) (n : nat) :
  exists (ok : bool) (buf : list byte) (sock' : socket),
    Combined.recv_all sock n = Some (ok, buf, sock') /\
    ok = delivers sock n /\
    (if ok
     then buf = firstn n (socket_data sock) /\ length buf = n /\
          socket_data sock = buf ++ socket_data sock'
     else (length buf < n)%nat).
Proof.
  destruct (recv_all_spec sock n) as (buf & sock' & Hrun & Hok).
  exists (delivers sock n), buf, sock'. split; [exact Hrun|]. split; [reflexivity|].
  destruct (delivers sock n) eqn:Hd.
  - destruct (Hok eq_refl) as (Hbuf & Hdata & Hlen). repeat split; assumption.
  - unfold Combined.recv_all in Hrun. exact (recv_all_loop_false _ _ _ _ _ _ Hrun).
Qed.

Lemma delivers_orderly (sock : socket) :
  orderly sock ->
  forall n : nat, delivers sock n = (n <=? length (socket_data sock))%nat.
Proof.
  unfold orderly. induction sock as [|ev rest IH]; intros Hord n.
  - destruct n; reflexivity.
  - inversion Hord as [|? ? Hev Hrest]; subst. specialize (IH Hrest).
    destruct n as [|k]; [reflexivity|].
    destruct ev as [[|b bs]| |]; try contradiction.
    + cbn [delivers socket_data flat_map]. fold (socket_data rest).
      rewrite IH, length_app.
      destruct (Nat.leb_spec (S k) (length (b :: bs))) as [Hfit|Hmore].
      * cbn [orb]. symmetry. apply Nat.leb_le. lia.
      * cbn [orb].
        destruct (Nat.leb_spec (S k - length (b :: bs)) (length (socket_data rest)));
          symmetry; [apply Nat.leb_le|apply Nat.leb_gt]; lia.
    + cbn [delivers socket_data flat_map app]. fold (socket_data rest). apply IH.
Qed.

(** X2.  On a connection where no [recv] fails, [recv_all] succeeds exactly
    when the peer sent at least [n] bytes before closing, however the bytes
    are cut into segments and however often [recv] is interrupted; the
    buffer is then the first [n] bytes sent. *)
Theorem recv_all_orderly (sock : socket) (n : nat) :
  orderly sock ->
  exists (buf : list byte) (sock' : socket),
    Combined.recv_all sock n = Some ((n <=? length (socket_data sock))%nat, buf, sock') /\
    ((n <= length (socket_data sock))%nat ->
     buf = firstn n (socket_data sock) /\
     socket_data sock' = skipn n (socket_data sock)).
Proof.
  intros Hord.
  destruct (recv_all_spec sock n) as (buf & sock' & Hrun & Hok).
  rewrite (delivers_orderly sock Hord) in Hrun, Hok.
  exists buf, sock'. split; [exact Hrun|].
  intros Hn. destruct (Hok (proj2 (Nat.leb_le _ _) Hn)) as (Hbuf & Hdata & Hlen).
  split; [exact Hbuf|].
  rewrite Hdata, skipn_app, Hlen, Nat.sub_diag, skipn_all2 by lia.
  reflexivity.
Qed.

Lemma recv_all_orderly_witness :
  exists (buf : list byte) (sock' : socket),
    Combined.recv_all [Chunk [x01]; Eintr; Chunk [x02; x03]] 2
    = Some (true, buf, sock') /\ buf = [x01; x02] /\ socket_data sock' = [x03].
Proof.
  assert (Hord : orderly [Chunk [x01]; Eintr; Chunk [x02; x03]])
    by (unfold orderly; repeat constructor).
  destruct (recv_all_orderly [Chunk [x01]; Eintr; Chunk [x02; x03]] 2 Hord)
    as (buf & sock' & Hrun & Hok).
  exists buf, sock'. split; [exact Hrun|]. apply Hok. cbn. lia.
Defined.

Lemma in_after_chunk (n : nat) (bs : list byte) (rest : socket) :
  In Failure (after_chunk n bs rest) -> In Failure rest.
Proof.
  unfold after_chunk. destruct (skipn n bs); [auto|].
  intros [H|H]; [discriminate|exact H].
Qed.

(** X3.  [recive_full] returns [true] only for a request of no bytes.  For a
    request of at least one byte it returns [false] only when a [recv]
    failed with an error other than [EINTR]; on a connection where no
    [recv] fails it does not return. *)
Theorem recive_full_only_fails
    (fuel : nat) (sock : socket) (buffer : list byte) (required : nat) :
  (required = 0%nat ->
   Draft.recive_full fuel sock buffer 0 required = Some (true, buffer, sock)) /\
  ((0 < required)%nat ->
   Draft.recive_full fuel sock buffer 0 required = None \/
   (exists buf sock',
      Draft.recive_full fuel sock buffer 0 required = Some (false, buf, sock') /\
      In Failure sock)).
Proof.
  split.
  - intros ->. destruct fuel; reflexivity.
  - intros Hreq. revert sock buffer.
    induction fuel as [|fuel IH]; intros sock buffer.
    + left. cbn [Draft.recive_full].
      replace (0 <? required)%nat with true by (symmetry; apply Nat.ltb_lt; lia).
      reflexivity.
    + cbn [Draft.recive_full].
      replace (0 <? required)%nat with true by (symmetry; apply Nat.ltb_lt; lia).
      destruct sock as [|[bs| |] rest]; cbn [recv].
      * destruct (IH [] (store buffer 0 [])) as [H|(buf & sock' & H & Hin)];
          [left; exact H|contradiction].
      * destruct (IH (after_chunk (required - 0) bs rest)
                    (store buffer 0 (firstn (required - 0) bs)))
          as [H|(buf & sock' & H & Hin)]; [left; exact H|].
        right. exists buf, sock'. split; [exact H|].
        right. exact (in_after_chunk _ _ _ Hin).
      * destruct (IH rest buffer) as [H|(buf & sock' & H & Hin)]; [left; exact H|].
        right. exists buf, sock'. split; [exact H|]. right. exact Hin.
      * right. exists buffer, rest. split; [reflexivity|]. left. reflexivity.
Qed.

Lemma recive_full_only_fails_witness :
  Draft.recive_full 5 [Chunk [x01]; Failure] [x00; x00] 0 2 = None \/
  (exists buf sock',
     Draft.recive_full 5 [Chunk [x01]; Failure] [x00; x00] 0 2 = Some (false, buf, sock') /\
     In Failure [Chunk [x01]; Failure]).
Proof.
  apply (recive_full_only_fails 5 [Chunk [x01]; Failure] [x00; x00] 2). lia.
Defined.

(* ================================================================== *)
(** * Further properties: the container writer                         *)
(* ================================================================== *)

Lemma store_at_end (c bs : list byte) : store c (length c) bs = c ++ bs.
Proof.
  unfold store. rewrite firstn_all, Nat.sub_diag, skipn_all2 by lia.
  cbn [repeat app]. rewrite app_nil_r. reflexivity.
Qed.

Lemma fwrite_at_end (bs : list byte) (f : FILE) :
  at_end f ->
  fwrite_ bs f
  = {| content := content f ++ firstn (space f) bs;
       position := length (content f) + length (firstn (space f) bs);
       space := space f - length (firstn (space f) bs) |}.
Proof.
  destruct f as [c p s]. unfold at_end. cbn [content position space]. intros ->.
  unfold fwrite_, fwrite. cbn [content position space].
  destruct (firstn s bs) as [|b wrote] eqn:E.
  - cbn [snd length]. rewrite app_nil_r, Nat.add_0_r, Nat.sub_0_r. reflexivity.
  - cbn [snd]. rewrite store_at_end. reflexivity.
Qed.

Lemma fwrite_at_end_keeps (bs : list byte) (f : FILE) : at_end f -> at_end (fwrite_ bs f).
Proof.
  intros H. rewrite (fwrite_at_end bs f H). unfold at_end. cbn [content position].
  rewrite length_app. reflexivity.
Qed.

(** Two writes at the end of the file are one write of both buffers, also
    when the device runs out of room in the middle. *)
Lemma fwrite_fwrite (bs1 bs2 : list byte) (f : FILE) :
  at_end f -> fwrite_ bs2 (fwrite_ bs1 f) = fwrite_ (bs1 ++ bs2) f.
Proof.
  intros H.
  rewrite (fwrite_at_end bs2 _ (fwrite_at_end_keeps bs1 f H)).
  rewrite (fwrite_at_end bs1 f H), (fwrite_at_end (bs1 ++ bs2) f H).
  cbn [content position space].
  rewrite firstn_app, length_firstn.
  destruct (Nat.le_gt_cases (length bs1) (space f)) as [Hfit|Hshort].
  - rewrite Nat.min_r by lia. rewrite !length_app, !length_firstn, <- app_assoc.
    f_equal; lia.
  - rewrite Nat.min_l by lia. rewrite Nat.sub_diag.
    replace (space f - length bs1)%nat with 0%nat by lia.
    cbn [firstn]. rewrite !app_nil_r, !length_app, !length_firstn. cbn [length].
    f_equal; lia.
Qed.

Lemma u16_bytes_spec (v : Z) :
  [ byte_of_Z (Z.land v 0xFF); byte_of_Z (Z.land (Z.shiftr v 8) 0xFF) ] = le_bytes 2 v.
Proof.
  change 0xFF with (Z.ones 8). rewrite !Z.land_ones, !Z.shiftr_div_pow2 by lia.
  reflexivity.
Qed.

Lemma le_bytes_mod (n : nat) (v : Z) : le_bytes n (v mod 256 ^ Z.of_nat n) = le_bytes n v.
Proof.
  revert v. induction n as [|n IH]; intros v; [reflexivity|].
  cbn [le_bytes]. rewrite Nat2Z.inj_succ, Z.pow_succ_r by lia.
  assert (Hp : 0 < 256 ^ Z.of_nat n) by (apply Z.pow_pos_nonneg; lia).
  rewrite Z.rem_mul_r by lia.
  set (hi := (v / 256) mod 256 ^ Z.of_nat n).
  replace ((v mod 256 + 256 * hi) mod 256) with (v mod 256)
    by (rewrite (Z.mul_comm 256), Z.mod_add, Z.mod_mod by lia; reflexivity).
  replace ((v mod 256 + 256 * hi) / 256) with hi
    by (rewrite (Z.mul_comm 256), Z.div_add, Z.div_small
          by (try apply Z.mod_pos_bound; lia); reflexivity).
  subst hi. rewrite IH. reflexivity.
Qed.

Lemma le_bytes_4_uint32 (v : Z) : le_bytes 4 (to_uint32 v) = le_bytes 4 v.
Proof. exact (le_bytes_mod 4 v). Qed.

Lemma le_bytes_2_uint16 (v : Z) : le_bytes 2 (to_uint16 v) = le_bytes 2 v.
Proof. exact (le_bytes_mod 2 v). Qed.

(** X4.  [write_u32_le] and [write_u16_le] store a number so that reading the
    bytes back least significant first gives the number again (reduced to
    the width of the field); the stream moves on by the width, and at the
    end of the file the write appends. *)
Theorem write_le_round_trip (value : Z) (f : FILE) :
  (4 <= space f)%nat ->
  let f32 := Combined.write_u32_le value f in
  let f16 := Combined.write_u16_le value f in
  le_value (slice (position f) 4 (content f32)) = value mod 2 ^ 32 /\
  position f32 = (position f + 4)%nat /\
  le_value (slice (position f) 2 (content f16)) = value mod 2 ^ 16 /\
  position f16 = (position f + 2)%nat /\
  (at_end f ->
   content f32 = content f ++ le_bytes 4 value /\
   content f16 = content f ++ le_bytes 2 value).
Proof.
  intros Hspace f32 f16.
  assert (E32 : f32 = {| content := store (content f) (position f) (le_bytes 4 value);
                         position := position f + 4; space := space f - 4 |})
    by (apply write_u32_le_complete; exact Hspace).
  assert (E16 : f16 = {| content := store (content f) (position f) (le_bytes 2 value);
                         position := position f + 2; space := space f - 2 |}).
  { subst f16. unfold Combined.write_u16_le. rewrite u16_bytes_spec.
    unfold fwrite_, fwrite. rewrite firstn_all2 by (rewrite length_le_bytes; lia).
    reflexivity. }
  rewrite E32, E16. cbn [content position].
  split; [|split; [reflexivity|split; [|split; [reflexivity|]]]].
  - rewrite <- (length_le_bytes 4 value) at 1. rewrite slice_store, le_value_le_bytes.
    reflexivity.
  - rewrite <- (length_le_bytes 2 value) at 1. rewrite slice_store, le_value_le_bytes.
    reflexivity.
  - unfold at_end. intros ->. rewrite !store_at_end. split; reflexivity.
Qed.

Lemma write_le_round_trip_witness :
  le_value (slice 0 4 (content (Combined.write_u32_le 0x12345678
                                  {| content := []; position := 0; space := 4 |})))
  = 0x12345678 mod 2 ^ 32 /\
  content (Combined.write_u16_le 0x12345678 {| content := []; position := 0; space := 4 |})
  = [] ++ le_bytes 2 0x12345678.
Proof.
  destruct (write_le_round_trip 0x12345678 {| content := []; position := 0; space := 4 |})
    as (H32 & _ & _ & _ & Hend).
  - cbn. lia.
  - split; [exact H32|]. apply Hend. reflexivity.
Defined.

Lemma placeholder_as_one_write (f : FILE) (sample_rate channels : Z) :
  at_end f ->
  Combined.write_wav_header_placeholder f sample_rate channels
  = (true, fwrite_ (wav_header sample_rate channels 0 0) f).
Proof.
  intros H. unfold Combined.write_wav_header_placeholder, Combined.write_u32_le,
    Combined.write_u16_le.
  rewrite !u32_bytes_spec, !u16_bytes_spec.
  rewrite le_bytes_4_uint32, le_bytes_2_uint16.
  repeat rewrite (fwrite_fwrite _ _ f H).
  unfold wav_header. rewrite <- !app_assoc. reflexivity.
Qed.

Lemma length_wav_header (sample_rate channels riff_size data_bytes : Z) :
  length (wav_header sample_rate channels riff_size data_bytes) = 44%nat.
Proof. reflexivity. Qed.

Lemma placeholder_on_fresh_file (f : FILE) (sample_rate channels : Z) :
  Combined.write_wav_header_placeholder (fopen_wb f) sample_rate channels
  = (true, {| content := firstn (space f) (wav_header sample_rate channels 0 0);
              position := Nat.min (space f) 44;
              space := space f - 44 |}).
Proof.
  rewrite placeholder_as_one_write by reflexivity.
  rewrite fwrite_at_end by reflexivity.
  cbn [fopen_wb content space length app Nat.add].
  rewrite length_firstn, length_wav_header.
  f_equal. f_equal. lia.
Qed.

(** X5.  The placeholder header of the combined and the fixed receiver is the
    44-byte RIFF/WAVE header for 24-bit PCM with both size fields zero.
    The function reports success whatever [fwrite] did: on a device with
    room for fewer than 44 bytes the file holds only the first bytes of
    the header. *)
Theorem placeholder_header_layout (f : FILE) (sample_rate channels : Z) :
  length (wav_header sample_rate channels 0 0) = 44%nat /\
  Combined.write_wav_header_placeholder (fopen_wb f) sample_rate channels
  = (true, {| content := firstn (space f) (wav_header sample_rate channels 0 0);
              position := Nat.min (space f) 44;
              space := space f - 44 |}) /\
  Fixed.write_wav_header_placeholder (fopen_wb f) sample_rate channels
  = Combined.write_wav_header_placeholder (fopen_wb f) sample_rate channels.
Proof.
  split; [reflexivity|]. split; [apply placeholder_on_fresh_file|reflexivity].
Qed.

(* ================================================================== *)
(** * Further properties: samples                                      *)
(* ================================================================== *)

Lemma shiftr_8_range (S : Z) : in_int32 S -> - 2 ^ 23 <= Z.shiftr S 8 < 2 ^ 23.
Proof.
  unfold in_int32, INT32_MIN, INT32_MAX. intros H.
  rewrite Z.shiftr_div_pow2 by lia. change (2 ^ 8) with 256. change (2 ^ 23) with 8388608.
  pose proof (Z.div_mod S 256 ltac:(lia)). pose proof (Z.mod_pos_bound S 256 ltac:(lia)).
  lia.
Qed.

Lemma signed24_le_bytes (v : Z) :
  - 2 ^ 23 <= v < 2 ^ 23 -> signed24 (le_bytes 3 (Z.land v 0xFFFFFF)) = v.
Proof.
  intros Hv. unfold signed24. rewrite le_value_le_bytes.
  change 0xFFFFFF with (Z.ones 24). rewrite Z.land_ones by lia.
  change (256 ^ Z.of_nat 3) with (2 ^ 24). rewrite Z.mod_mod by lia.
  change (2 ^ 23) with 8388608 in *. change (2 ^ 24) with 16777216.
  destruct (Z.neg_nonneg_cases v) as [Hneg|Hpos].
  - rewrite <- (Z.mod_add v 1) by lia. rewrite Z.mod_small by lia.
    destruct (Z.ltb_spec (v + 1 * 16777216) 8388608); lia.
  - rewrite Z.mod_small by lia. destruct (Z.ltb_spec v 8388608); lia.
Qed.

(** X6.  The three bytes a pack helper produces are the 24-bit two's complement
    form of the sample shifted right by eight bits: reading them back as a
    signed 24-bit number gives [S >> 8], the sign included; the low eight
    bits of the sample are dropped. *)
Theorem pack24_round_trip (S : Z) :
  in_int32 S ->
  signed24 (Combined.int32_left24_to_3bytes_le S) = Z.shiftr S 8 /\
  signed24 (Fixed.int32_to_24le_bytes S) = Z.shiftr S 8 /\
  signed24 (Draft.int32_to_24_bytes_little_endian S) = Z.shiftr S 8 /\
  Combined.int32_left24_to_3bytes_le S
  = Combined.int32_left24_to_3bytes_le (256 * Z.shiftr S 8).
Proof.
  intros HS. pose proof (shiftr_8_range S HS) as Hv.
  rewrite int32_left24_to_3bytes_le_spec, int32_to_24le_bytes_spec,
    int32_to_24_bytes_little_endian_spec.
  rewrite signed24_le_bytes by exact Hv. repeat split.
  rewrite int32_left24_to_3bytes_le_spec. do 2 f_equal.
  rewrite !Z.shiftr_div_pow2 by lia. change (2 ^ 8) with 256.
  rewrite (Z.mul_comm 256), Z.div_mul by lia. reflexivity.
Qed.

Lemma pack24_round_trip_witness :
  signed24 (Combined.int32_left24_to_3bytes_le (-512)) = Z.shiftr (-512) 8.
Proof.
  apply (pack24_round_trip (-512)). unfold in_int32, INT32_MIN, INT32_MAX. lia.
Defined.

Lemma le_bytes_to_int32_slice (buffer : list byte) (base : nat) :
  Combined.le_bytes_to_int32 buffer base
  = match slice base 4 buffer with
    | [b0; b1; b2; b3] => Some (to_int32 (le_value [b0; b1; b2; b3]))
    | _ => None
    end.
Proof.
  unfold Combined.le_bytes_to_int32. rewrite <- four_bytes_at, Nat.add_0_r. reflexivity.
Qed.

Lemma le_bytes_to_int32_none (buffer : list byte) (base : nat) :
  Combined.le_bytes_to_int32 buffer base = None <-> (length buffer < base + 4)%nat.
Proof.
  rewrite le_bytes_to_int32_slice. unfold slice.
  pose proof (length_skipn base buffer) as Hlen.
  destruct (skipn base buffer) as [|b0 [|b1 [|b2 [|b3 rest]]]];
    cbn [firstn length] in *; split; intros H; try reflexivity; try discriminate; lia.
Qed.

Lemma to_int32_of_uint32 (S : Z) : in_int32 S -> to_int32 (S mod 2 ^ 32) = S.
Proof.
  unfold in_int32, INT32_MIN, INT32_MAX, to_int32. intros H.
  rewrite Z.add_mod_idemp_l by lia.
  change (2 ^ 31) with 2147483648. change (2 ^ 32) with 4294967296.
  rewrite Z.mod_small by lia. lia.
Qed.

(** X7.  [le_bytes_to_int32] inverts the little-endian layout of a 32-bit
    two's complement number, wherever the four bytes sit in the buffer; it
    reads outside the buffer exactly when fewer than four bytes follow
    the place it is given.  The inline read of the fixed receiver does
    the same. *)
Theorem le_bytes_to_int32_round_trip
    (S : Z) (before after buffer : list byte) (base : nat) :
  in_int32 S ->
  Combined.le_bytes_to_int32 (before ++ le_bytes 4 S ++ after) (length before) = Some S /\
  Fixed.sample_at (before ++ le_bytes 4 S ++ after) (length before) = Some S /\
  (Combined.le_bytes_to_int32 buffer base = None <-> (length buffer < base + 4)%nat).
Proof.
  intros HS.
  assert (Hread : Combined.le_bytes_to_int32 (before ++ le_bytes 4 S ++ after) (length before)
                  = Some S).
  { rewrite le_bytes_to_int32_slice. unfold slice.
    rewrite skipn_app, skipn_all, Nat.sub_diag. cbn [skipn app le_bytes firstn].
    change (le_value _) with (le_value (le_bytes 4 S)).
    rewrite le_value_le_bytes. change (256 ^ Z.of_nat 4) with (2 ^ 32).
    rewrite to_int32_of_uint32 by exact HS. reflexivity. }
  split; [exact Hread|]. split; [|apply le_bytes_to_int32_none].
  rewrite <- Hread. unfold Fixed.sample_at, Combined.le_bytes_to_int32.
  rewrite Nat.add_0_r. reflexivity.
Qed.

Lemma le_bytes_to_int32_round_trip_witness :
  Combined.le_bytes_to_int32 ([x07] ++ le_bytes 4 (-512) ++ []) (length [x07]) = Some (-512).
Proof.
  apply (le_bytes_to_int32_round_trip (-512) [x07] [] [] 0).
  unfold in_int32, INT32_MIN, INT32_MAX. lia.
Defined.

Lemma combined_convert_frames_mono (payload : list byte) (h : packet_header) (g : double) :
  bytes_per_sample_in_packet h = 4 ->
  channels_in_packet h = 1 ->
  forall (indices : list nat) (output : list byte),
    Forall (fun i => Z.of_nat i < 65536) indices ->
    Combined.convert_frames indices payload h g output
    = Fixed.convert_frames indices payload g output.
Proof.
  intros Hb Hc indices. induction indices as [|i later IH]; intros output Hi; [reflexivity|].
  inversion Hi as [|? ? Hi0 Hi']; subst.
  cbn [Combined.convert_frames Fixed.convert_frames]. rewrite Hb, Hc.
  replace (to_size_t (to_size_t (Z.of_nat i * 4) * 1)) with (to_size_t (Z.of_nat i * 4)).
  2:{ unfold to_size_t, to_uint64. change (2 ^ 64) with 18446744073709551616.
      rewrite Z.mul_1_r, Z.mod_mod by lia. reflexivity. }
  replace (Fixed.sample_at payload (Z.to_nat (to_size_t (Z.of_nat i * 4))))
    with (Combined.le_bytes_to_int32 payload (Z.to_nat (to_size_t (Z.of_nat i * 4))))
    by (unfold Fixed.sample_at, Combined.le_bytes_to_int32; rewrite Nat.add_0_r; reflexivity).
  destruct (Combined.le_bytes_to_int32 payload _) as [s|]; [|reflexivity].
  change (Fixed.convert_sample s g) with (Combined.convert_sample s g).
  destruct (Combined.convert_sample s g); [apply IH; exact Hi'|reflexivity].
Qed.

Lemma seq_below (n : nat) : (Z.of_nat n <= 65536) -> Forall (fun i => Z.of_nat i < 65536) (seq 0 n).
Proof.
  intros H. apply Forall_forall. intros i Hi. apply in_seq in Hi. lia.
Qed.

(** X8.  The three receivers convert alike.  Their pack helpers give the same
    three bytes for every number (the seven-digit mask of the draft makes
    no difference), their per-sample conversions agree for every sample
    and gain, undefined cases included, and so do the conversion loops of
    the draft and the fixed receiver; on a mono packet of four-byte
    samples the loop of the combined receiver agrees with them too. *)
Theorem receivers_convert_alike (s : Z) (g : double) (payload : list byte) (frames : nat) :
  Fixed.int32_to_24le_bytes s = Combined.int32_left24_to_3bytes_le s /\
  Draft.int32_to_24_bytes_little_endian s = Combined.int32_left24_to_3bytes_le s /\
  Fixed.convert_sample s g = Combined.convert_sample s g /\
  Draft.convert_sample s g = Combined.convert_sample s g /\
  Draft.convert_frames (seq 0 frames) payload g []
  = Fixed.convert_frames (seq 0 frames) payload g [] /\
  (forall h : packet_header,
     bytes_per_sample_in_packet h = 4 -> channels_in_packet h = 1 ->
     Z.of_nat frames <= 65536 ->
     Combined.convert_frames (seq 0 frames) payload h g []
     = Fixed.convert_frames (seq 0 frames) payload g []).
Proof.
  split; [reflexivity|].
  split; [rewrite int32_to_24_bytes_little_endian_spec, int32_left24_to_3bytes_le_spec;
          reflexivity|].
  split; [apply convert_sample_agree|]. split; [apply convert_sample_agree|].
  split; [apply draft_convert_frames_eq|].
  intros h Hb Hc Hn. apply combined_convert_frames_mono; [exact Hb|exact Hc|].
  apply seq_below. exact Hn.
Qed.

Lemma receivers_convert_alike_witness :
  Combined.convert_frames (seq 0 2) two_mono_frames_payload
    (Combined.parse_header two_mono_frames_header) gain_2_0 []
  = Fixed.convert_frames (seq 0 2) two_mono_frames_payload gain_2_0 [].
Proof.
  destruct (receivers_convert_alike 0 gain_2_0 two_mono_frames_payload 2)
    as (_ & _ & _ & _ & _ & H).
  apply H; [reflexivity|reflexivity|lia].
Defined.

(* ================================================================== *)
(** * Further properties: the streamer and the packet codec            *)
(* ================================================================== *)

Lemma bytes_of_spec (n : nat) : forall value : Z, Streamer.bytes_of value n = le_bytes n value.
Proof.
  unfold Streamer.bytes_of. induction n as [|n IH]; intros value; [reflexivity|].
  cbn [seq map le_bytes]. f_equal.
  - change (8 * Z.of_nat 0) with 0. rewrite Z.shiftr_0_r.
    change 0xFF with (Z.ones 8). rewrite Z.land_ones by lia. reflexivity.
  - rewrite <- seq_shift, map_map, <- IH. apply map_ext. intros i.
    rewrite Nat2Z.inj_succ.
    replace (8 * Z.succ (Z.of_nat i)) with (8 + 8 * Z.of_nat i) by lia.
    rewrite <- Z.shiftr_shiftr by lia.
    rewrite (Z.shiftr_div_pow2 value 8) by lia. reflexivity.
Qed.

Lemma build_header_wire (seq_ first_sample_index_ timestamp_us frames : Z) :
  Streamer.build_header seq_ first_sample_index_ timestamp_us frames
  = make_header seq_ first_sample_index_ timestamp_us frames
      Streamer.CHANNELS Streamer.BYTES_PER_SAMPLE Streamer.SAMPLE_RATE FORMAT_INT32_LEFT24.
Proof.
  unfold Streamer.build_header, make_header. rewrite !bytes_of_spec. reflexivity.
Qed.

Lemma make_header_slices
    (sequence first_sample timestamp frames channels bytes_per_sample sample_rate format_id : Z) :
  let header := make_header sequence first_sample timestamp frames channels bytes_per_sample
                  sample_rate format_id in
  length header = 34%nat /\
  slice 0 4 header = le_bytes 4 HEADER_MAGIC /\
  slice 4 4 header = le_bytes 4 sequence /\
  slice 8 8 header = le_bytes 8 first_sample /\
  slice 16 8 header = le_bytes 8 timestamp /\
  slice 24 2 header = le_bytes 2 frames /\
  slice 26 1 header = le_bytes 1 channels /\
  slice 27 1 header = le_bytes 1 bytes_per_sample /\
  slice 28 4 header = le_bytes 4 sample_rate /\
  slice 32 2 header = le_bytes 2 format_id.
Proof.
  cbv zeta. unfold make_header, slice.
  generalize HEADER_MAGIC. intros m.
  cbn [le_bytes app length skipn firstn]. repeat split.
Qed.

Lemma header_eta (h : packet_header) :
  h = {| magic := magic h; sequence_number := sequence_number h;
         first_sample_index := first_sample_index h;
         timestamp_microseconds := timestamp_microseconds h;
         frames_in_packet := frames_in_packet h;
         channels_in_packet := channels_in_packet h;
         bytes_per_sample_in_packet := bytes_per_sample_in_packet h;
         sample_rate_in_packet := sample_rate_in_packet h;
         format_id_in_packet := format_id_in_packet h |}.
Proof. destruct h. reflexivity. Qed.

Lemma parse_make_header
    (sequence first_sample timestamp frames channels bytes_per_sample sample_rate format_id : Z) :
  Combined.parse_header
    (make_header sequence first_sample timestamp frames channels bytes_per_sample
       sample_rate format_id)
  = {| magic := HEADER_MAGIC;
       sequence_number := sequence mod 2 ^ 32;
       first_sample_index := first_sample mod 2 ^ 64;
       timestamp_microseconds := timestamp mod 2 ^ 64;
       frames_in_packet := frames mod 2 ^ 16;
       channels_in_packet := channels mod 2 ^ 8;
       bytes_per_sample_in_packet := bytes_per_sample mod 2 ^ 8;
       sample_rate_in_packet := sample_rate mod 2 ^ 32;
       format_id_in_packet := format_id mod 2 ^ 16 |}.
Proof.
  pose proof (make_header_slices sequence first_sample timestamp frames channels
                bytes_per_sample sample_rate format_id)
    as (Hlen & S0 & S4 & S8 & S16 & S24 & S26 & S27 & S28 & S32).
  pose proof (combined_parse_header_spec _ Hlen)
    as (Hm & Hs & Hf & Ht & Hfr & Hc & Hb & Hr & Hfo).
  rewrite (header_eta (Combined.parse_header _)).
  rewrite Hm, Hs, Hf, Ht, Hfr, Hc, Hb, Hr, Hfo.
  rewrite S0, S4, S8, S16, S24, S26, S27, S28, S32.
  rewrite !le_value_le_bytes. reflexivity.
Qed.

(** X9.  What [sendPacketTCP] puts on the wire the receivers read back: the
    header is 34 bytes, and the combined and the fixed receiver recover
    the magic, the sequence number, the first sample index, the timestamp
    and the frame count of the call, together with one channel, four
    bytes per sample, 48000 Hz and format 1; the payload they then ask
    for is four bytes per frame.  The draft recovers the frame count and
    the sample index and takes the sample index for the timestamp. *)
Theorem streamer_header_round_trip (seq_ first_sample_index_ timestamp_us frames : Z) :
  in_uint32 seq_ ->
  0 <= first_sample_index_ < 2 ^ 64 ->
  0 <= timestamp_us < 2 ^ 64 ->
  0 <= frames < 2 ^ 16 ->
  let header := Streamer.build_header seq_ first_sample_index_ timestamp_us frames in
  length header = HEADER_SIZE /\
  Combined.parse_header header
  = {| magic := HEADER_MAGIC;
       sequence_number := seq_;
       first_sample_index := first_sample_index_;
       timestamp_microseconds := timestamp_us;
       frames_in_packet := frames;
       channels_in_packet := 1;
       bytes_per_sample_in_packet := 4;
       sample_rate_in_packet := 48000;
       format_id_in_packet := 1 |} /\
  Fixed.parse_header header = Combined.parse_header header /\
  Combined.payload_bytes_of (Combined.parse_header header) = 4 * frames /\
  frames_in_packet (Draft.parse_header header) = frames /\
  first_sample_index (Draft.parse_header header) = first_sample_index_ /\
  timestamp_microseconds (Draft.parse_header header) = first_sample_index_.
Proof.
  intros Hs Hf Ht Hfr header. subst header. rewrite build_header_wire.
  pose proof (make_header_slices seq_ first_sample_index_ timestamp_us frames
                Streamer.CHANNELS Streamer.BYTES_PER_SAMPLE Streamer.SAMPLE_RATE
                FORMAT_INT32_LEFT24) as (Hlen & _ & _ & S8 & _ & S24 & _).
  pose proof (draft_parse_header_spec _ Hlen) as (_ & Df & Dfr & _).
  assert (Hparse : Combined.parse_header
                     (make_header seq_ first_sample_index_ timestamp_us frames
                        Streamer.CHANNELS Streamer.BYTES_PER_SAMPLE Streamer.SAMPLE_RATE
                        FORMAT_INT32_LEFT24)
                   = {| magic := HEADER_MAGIC; sequence_number := seq_;
                        first_sample_index := first_sample_index_;
                        timestamp_microseconds := timestamp_us;
                        frames_in_packet := frames; channels_in_packet := 1;
                        bytes_per_sample_in_packet := 4; sample_rate_in_packet := 48000;
                        format_id_in_packet := 1 |}).
  { rewrite parse_make_header. unfold in_uint32 in Hs.
    rewrite (Z.mod_small seq_), (Z.mod_small first_sample_index_),
      (Z.mod_small timestamp_us), (Z.mod_small frames) by assumption.
    reflexivity. }
  split; [exact Hlen|]. split; [exact Hparse|]. split; [reflexivity|].
  split; [|split; [|split]].
  - rewrite Hparse. unfold Combined.payload_bytes_of.
    cbn [frames_in_packet channels_in_packet bytes_per_sample_in_packet].
    rewrite payload_bytes_exact by (change (2 ^ 16) with 65536 in Hfr; lia). lia.
  - rewrite Dfr, S24, le_value_le_bytes. apply Z.mod_small. exact Hfr.
  - rewrite Df, S8, le_value_le_bytes. apply Z.mod_small. exact Hf.
  - rewrite draft_timestamp_is_sample_index, Df, S8, le_value_le_bytes.
    apply Z.mod_small. exact Hf.
Qed.

Lemma streamer_header_round_trip_witness :
  sequence_number (Combined.parse_header (Streamer.build_header 70000 96000 5 1024)) = 70000 /\
  timestamp_microseconds (Draft.parse_header (Streamer.build_header 70000 96000 5 1024))
  = 96000.
Proof.
  assert (H1 : in_uint32 70000) by (unfold in_uint32; lia).
  assert (H2 : 0 <= 96000 < 2 ^ 64) by lia.
  assert (H3 : 0 <= 5 < 2 ^ 64) by lia.
  assert (H4 : 0 <= 1024 < 2 ^ 16) by lia.
  destruct (streamer_header_round_trip 70000 96000 5 1024 H1 H2 H3 H4)
    as (_ & Hp & _ & _ & _ & _ & Ht).
  split; [rewrite Hp; reflexivity|exact Ht].
Defined.

(* ================================================================== *)
(** * Further properties: one turn of the packet loop                  *)
(* ================================================================== *)

Lemma recv_all_true (sock sock' : socket) (n : nat) (buf : list byte) :
  Combined.recv_all sock n = Some (true, buf, sock') ->
  length buf = n /\ socket_data sock = buf ++ socket_data sock'.
Proof.
  intros H. destruct (recv_all_spec sock n) as (buf0 & sock0 & Hrun & Hok).
  rewrite H in Hrun. injection Hrun as Hd Hb Hs. subst buf0 sock0.
  destruct (Hok (eq_sym Hd)) as (_ & Hdata & Hlen). split; assumption.
Qed.

Lemma combined_convert_frames_reads (payload : list byte) (h : packet_header) (g : double) :
  forall (indices : list nat) (output result : list byte),
    Combined.convert_frames indices payload h g output = Some result ->
    length result = (length output + 3 * length indices)%nat /\
    Forall (fun i =>
              Combined.le_bytes_to_int32 payload
                (Z.to_nat (to_size_t (to_size_t (Z.of_nat i * bytes_per_sample_in_packet h)
                                      * channels_in_packet h))) <> None) indices.
Proof.
  intros indices. induction indices as [|i later IH]; intros output result Hrun.
  - cbn in Hrun. injection Hrun as <-. split; [cbn; lia|constructor].
  - cbn [Combined.convert_frames] in Hrun.
    destruct (Combined.le_bytes_to_int32 payload _) as [s|] eqn:Hs; [|discriminate].
    destruct (Combined.convert_sample s g) as [three|] eqn:Hthree; [|discriminate].
    destruct (IH _ _ Hrun) as [Hlen Hall]. split.
    + rewrite Hlen, length_app, (length_convert_sample s g three) by (left; exact Hthree).
      cbn [length]. lia.
    + constructor; [rewrite Hs; discriminate|exact Hall].
Qed.

Lemma fixed_sample_at_eq (payload : list byte) (base : nat) :
  Fixed.sample_at payload base = Combined.le_bytes_to_int32 payload base.
Proof. unfold Fixed.sample_at, Combined.le_bytes_to_int32. rewrite Nat.add_0_r. reflexivity. Qed.

Lemma fixed_convert_frames_reads (payload : list byte) (g : double) :
  forall (indices : list nat) (output result : list byte),
    Fixed.convert_frames indices payload g output = Some result ->
    length result = (length output + 3 * length indices)%nat /\
    Forall (fun i => Fixed.sample_at payload (Z.to_nat (to_size_t (Z.of_nat i * 4))) <> None)
      indices.
Proof.
  intros indices. induction indices as [|i later IH]; intros output result Hrun.
  - cbn in Hrun. injection Hrun as <-. split; [cbn; lia|constructor].
  - cbn [Fixed.convert_frames] in Hrun.
    destruct (Fixed.sample_at payload _) as [s|] eqn:Hs; [|discriminate].
    destruct (Fixed.convert_sample s g) as [three|] eqn:Hthree; [|discriminate].
    destruct (IH _ _ Hrun) as [Hlen Hall]. split.
    + rewrite Hlen, length_app, (length_convert_sample s g three)
        by (right; left; exact Hthree).
      cbn [length]. lia.
    + constructor; [rewrite Hs; discriminate|exact Hall].
Qed.

Lemma combined_convert_frames_narrow (payload : list byte) (h : packet_header) (g : double) :
  0 < frames_in_packet h < 65536 ->
  0 <= channels_in_packet h < 256 ->
  0 <= bytes_per_sample_in_packet h < 256 ->
  channels_in_packet h * bytes_per_sample_in_packet h < 4 ->
  Z.of_nat (length payload)
  = frames_in_packet h * channels_in_packet h * bytes_per_sample_in_packet h ->
  Combined.convert_frames (seq 0 (Z.to_nat (frames_in_packet h))) payload h g [] = None.
Proof.
  intros Hf Hc Hb Hnarrow Hlen.
  destruct (Combined.convert_frames _ _ _ _ _) as [result|] eqn:E; [exfalso|reflexivity].
  apply combined_convert_frames_reads in E. destruct E as [_ Hall].
  rewrite Forall_forall in Hall.
  apply (Hall (Z.to_nat (frames_in_packet h) - 1)%nat); [apply in_seq; lia|].
  apply le_bytes_to_int32_none.
  set (i := Z.of_nat (Z.to_nat (frames_in_packet h) - 1)).
  assert (Hi : i = frames_in_packet h - 1) by (subst i; lia).
  unfold to_size_t, to_uint64. change (2 ^ 64) with 18446744073709551616.
  rewrite (Z.mod_small (i * bytes_per_sample_in_packet h)) by nia.
  assert (Hp : 0 <= i * bytes_per_sample_in_packet h < 65536 * 256) by nia.
  rewrite Z.mod_small by nia.
  apply Nat2Z.inj_lt. rewrite Nat2Z.inj_add, Z2Nat.id by nia.
  rewrite Hlen, Hi.
  replace (frames_in_packet h * channels_in_packet h * bytes_per_sample_in_packet h)
    with (frames_in_packet h * (channels_in_packet h * bytes_per_sample_in_packet h)) by ring.
  replace ((frames_in_packet h - 1) * bytes_per_sample_in_packet h * channels_in_packet h)
    with ((frames_in_packet h - 1) * (channels_in_packet h * bytes_per_sample_in_packet h))
    by ring.
  revert Hnarrow. generalize (channels_in_packet h * bytes_per_sample_in_packet h).
  intros c Hnarrow. change (Z.of_nat 4) with 4. nia.
Qed.

Lemma fixed_convert_frames_narrow (payload : list byte) (g : double) (frames width : Z) :
  0 < frames < 65536 ->
  width < 4 ->
  Z.of_nat (length payload) = frames * width ->
  Fixed.convert_frames (seq 0 (Z.to_nat frames)) payload g [] = None.
Proof.
  intros Hf Hnarrow Hlen.
  destruct (Fixed.convert_frames _ _ _ _) as [result|] eqn:E; [exfalso|reflexivity].
  apply fixed_convert_frames_reads in E. destruct E as [_ Hall].
  rewrite Forall_forall in Hall.
  apply (Hall (Z.to_nat frames - 1)%nat); [apply in_seq; lia|].
  rewrite fixed_sample_at_eq. apply le_bytes_to_int32_none.
  unfold to_size_t, to_uint64. change (2 ^ 64) with 18446744073709551616.
  rewrite Z.mod_small by lia.
  apply Nat2Z.inj_lt. rewrite Nat2Z.inj_add, Z2Nat.id by lia.
  rewrite Hlen. change (Z.of_nat 4) with 4. nia.
Qed.

(** X10.  A packet whose frame is narrower than four bytes makes the receiver
    read past the payload it has received.  The header is well formed and
    announces [frames * channels * bytes_per_sample > 0] payload bytes with
    [channels * bytes_per_sample < 4] (16-bit or 24-bit mono, say); the
    payload arrives in full; the conversion loop of the combined and of
    the fixed receiver then reads four bytes for the last frame, of which
    at least one lies behind the payload buffer.  [validate_header_basics]
    prints a warning and lets the packet through. *)
Theorem narrow_frames_read_past_payload
    (w : world) (client client' client'' : socket) (header payload : list byte) :
  Combined.recv_all client HEADER_SIZE = Some (true, header, client') ->
  le_value (slice 0 4 header) = HEADER_MAGIC ->
  let frames := le_value (slice 24 2 header) in
  let channels := le_value (slice 26 1 header) in
  let bytes_per_sample := le_value (slice 27 1 header) in
  0 < frames * channels * bytes_per_sample ->
  channels * bytes_per_sample < 4 ->
  Combined.recv_all client' (Z.to_nat (frames * channels * bytes_per_sample))
  = Some (true, payload, client'') ->
  Combined.packet w client = Undefined /\ Fixed.packet w client = Undefined.
Proof.
  intros Hrecv Hmagic frames channels bytes_per_sample Hpos Hnarrow Hpay.
  destruct (header_received _ _ _ Hrecv) as [Hlen _].
  pose proof (combined_parse_header_spec header Hlen)
    as (Hm & _ & _ & _ & Hfr & Hch & Hbps & _).
  pose proof (payload_bytes_of_spec header Hlen) as (Hc & Hf & _).
  unfold Fixed.parse_header in Hf.
  fold frames channels bytes_per_sample in Hc, Hf, Hfr, Hch, Hbps.
  pose proof (frames_range header) as Rf. rewrite Hfr in Rf.
  assert (Rc : 0 <= channels < 256) by (rewrite <- Hch; apply byte_to_Z_range).
  assert (Rb : 0 <= bytes_per_sample < 256) by (rewrite <- Hbps; apply byte_to_Z_range).
  assert (Hfpos : 0 < frames) by nia.
  assert (Hg : Combined.suspicious_number_of_frames (Combined.parse_header header) = false)
    by (apply frame_guard_passes; rewrite Hc; lia).
  destruct (recv_all_true _ _ _ _ Hpay) as [Hplen _].
  assert (Hplen' : Z.of_nat (length payload) = frames * channels * bytes_per_sample)
    by (rewrite Hplen; lia).
  split.
  - unfold Combined.packet. rewrite Hrecv, Hm, Hmagic, Hc, Hg, Hpay.
    replace (frames * channels * bytes_per_sample =? 0) with false
      by (symmetry; apply Z.eqb_neq; lia).
    rewrite Z.eqb_refl. cbn [negb].
    rewrite combined_convert_frames_narrow; [reflexivity| | | | |];
      rewrite ?Hfr, ?Hch, ?Hbps; lia.
  - unfold Fixed.packet, Fixed.recv_all, Fixed.parse_header.
    rewrite Hrecv, Hm, Hmagic, Hf, Hpay.
    replace (frames * channels * bytes_per_sample =? 0) with false
      by (symmetry; apply Z.eqb_neq; lia).
    rewrite Z.eqb_refl. cbn [negb]. rewrite Hfr.
    rewrite (fixed_convert_frames_narrow payload _ frames (channels * bytes_per_sample));
      [reflexivity|lia|exact Hnarrow|lia].
Qed.

Lemma narrow_frames_read_past_payload_witness :
  Combined.packet (initial_world 1000)
    [Chunk (make_header 1 0 0 2 1 2 48000 1); Chunk [x01; x02; x03; x04]] = Undefined /\
  Fixed.packet (initial_world 1000)
    [Chunk (make_header 1 0 0 2 1 2 48000 1); Chunk [x01; x02; x03; x04]] = Undefined.
Proof.
  apply (narrow_frames_read_past_payload (initial_world 1000)
           [Chunk (make_header 1 0 0 2 1 2 48000 1); Chunk [x01; x02; x03; x04]]
           [Chunk [x01; x02; x03; x04]] [] (make_header 1 0 0 2 1 2 48000 1)
           [x01; x02; x03; x04]).
  - reflexivity.
  - reflexivity.
  - vm_compute. reflexivity.
  - vm_compute. reflexivity.
  - reflexivity.
Defined.

Lemma fwrite_nil (f : FILE) : fwrite_ [] f = f.
Proof. unfold fwrite_, fwrite. rewrite firstn_nil. reflexivity. Qed.

(** What a turn of the packet loop of the combined receiver can end in. *)
Lemma combined_packet_cases (w : world) (client : socket) :
  match Combined.packet w client with
  | Continue w' client' =>
      exists header payload,
        length header = 34%nat /\
        le_value (slice 0 4 header) = HEADER_MAGIC /\
        socket_data client = header ++ payload ++ socket_data client' /\
        Z.of_nat (length payload)
        = le_value (slice 24 2 header) * le_value (slice 26 1 header)
          * le_value (slice 27 1 header) /\
        ((payload = [] /\ w' = w) \/
         (exists out,
            0 < le_value (slice 24 2 header) <= Z.of_nat (length payload) /\
            Combined.convert_frames (seq 0 (Z.to_nat (le_value (slice 24 2 header)))) payload
              (Combined.parse_header header) (global_makeup_gain w) [] = Some out /\
            Z.of_nat (length out) = 3 * le_value (slice 24 2 header) /\
            w' = publish (fwrite_ out (output_wav_file w)) (le_value (slice 24 2 header))
                   (le_value (slice 8 8 header)) (le_value (slice 4 4 header)) w))
  | Break _ w' _ => w' = w
  | Undefined => True
  | OutOfFuel => False
  end.
Proof.
  unfold Combined.packet.
  destruct (Combined.recv_all client HEADER_SIZE) as [[[ok header] client']|] eqn:Hrecv.
  2:{ exact (recv_all_returns _ _ Hrecv). }
  destruct ok; [|reflexivity].
  destruct (header_received _ _ _ Hrecv) as [Hlen Hdata].
  pose proof (combined_parse_header_spec header Hlen)
    as (Hm & Hs & Hfi & _ & Hfr & Hch & Hbps & _).
  pose proof (payload_bytes_of_spec header Hlen) as (Hc & _).
  pose proof (frames_range header) as Rf. rewrite Hfr in Rf.
  assert (Rc : 0 <= le_value (slice 26 1 header) < 256)
    by (rewrite <- Hch; apply byte_to_Z_range).
  assert (Rb : 0 <= le_value (slice 27 1 header) < 256)
    by (rewrite <- Hbps; apply byte_to_Z_range).
  cbv zeta. rewrite Hm, Hc, Hfr, Hs, Hfi.
  destruct (Z.eqb_spec (le_value (slice 0 4 header)) HEADER_MAGIC) as [Hmagic|Hmagic];
    [|reflexivity].
  cbn [negb].
  set (frames := le_value (slice 24 2 header)) in *.
  set (channels := le_value (slice 26 1 header)) in *.
  set (bytes_per_sample := le_value (slice 27 1 header)) in *.
  destruct (Z.eqb_spec (frames * channels * bytes_per_sample) 0) as [Hz|Hnz].
  - exists header, []. cbn [app length]. repeat split; try assumption; try lia.
    left. split; reflexivity.
  - destruct (Combined.suspicious_number_of_frames _); [reflexivity|].
    destruct (Combined.recv_all client' _) as [[[ok2 payload] client'']|] eqn:Hpay.
    2:{ exact (recv_all_returns _ _ Hpay). }
    destruct ok2; [|reflexivity].
    destruct (recv_all_true _ _ _ _ Hpay) as [Hplen Hpdata].
    destruct (Combined.convert_frames _ _ _ _ _) as [out|] eqn:E; [|exact I].
    assert (Hprod : 0 < frames * channels * bytes_per_sample) by nia.
    assert (Hwidth : 1 <= channels * bytes_per_sample) by nia.
    exists header, payload. split; [exact Hlen|]. split; [exact Hmagic|].
    split; [rewrite Hdata, Hpdata; reflexivity|].
    split; [rewrite Hplen; lia|].
    right. exists out. split; [rewrite Hplen; nia|]. split; [exact E|].
    split; [|reflexivity].
    apply combined_convert_frames_reads in E. destruct E as [E _].
    rewrite E, length_seq. cbn [length]. lia.
Qed.

Lemma fixed_packet_cases (w : world) (client : socket) :
  match Fixed.packet w client with
  | Continue w' client' =>
      exists header payload,
        length header = 34%nat /\
        le_value (slice 0 4 header) = HEADER_MAGIC /\
        socket_data client = header ++ payload ++ socket_data client' /\
        Z.of_nat (length payload)
        = le_value (slice 24 2 header) * le_value (slice 26 1 header)
          * le_value (slice 27 1 header) /\
        ((payload = [] /\ w' = w) \/
         (exists out,
            0 < le_value (slice 24 2 header) <= Z.of_nat (length payload) /\
            Fixed.convert_frames (seq 0 (Z.to_nat (le_value (slice 24 2 header)))) payload
              (global_makeup_gain w) [] = Some out /\
            Z.of_nat (length out) = 3 * le_value (slice 24 2 header) /\
            w' = publish (fwrite_ out (output_wav_file w)) (le_value (slice 24 2 header))
                   (le_value (slice 8 8 header)) (le_value (slice 4 4 header)) w))
  | Break _ w' _ => w' = w
  | Undefined => True
  | OutOfFuel => False
  end.
Proof.
  unfold Fixed.packet, Fixed.recv_all, Fixed.parse_header.
  destruct (Combined.recv_all client HEADER_SIZE) as [[[ok header] client']|] eqn:Hrecv.
  2:{ exact (recv_all_returns _ _ Hrecv). }
  destruct ok; [|reflexivity].
  destruct (header_received _ _ _ Hrecv) as [Hlen Hdata].
  pose proof (combined_parse_header_spec header Hlen)
    as (Hm & Hs & Hfi & _ & Hfr & Hch & Hbps & _).
  pose proof (payload_bytes_of_spec header Hlen) as (_ & Hc & _).
  unfold Fixed.parse_header in Hc.
  pose proof (frames_range header) as Rf. rewrite Hfr in Rf.
  assert (Rc : 0 <= le_value (slice 26 1 header) < 256)
    by (rewrite <- Hch; apply byte_to_Z_range).
  assert (Rb : 0 <= le_value (slice 27 1 header) < 256)
    by (rewrite <- Hbps; apply byte_to_Z_range).
  cbv zeta. rewrite Hm, Hc, Hfr, Hs, Hfi.
  destruct (Z.eqb_spec (le_value (slice 0 4 header)) HEADER_MAGIC) as [Hmagic|Hmagic];
    [|reflexivity].
  cbn [negb].
  set (frames := le_value (slice 24 2 header)) in *.
  set (channels := le_value (slice 26 1 header)) in *.
  set (bytes_per_sample := le_value (slice 27 1 header)) in *.
  destruct (Z.eqb_spec (frames * channels * bytes_per_sample) 0) as [Hz|Hnz].
  - exists header, []. cbn [app length]. repeat split; try assumption; try lia.
    left. split; reflexivity.
  - destruct (Combined.recv_all client' _) as [[[ok2 payload] client'']|] eqn:Hpay.
    2:{ exact (recv_all_returns _ _ Hpay). }
    destruct ok2; [|reflexivity].
    destruct (recv_all_true _ _ _ _ Hpay) as [Hplen Hpdata].
    destruct (Fixed.convert_frames _ _ _ _) as [out|] eqn:E; [|exact I].
    assert (Hprod : 0 < frames * channels * bytes_per_sample) by nia.
    assert (Hwidth : 1 <= channels * bytes_per_sample) by nia.
    exists header, payload. split; [exact Hlen|]. split; [exact Hmagic|].
    split; [rewrite Hdata, Hpdata; reflexivity|].
    split; [rewrite Hplen; lia|].
    right. exists out. split; [rewrite Hplen; nia|]. split; [exact E|].
    split; [|reflexivity].
    apply fixed_convert_frames_reads in E. destruct E as [E _].
    rewrite E, length_seq. cbn [length]. lia.
Qed.

(** X11.  A turn of the packet loop that goes on has taken exactly one packet
    from the connection: the 34 header bytes with the right magic and the
    [frames * channels * bytes_per_sample] payload bytes the header
    announces.  With an empty payload nothing else changes.  Otherwise
    three bytes per frame go to the output file in one [fwrite], the
    sample count grows by the frame count, and the sequence number and the
    index of the last sample of the packet are published; the gain, the
    run flag and the connection log stay. *)
Theorem turn_consumes_one_packet (w w' : world) (client client' : socket) :
  Combined.packet w client = Continue w' client' \/
  Fixed.packet w client = Continue w' client' ->
  exists header payload : list byte,
    let frames := le_value (slice 24 2 header) in
    socket_data client = header ++ payload ++ socket_data client' /\
    length header = HEADER_SIZE /\
    le_value (slice 0 4 header) = HEADER_MAGIC /\
    Z.of_nat (length payload)
    = frames * le_value (slice 26 1 header) * le_value (slice 27 1 header) /\
    (payload = [] -> w' = w) /\
    (payload <> [] ->
     exists out : list byte,
       Z.of_nat (length out) = 3 * frames /\
       output_wav_file w' = fwrite_ out (output_wav_file w) /\
       global_total_samples_written_count w'
       = to_int32 (global_total_samples_written_count w + frames) /\
       global_highest_received_sample_index w'
       = to_uint64 (le_value (slice 8 8 header) + frames - 1) /\
       global_last_received_sequence w' = le_value (slice 4 4 header) /\
       global_makeup_gain w' = global_makeup_gain w /\
       global_should_run w' = global_should_run w /\
       trace w' = trace w).
Proof.
  intros H.
  assert (Hcases :
    exists header payload,
      length header = 34%nat /\
      le_value (slice 0 4 header) = HEADER_MAGIC /\
      socket_data client = header ++ payload ++ socket_data client' /\
      Z.of_nat (length payload)
      = le_value (slice 24 2 header) * le_value (slice 26 1 header)
        * le_value (slice 27 1 header) /\
      ((payload = [] /\ w' = w) \/
       (exists out,
          0 < le_value (slice 24 2 header) <= Z.of_nat (length payload) /\
          Z.of_nat (length out) = 3 * le_value (slice 24 2 header) /\
          w' = publish (fwrite_ out (output_wav_file w)) (le_value (slice 24 2 header))
                 (le_value (slice 8 8 header)) (le_value (slice 4 4 header)) w))).
  { destruct H as [H|H].
    - pose proof (combined_packet_cases w client) as Hc. rewrite H in Hc.
      destruct Hc as (header & payload & H1 & H2 & H3 & H4 & [H5|(out & H5 & _ & H6 & H7)]);
        exists header, payload; repeat split; try assumption;
        [left; exact H5|right; exists out; repeat split; try assumption; apply H5].
    - pose proof (fixed_packet_cases w client) as Hc. rewrite H in Hc.
      destruct Hc as (header & payload & H1 & H2 & H3 & H4 & [H5|(out & H5 & _ & H6 & H7)]);
        exists header, payload; repeat split; try assumption;
        [left; exact H5|right; exists out; repeat split; try assumption; apply H5]. }
  destruct Hcases as (header & payload & Hlen & Hmagic & Hdata & Hplen & Heffect).
  exists header, payload. cbv zeta.
  split; [exact Hdata|]. split; [exact Hlen|]. split; [exact Hmagic|]. split; [exact Hplen|].
  destruct Heffect as [[Hempty Hsame]|(out & Hfr & Hout & Hw)].
  - split; [intros _; exact Hsame|]. intros Hne. contradiction.
  - split.
    + intros Hempty. rewrite Hempty in Hfr. cbn [length] in Hfr. lia.
    + intros _. exists out. rewrite Hw. repeat split. exact Hout.
Qed.

Lemma turn_consumes_one_packet_witness :
  exists header payload : list byte,
    socket_data [Chunk two_mono_frames_header; Chunk two_mono_frames_payload]
    = header ++ payload ++ socket_data [] /\
    length header = HEADER_SIZE /\
    Z.of_nat (length payload)
    = le_value (slice 24 2 header) * le_value (slice 26 1 header)
      * le_value (slice 27 1 header).
Proof.
  destruct (turn_consumes_one_packet (initial_world 1000)
              (publish {| content := [x01; x00; x00; xfe; xff; xff];
                          position := 6; space := 994 |} 2 4800 1 (initial_world 1000))
              [Chunk two_mono_frames_header; Chunk two_mono_frames_payload] [])
    as (header & payload & Hdata & Hlen & _ & Hplen & _).
  - left. vm_compute. reflexivity.
  - exists header, payload. repeat split; assumption.
Defined.

(* ================================================================== *)
(** * Further properties: a connection                                 *)
(* ================================================================== *)

Lemma to_int32_small (x : Z) : 0 <= x <= INT32_MAX -> to_int32 x = x.
Proof.
  intros H. apply to_int32_id. unfold in_int32, INT32_MIN, INT32_MAX in *. lia.
Qed.

Lemma socket_bytes_split (client client' : socket) (header payload : list byte) :
  socket_data client = header ++ payload ++ socket_data client' ->
  Z.of_nat (socket_bytes client)
  = Z.of_nat (length header) + Z.of_nat (length payload) + Z.of_nat (socket_bytes client').
Proof.
  intros H. rewrite !socket_bytes_data, H, !length_app. lia.
Qed.

(** The packet loop of the combined receiver, from any state in which the
    stream of the output file is at its end. *)
Lemma combined_packet_loop_session (fuel : nat) :
  forall (w : world) (client : socket),
    at_end (output_wav_file w) ->
    0 <= global_total_samples_written_count w ->
    global_total_samples_written_count w + Z.of_nat (socket_bytes client) <= INT32_MAX ->
    match Combined.packet_loop fuel w client with
    | Exited _ w' client' | Stopped w' client' =>
        exists audio : list byte,
          output_wav_file w' = fwrite_ audio (output_wav_file w) /\
          Z.of_nat (length audio)
          = 3 * (global_total_samples_written_count w'
                 - global_total_samples_written_count w) /\
          global_total_samples_written_count w <= global_total_samples_written_count w' /\
          global_total_samples_written_count w'
          <= global_total_samples_written_count w + Z.of_nat (socket_bytes client) /\
          global_makeup_gain w' = global_makeup_gain w /\
          global_should_run w' = global_should_run w /\
          trace w' = trace w
    | LoopUndefined | LoopOutOfFuel => True
    end.
Proof.
  induction fuel as [|fuel IH]; intros w client Hend Hk Hmax.
  - cbn [Combined.packet_loop]. destruct (global_should_run w) eqn:Hrun; [exact I|].
    exists []. rewrite fwrite_nil. cbn [length]. repeat split; try assumption; lia.
  - cbn [Combined.packet_loop]. destruct (global_should_run w) eqn:Hrun.
    2:{ exists []. rewrite fwrite_nil. cbn [length]. repeat split; try assumption; lia. }
    pose proof (combined_packet_cases w client) as Hc.
    destruct (Combined.packet w client) as [w1 client1|ok w1 client1| |]; [| |exact I|exact I].
    + destruct Hc as (header & payload & Hlen & _ & Hdata & Hplen & Heffect).
      pose proof (socket_bytes_split _ _ _ _ Hdata) as Hbytes. rewrite Hlen in Hbytes.
      destruct Heffect as [[Hempty ->]|(out & Hfr & _ & Hout & ->)].
      * specialize (IH w client1 Hend Hk ltac:(lia)).
        destruct (Combined.packet_loop fuel w client1) as [ok w' client'|w' client'| |];
          try exact I;
          destruct IH as (audio & Hf & Ha & Hle & Hb & Hg & Hr & Ht);
          exists audio; repeat split; first [assumption|congruence|lia].
      * set (frames := le_value (slice 24 2 header)) in *.
        set (w1 := publish (fwrite_ out (output_wav_file w)) frames
                     (le_value (slice 8 8 header)) (le_value (slice 4 4 header)) w).
        assert (Hcount : global_total_samples_written_count w1
                         = global_total_samples_written_count w + frames).
        { subst w1. cbn [publish global_total_samples_written_count].
          apply to_int32_small. lia. }
        assert (Hend1 : at_end (output_wav_file w1))
          by (subst w1; cbn [publish output_wav_file]; apply fwrite_at_end_keeps, Hend).
        specialize (IH w1 client1 Hend1 ltac:(lia) ltac:(lia)).
        destruct (Combined.packet_loop fuel w1 client1) as [ok w' client'|w' client'| |];
          try exact I;
          destruct IH as (audio & Hf & Ha & Hle & Hb & Hg & Hr & Ht);
          exists (out ++ audio);
          (split; [rewrite Hf; subst w1; cbn [publish output_wav_file];
                   apply fwrite_fwrite, Hend|]);
          rewrite length_app, Nat2Z.inj_add;
          repeat split; first [assumption|congruence|lia|rewrite Hr; exact Hrun].
    + subst w1. exists []. rewrite fwrite_nil. cbn [length].
      repeat split; first [assumption|lia].
Qed.

Lemma fixed_packet_loop_session (fuel : nat) :
  forall (w : world) (client : socket),
    at_end (output_wav_file w) ->
    0 <= global_total_samples_written_count w ->
    global_total_samples_written_count w + Z.of_nat (socket_bytes client) <= INT32_MAX ->
    match Fixed.packet_loop fuel w client with
    | Exited _ w' client' | Stopped w' client' =>
        exists audio : list byte,
          output_wav_file w' = fwrite_ audio (output_wav_file w) /\
          Z.of_nat (length audio)
          = 3 * (global_total_samples_written_count w'
                 - global_total_samples_written_count w) /\
          global_total_samples_written_count w <= global_total_samples_written_count w' /\
          global_total_samples_written_count w'
          <= global_total_samples_written_count w + Z.of_nat (socket_bytes client) /\
          global_makeup_gain w' = global_makeup_gain w /\
          global_should_run w' = global_should_run w /\
          trace w' = trace w
    | LoopUndefined | LoopOutOfFuel => True
    end.
Proof.
  induction fuel as [|fuel IH]; intros w client Hend Hk Hmax.
  - cbn [Fixed.packet_loop]. destruct (global_should_run w) eqn:Hrun; [exact I|].
    exists []. rewrite fwrite_nil. cbn [length]. repeat split; try assumption; lia.
  - cbn [Fixed.packet_loop]. destruct (global_should_run w) eqn:Hrun.
    2:{ exists []. rewrite fwrite_nil. cbn [length]. repeat split; try assumption; lia. }
    pose proof (fixed_packet_cases w client) as Hc.
    destruct (Fixed.packet w client) as [w1 client1|ok w1 client1| |]; [| |exact I|exact I].
    + destruct Hc as (header & payload & Hlen & _ & Hdata & Hplen & Heffect).
      pose proof (socket_bytes_split _ _ _ _ Hdata) as Hbytes. rewrite Hlen in Hbytes.
      destruct Heffect as [[Hempty ->]|(out & Hfr & _ & Hout & ->)].
      * specialize (IH w client1 Hend Hk ltac:(lia)).
        destruct (Fixed.packet_loop fuel w client1) as [ok w' client'|w' client'| |];
          try exact I;
          destruct IH as (audio & Hf & Ha & Hle & Hb & Hg & Hr & Ht);
          exists audio; repeat split; first [assumption|congruence|lia].
      * set (frames := le_value (slice 24 2 header)) in *.
        set (w1 := publish (fwrite_ out (output_wav_file w)) frames
                     (le_value (slice 8 8 header)) (le_value (slice 4 4 header)) w).
        assert (Hcount : global_total_samples_written_count w1
                         = global_total_samples_written_count w + frames).
        { subst w1. cbn [publish global_total_samples_written_count].
          apply to_int32_small. lia. }
        assert (Hend1 : at_end (output_wav_file w1))
          by (subst w1; cbn [publish output_wav_file]; apply fwrite_at_end_keeps, Hend).
        specialize (IH w1 client1 Hend1 ltac:(lia) ltac:(lia)).
        destruct (Fixed.packet_loop fuel w1 client1) as [ok w' client'|w' client'| |];
          try exact I;
          destruct IH as (audio & Hf & Ha & Hle & Hb & Hg & Hr & Ht);
          exists (out ++ audio);
          (split; [rewrite Hf; subst w1; cbn [publish output_wav_file];
                   apply fwrite_fwrite, Hend|]);
          rewrite length_app, Nat2Z.inj_add;
          repeat split; first [assumption|congruence|lia|rewrite Hr; exact Hrun].
    + subst w1. exists []. rewrite fwrite_nil. cbn [length].
      repeat split; first [assumption|lia].
Qed.

(** X12.  A connection is one append.  The packet loop of the combined and of
    the fixed receiver, started with the stream of the output file at the
    end of the file, always comes to an end; when it ends without an
    undefined conversion the file is the old file followed by the
    converted audio, cut where the device ran out of room, and the sample
    count has grown by a third of the length of the converted audio, also
    when part of it did not fit.  The gain, the run flag and the
    connection log are not touched. *)
Theorem connection_is_one_append (w : world) (client : socket) (ended : loop_end) :
  at_end (output_wav_file w) ->
  0 <= global_total_samples_written_count w ->
  global_total_samples_written_count w + Z.of_nat (socket_bytes client) <= INT32_MAX ->
  ended = Combined.packet_loop (S (socket_bytes client)) w client \/
  ended = Fixed.packet_loop (S (socket_bytes client)) w client ->
  match ended with
  | Exited _ w' _ | Stopped w' _ =>
      exists audio : list byte,
        content (output_wav_file w')
        = content (output_wav_file w) ++ firstn (space (output_wav_file w)) audio /\
        at_end (output_wav_file w') /\
        Z.of_nat (length audio)
        = 3 * (global_total_samples_written_count w'
               - global_total_samples_written_count w) /\
        global_makeup_gain w' = global_makeup_gain w /\
        global_should_run w' = global_should_run w /\
        trace w' = trace w
  | LoopUndefined => True
  | LoopOutOfFuel => False
  end.
Proof.
  intros Hend Hk Hmax Hended.
  pose proof (packet_loop_ends (S (socket_bytes client)) w client (Nat.lt_succ_diag_r _))
    as [Hce Hfe].
  pose proof (combined_packet_loop_session (S (socket_bytes client)) w client Hend Hk Hmax)
    as Hc.
  pose proof (fixed_packet_loop_session (S (socket_bytes client)) w client Hend Hk Hmax)
    as Hf.
  assert (Hstate : forall w' audio,
            output_wav_file w' = fwrite_ audio (output_wav_file w) ->
            content (output_wav_file w')
            = content (output_wav_file w) ++ firstn (space (output_wav_file w)) audio /\
            at_end (output_wav_file w')).
  { intros w' audio Hfile. split.
    - rewrite Hfile, fwrite_at_end by exact Hend. reflexivity.
    - rewrite Hfile. apply fwrite_at_end_keeps, Hend. }
  destruct Hended as [-> | ->].
  - destruct (Combined.packet_loop _ w client) as [ok w' client'|w' client'| |];
      [| |exact I|apply Hce; reflexivity];
      destruct Hc as (audio & Hfile & Ha & _ & _ & Hg & Hr & Ht);
      destruct (Hstate w' audio Hfile) as [Hcontent Hend'];
      exists audio; repeat split; assumption.
  - destruct (Fixed.packet_loop _ w client) as [ok w' client'|w' client'| |];
      [| |exact I|apply Hfe; reflexivity];
      destruct Hf as (audio & Hfile & Ha & _ & _ & Hg & Hr & Ht);
      destruct (Hstate w' audio Hfile) as [Hcontent Hend'];
      exists audio; repeat split; assumption.
Qed.

Lemma connection_is_one_append_witness :
  match Combined.packet_loop
          (S (socket_bytes [Chunk two_mono_frames_header; Chunk two_mono_frames_payload]))
          (initial_world 4)
          [Chunk two_mono_frames_header; Chunk two_mono_frames_payload] with
  | Exited _ w' _ | Stopped w' _ =>
      exists audio : list byte,
        content (output_wav_file w') = [] ++ firstn 4 audio /\
        at_end (output_wav_file w') /\
        Z.of_nat (length audio) = 3 * (global_total_samples_written_count w' - 0) /\
        global_makeup_gain w' = gain_1_0 /\
        global_should_run w' = true /\
        trace w' = []
  | LoopUndefined => True
  | LoopOutOfFuel => False
  end.
Proof.
  apply (connection_is_one_append (initial_world 4)
           [Chunk two_mono_frames_header; Chunk two_mono_frames_payload]).
  - reflexivity.
  - cbn. lia.
  - vm_compute. discriminate.
  - left. reflexivity.
Defined.

(* ================================================================== *)
(** * Further properties: the recorded file                            *)
(* ================================================================== *)

Lemma finalize_after_placeholder (audio : list byte) (pos room : nat) (N : Z) :
  (8 <= room)%nat ->
  content (Combined.finalize_wav_header
             {| content := wav_header 48000 1 0 0 ++ audio; position := pos; space := room |}
             (to_uint32 N) 1 48000)
  = wav_header 48000 1 (36 + 3 * N) (3 * N) ++ audio.
Proof.
  intros Hroom. rewrite finalize_wav_header_content by exact Hroom.
  destruct (size_fields_mod (to_uint32 N)) as [Hd Hr]. rewrite Hr, Hd.
  unfold to_uint32. rewrite Z.mul_mod_idemp_l by lia.
  assert (E : (4 + (8 + 16) + (8 + N mod 2 ^ 32 * 3)) mod 2 ^ 32 = (36 + 3 * N) mod 2 ^ 32).
  { rewrite (Z.mod_eq N (2 ^ 32)) by lia.
    replace (4 + (8 + 16) + (8 + (N - 2 ^ 32 * (N / 2 ^ 32)) * 3))
      with (36 + 3 * N + (- 3 * (N / 2 ^ 32)) * 2 ^ 32) by ring.
    apply Z.mod_add. lia. }
  rewrite E. change (2 ^ 32) with (256 ^ Z.of_nat 4). rewrite !le_bytes_mod.
  replace (N * 3) with (3 * N) by lia.
  cbn [content]. unfold wav_header, RIFF, WAVE, fmt_, data, store.
  cbn [le_bytes app length firstn skipn repeat Nat.sub Nat.add]. reflexivity.
Qed.

Lemma wav_header_fields (sample_rate channels riff_size data_bytes : Z) (audio : list byte) :
  slice 4 4 (wav_header sample_rate channels riff_size data_bytes ++ audio)
  = le_bytes 4 riff_size /\
  slice 40 4 (wav_header sample_rate channels riff_size data_bytes ++ audio)
  = le_bytes 4 data_bytes /\
  skipn 44 (wav_header sample_rate channels riff_size data_bytes ++ audio) = audio.
Proof.
  unfold wav_header, RIFF, WAVE, fmt_, data, slice.
  cbn [le_bytes app firstn skipn]. repeat split.
Qed.

(** X13.  The file a single connection leaves behind.  The combined receiver
    serves one client whose file can be opened, on a device with room for
    the recording, and the program ends.  The output file is then the
    44-byte header followed by the converted audio of that connection;
    the data size field holds three times the total sample count [N] and
    the RIFF size field [36 + 3 * N].  The count is not reset when a file
    is opened: with [k] samples counted before the connection the file
    holds [3 * (N - k)] bytes of audio, so the size fields are those of
    the file exactly when the count was zero at the connection. *)
Theorem single_connection_wav_file (w w' : world) (client : socket) :
  global_should_run w = true ->
  0 <= global_total_samples_written_count w ->
  global_total_samples_written_count w + Z.of_nat (socket_bytes client) <= 1431655753 ->
  (52 + 3 * socket_bytes client <= space (output_wav_file w))%nat ->
  Combined.tcp_audio_receiver_server_loop [Client client true] w = Some w' ->
  let N := global_total_samples_written_count w' in
  let final := content (output_wav_file (Combined.finalize_on_exit w')) in
  exists audio : list byte,
    final = wav_header 48000 1 (36 + 3 * N) (3 * N) ++ audio /\
    Z.of_nat (length audio) = 3 * (N - global_total_samples_written_count w) /\
    le_value (slice 40 4 final) = 3 * N /\
    le_value (slice 4 4 final) = 36 + 3 * N /\
    Z.of_nat (length final) = 44 + 3 * (N - global_total_samples_written_count w) /\
    trace w' = trace w ++ [Accepted; FileOpened; ClientClosed; FileClosed].
Proof.
  intros Hrun Hk Hmax Hroom Hloop N final.
  set (room := space (output_wav_file w)) in *.
  set (f0 := {| content := wav_header 48000 1 0 0; position := 44; space := room - 44 |}).
  assert (Hopen : Combined.open_output (note Accepted w) = (true, f0)).
  { unfold Combined.open_output. cbn [note output_wav_file].
    rewrite placeholder_on_fresh_file. fold room. subst f0.
    rewrite firstn_all2 by (rewrite length_wav_header; lia).
    rewrite Nat.min_r by lia. reflexivity. }
  set (w2 := note FileOpened (with_file (fseek_end f0) (note Accepted w))).
  assert (Hend2 : at_end (output_wav_file w2)) by reflexivity.
  pose proof (combined_packet_loop_session (S (socket_bytes client)) w2 client Hend2 Hk
                ltac:(unfold INT32_MAX; change (global_total_samples_written_count w2)
                        with (global_total_samples_written_count w); lia)) as Hsession.
  cbn [Combined.tcp_audio_receiver_server_loop] in Hloop.
  rewrite Hrun, Hopen in Hloop. fold w2 in Hloop.
  assert (Hw' : exists w3 audio,
            w' = note FileClosed (note ClientClosed w3) /\
            output_wav_file w3 = fwrite_ audio (output_wav_file w2) /\
            Z.of_nat (length audio)
            = 3 * (global_total_samples_written_count w3
                   - global_total_samples_written_count w) /\
            global_total_samples_written_count w3
            <= global_total_samples_written_count w + Z.of_nat (socket_bytes client) /\
            global_total_samples_written_count w <= global_total_samples_written_count w3 /\
            trace w3 = trace w2).
  { destruct (Combined.packet_loop (S (socket_bytes client)) w2 client)
      as [ok w3 client'|w3 client'| |]; try discriminate Hloop;
      destruct Hsession as (audio & Hf & Ha & Hle & Hb & _ & _ & Ht);
      exists w3, audio;
      (split; [destruct (global_should_run (note FileClosed (note ClientClosed w3)));
               injection Hloop as <-; reflexivity|]);
      repeat split; assumption. }
  destruct Hw' as (w3 & audio & -> & Hfile & Ha & Hb & Hle & Ht).
  assert (Hfits : (length audio <= room - 44)%nat) by lia.
  assert (Hf3 : output_wav_file w3
                = {| content := wav_header 48000 1 0 0 ++ audio;
                     position := 44 + length audio;
                     space := room - 44 - length audio |}).
  { rewrite Hfile, fwrite_at_end by exact Hend2.
    cbn [w2 note with_file output_wav_file fseek_end f0 content space].
    rewrite firstn_all2 by exact Hfits. rewrite length_wav_header. reflexivity. }
  assert (HN : N = global_total_samples_written_count w3) by reflexivity.
  assert (Hfinal : final = wav_header 48000 1 (36 + 3 * N) (3 * N) ++ audio).
  { subst final. unfold Combined.finalize_on_exit.
    cbn [with_file output_wav_file note]. rewrite Hf3.
    unfold fopen_rb, Combined.EXPECTED_CHANNEL_COUNT, Combined.EXPECTED_SAMPLE_RATE.
    cbn [content space].
    apply (finalize_after_placeholder audio 0 (room - 44 - length audio) N). lia. }
  exists audio.
  destruct (wav_header_fields 48000 1 (36 + 3 * N) (3 * N) audio) as (H4 & H40 & _).
  split; [exact Hfinal|]. split; [rewrite HN; exact Ha|].
  rewrite Hfinal, H4, H40, !le_value_le_bytes, length_app, length_wav_header.
  change (256 ^ Z.of_nat 4) with 4294967296.
  split; [apply Z.mod_small; lia|]. split; [apply Z.mod_small; lia|].
  split; [lia|].
  cbn [note trace]. rewrite Ht. cbn [w2 note with_file trace].
  rewrite <- !app_assoc. reflexivity.
Qed.

Lemma single_connection_wav_file_witness :
  exists audio : list byte,
    content (output_wav_file
               (Combined.finalize_on_exit
                  (publish {| content := wav_header 48000 1 0 0
                                         ++ [x01; x00; x00; xfe; xff; xff];
                              position := 50; space := 950 |} 2 4800 1
                     (note FileClosed (note ClientClosed (note FileOpened
                        (note Accepted (initial_world 1000))))))))
    = wav_header 48000 1 (36 + 3 * 2) (3 * 2) ++ audio /\
    Z.of_nat (length audio) = 3 * (2 - 0).
Proof.
  destruct (single_connection_wav_file (initial_world 1000)
              (publish {| content := wav_header 48000 1 0 0
                                     ++ [x01; x00; x00; xfe; xff; xff];
                          position := 50; space := 950 |} 2 4800 1
                 (note FileClosed (note ClientClosed (note FileOpened
                    (note Accepted (initial_world 1000))))))
              [Chunk two_mono_frames_header; Chunk two_mono_frames_payload])
    as (audio & Hfinal & Hlen & _).
  - reflexivity.
  - cbn. lia.
  - vm_compute. discriminate.
  - vm_compute. lia.
  - vm_compute. reflexivity.
  - exists audio. split; [exact Hfinal|exact Hlen].
Defined.

(* ================================================================== *)
(** * Further properties: the accept loop                              *)
(* ================================================================== *)

Lemma combined_packet_loop_trace (fuel : nat) :
  forall (w : world) (client : socket),
    match Combined.packet_loop fuel w client with
    | Exited _ w' _ | Stopped w' _ => trace w' = trace w
    | LoopUndefined | LoopOutOfFuel => True
    end.
Proof.
  induction fuel as [|fuel IH]; intros w client; cbn [Combined.packet_loop];
    destruct (global_should_run w); try reflexivity; try exact I.
  pose proof (combined_packet_cases w client) as Hc.
  destruct (Combined.packet w client) as [w1 client1|ok w1 client1| |];
    [| |exact I|exact I].
  - destruct Hc as (header & payload & _ & _ & _ & _ & [[_ ->]|(out & _ & _ & _ & ->)]);
      [apply IH|].
    match goal with
    | |- match Combined.packet_loop fuel ?w1 client1 with _ => _ end =>
        pose proof (IH w1 client1) as H; destruct (Combined.packet_loop fuel w1 client1); exact H
    end.
  - rewrite Hc. reflexivity.
Qed.

Lemma fixed_packet_loop_trace (fuel : nat) :
  forall (w : world) (client : socket),
    match Fixed.packet_loop fuel w client with
    | Exited _ w' _ | Stopped w' _ => trace w' = trace w
    | LoopUndefined | LoopOutOfFuel => True
    end.
Proof.
  induction fuel as [|fuel IH]; intros w client; cbn [Fixed.packet_loop];
    destruct (global_should_run w); try reflexivity; try exact I.
  pose proof (fixed_packet_cases w client) as Hc.
  destruct (Fixed.packet w client) as [w1 client1|ok w1 client1| |];
    [| |exact I|exact I].
  - destruct Hc as (header & payload & _ & _ & _ & _ & [[_ ->]|(out & _ & _ & _ & ->)]);
      [apply IH|].
    match goal with
    | |- match Fixed.packet_loop fuel ?w1 client1 with _ => _ end =>
        pose proof (IH w1 client1) as H; destruct (Fixed.packet_loop fuel w1 client1); exact H
    end.
  - rewrite Hc. reflexivity.
Qed.

Lemma count_event_app (ev : event) (t1 t2 : list event) :
  count_event ev (t1 ++ t2) = (count_event ev t1 + count_event ev t2)%nat.
Proof. unfold count_event. rewrite filter_app, length_app. reflexivity. Qed.

Lemma count_sessions (sessions : list (list event)) :
  Forall (fun s => served_session s \/ draft_session s) sessions ->
  count_event ClientClosed (concat sessions) = count_event Accepted (concat sessions) /\
  count_event FileClosed (concat sessions) = count_event FileOpened (concat sessions).
Proof.
  induction 1 as [|s later Hs _ [IHc IHf]]; [split; reflexivity|].
  cbn [concat]. rewrite !count_event_app, IHc, IHf.
  destruct Hs as [[-> | ->]|[-> | ->]]; split; reflexivity.
Qed.

Lemma combined_accept_loop_trace (listen_fd : list accept_result) :
  forall w w' : world,
    Combined.tcp_audio_receiver_server_loop listen_fd w = Some w' ->
    exists sessions : list (list event),
      trace w' = trace w ++ concat sessions /\
      Forall served_session sessions /\
      (length sessions <= length listen_fd)%nat.
Proof.
  induction listen_fd as [|[client file_opens| |] later IH]; intros w w' Hloop;
    cbn [Combined.tcp_audio_receiver_server_loop] in Hloop;
    destruct (global_should_run w) eqn:Hrun;
    try (injection Hloop as <-; exists []; cbn [concat length]; rewrite app_nil_r;
         repeat split; [constructor|lia]).
  - destruct file_opens.
    + pose proof (eq_refl : fst (Combined.open_output (note Accepted w)) = true) as Ht.
      destruct (Combined.open_output (note Accepted w)) as [written f].
      cbn [fst] in Ht. subst written.
      pose proof (combined_packet_loop_trace (S (socket_bytes client))
                    (note FileOpened (with_file (fseek_end f) (note Accepted w))) client)
        as Htrace.
      destruct (Combined.packet_loop _ _ client) as [ok w3 client'|w3 client'| |];
        try discriminate Hloop;
        destruct (IH _ _ Hloop) as (sessions & Hs & Hall & Hlen);
        exists ([Accepted; FileOpened; ClientClosed; FileClosed] :: sessions);
        (split; [rewrite Hs; cbn [note trace concat]; rewrite Htrace;
                 cbn [note with_file trace]; rewrite <- !app_assoc; reflexivity|]);
        (split; [constructor; [left; reflexivity|exact Hall]|cbn [length]; lia]).
    + destruct (IH _ _ Hloop) as (sessions & Hs & Hall & Hlen).
      exists ([Accepted; ClientClosed] :: sessions).
      split; [rewrite Hs; cbn [note trace concat]; rewrite <- !app_assoc; reflexivity|].
      split; [constructor; [right; reflexivity|exact Hall]|cbn [length]; lia].
  - destruct (IH _ _ Hloop) as (sessions & Hs & Hall & Hlen).
    exists sessions. repeat split; [exact Hs|exact Hall|cbn [length]; lia].
Qed.

Lemma fixed_accept_loop_trace (listen_fd : list accept_result) :
  forall w w' : world,
    Fixed.tcp_server_loop listen_fd w = Some w' ->
    exists sessions : list (list event),
      trace w' = trace w ++ concat sessions /\
      Forall served_session sessions /\
      (length sessions <= length listen_fd)%nat.
Proof.
  induction listen_fd as [|[client file_opens| |] later IH]; intros w w' Hloop;
    cbn [Fixed.tcp_server_loop] in Hloop;
    destruct (global_should_run w) eqn:Hrun;
    try (injection Hloop as <-; exists []; cbn [concat length]; rewrite app_nil_r;
         repeat split; [constructor|lia]).
  - destruct file_opens.
    + pose proof (eq_refl : fst (Fixed.open_output (note Accepted w)) = true) as Ht.
      destruct (Fixed.open_output (note Accepted w)) as [written f].
      cbn [fst] in Ht. subst written.
      pose proof (fixed_packet_loop_trace (S (socket_bytes client))
                    (note FileOpened (with_file (fseek_end f) (note Accepted w))) client)
        as Htrace.
      destruct (Fixed.packet_loop _ _ client) as [ok w3 client'|w3 client'| |];
        try discriminate Hloop;
        destruct (IH _ _ Hloop) as (sessions & Hs & Hall & Hlen);
        exists ([Accepted; FileOpened; ClientClosed; FileClosed] :: sessions);
        (split; [rewrite Hs; cbn [note trace concat]; rewrite Htrace;
                 cbn [note with_file trace]; rewrite <- !app_assoc; reflexivity|]);
        (split; [constructor; [left; reflexivity|exact Hall]|cbn [length]; lia]).
    + destruct (IH _ _ Hloop) as (sessions & Hs & Hall & Hlen).
      exists ([Accepted; ClientClosed] :: sessions).
      split; [rewrite Hs; cbn [note trace concat]; rewrite <- !app_assoc; reflexivity|].
      split; [constructor; [right; reflexivity|exact Hall]|cbn [length]; lia].
  - destruct (IH _ _ Hloop) as (sessions & Hs & Hall & Hlen).
    exists sessions. repeat split; [exact Hs|exact Hall|cbn [length]; lia].
Qed.

(** X14.  Every client the combined or the fixed receiver accepts is closed
    again, and every output file it opens is closed, however the
    connection ends: bad magic, short payload, closed peer.  (The run flag
    is not cleared while a connection is served here, so a stop in the
    middle of a connection is not covered.)
    The connection log of a run that returns grows by one session per
    client served, each of them accept, open, close client, close file,
    or accept, close client when the file cannot be opened. *)
Theorem every_accepted_client_is_closed
    (listen_fd : list accept_result) (w w' : world) :
  Combined.tcp_audio_receiver_server_loop listen_fd w = Some w' \/
  Fixed.tcp_server_loop listen_fd w = Some w' ->
  exists sessions : list (list event),
    trace w' = trace w ++ concat sessions /\
    Forall served_session sessions /\
    (length sessions <= length listen_fd)%nat /\
    (count_event ClientClosed (trace w') + count_event Accepted (trace w)
     = count_event Accepted (trace w') + count_event ClientClosed (trace w))%nat /\
    (count_event FileClosed (trace w') + count_event FileOpened (trace w)
     = count_event FileOpened (trace w') + count_event FileClosed (trace w))%nat.
Proof.
  intros Hloop.
  assert (H : exists sessions : list (list event),
            trace w' = trace w ++ concat sessions /\
            Forall served_session sessions /\
            (length sessions <= length listen_fd)%nat).
  { destruct Hloop as [Hloop|Hloop];
      [exact (combined_accept_loop_trace _ _ _ Hloop)
      |exact (fixed_accept_loop_trace _ _ _ Hloop)]. }
  destruct H as (sessions & Hs & Hall & Hlen).
  exists sessions. split; [exact Hs|]. split; [exact Hall|]. split; [exact Hlen|].
  destruct (count_sessions sessions) as [Hc Hf].
  { apply Forall_impl with (2 := Hall). intros s Hsv. left. exact Hsv. }
  rewrite Hs, !count_event_app, Hc, Hf. split; lia.
Qed.

Lemma every_accepted_client_is_closed_witness :
  exists sessions : list (list event),
    trace (note FileClosed (note ClientClosed (note FileOpened
             (with_file (fseek_end (snd (Combined.open_output
                                           (note Accepted (initial_world 1000)))))
                (note Accepted (initial_world 1000))))))
    = trace (initial_world 1000) ++ concat sessions /\
    Forall served_session sessions.
Proof.
  destruct (every_accepted_client_is_closed
              [Client [Chunk zero_header] true] (initial_world 1000)
              (note FileClosed (note ClientClosed (note FileOpened
                 (with_file (fseek_end (snd (Combined.open_output
                                               (note Accepted (initial_world 1000)))))
                    (note Accepted (initial_world 1000)))))))
    as (sessions & Hs & Hall & _).
  - left. vm_compute. reflexivity.
  - exists sessions. split; [exact Hs|exact Hall].
Defined.

(* ================================================================== *)
(** * Further properties: the draft receiver                           *)
(* ================================================================== *)

Lemma draft_placeholder_as_one_write (f : FILE) (sample_rate channels : Z) :
  at_end f ->
  Draft.write_wev_header_placeholder f sample_rate channels
  = (true, fwrite_ (draft_wav_header sample_rate channels) f).
Proof.
  intros H. unfold Draft.write_wev_header_placeholder, Draft.write_uint32t_little_endian,
    Draft.write_uint16t_little_endian.
  change 0xff with 0xFF.
  rewrite !u32_bytes_spec, !u16_bytes_spec.
  rewrite le_bytes_4_uint32, le_bytes_2_uint16.
  repeat rewrite (fwrite_fwrite _ _ f H).
  unfold draft_wav_header. rewrite <- !app_assoc. reflexivity.
Qed.

Lemma length_draft_wav_header (sample_rate channels : Z) :
  length (draft_wav_header sample_rate channels) = 40%nat.
Proof. reflexivity. Qed.

Lemma draft_placeholder_on_fresh_file (f : FILE) (sample_rate channels : Z) :
  Draft.write_wev_header_placeholder (fopen_wb f) sample_rate channels
  = (true, {| content := firstn (space f) (draft_wav_header sample_rate channels);
              position := Nat.min (space f) 40;
              space := space f - 40 |}).
Proof.
  rewrite draft_placeholder_as_one_write by reflexivity.
  rewrite fwrite_at_end by reflexivity.
  cbn [fopen_wb content space length app Nat.add].
  rewrite length_firstn, length_draft_wav_header.
  f_equal. f_equal. lia.
Qed.

Lemma size_fields_bytes (N channels : Z) :
  le_bytes 4 (to_uint32 (to_uint32 (N * channels) * OUT_BYTES_PER_SAMPLE))
  = le_bytes 4 (N * channels * 3) /\
  le_bytes 4 (to_uint32 (4 + (8 + 16)
                + to_uint32 (8 + to_uint32 (to_uint32 (N * channels) * OUT_BYTES_PER_SAMPLE))))
  = le_bytes 4 (36 + N * channels * 3).
Proof.
  unfold to_uint32, OUT_BYTES_PER_SAMPLE.
  rewrite Z.mul_mod_idemp_l by discriminate.
  rewrite Z.add_mod_idemp_r by discriminate.
  rewrite (Z.add_assoc _ 8), Z.add_mod_idemp_r by discriminate.
  change (2 ^ 32) with (256 ^ Z.of_nat 4). rewrite !le_bytes_mod.
  split; [reflexivity|]. f_equal.
Qed.

(** X15.  The header the draft writes is not a RIFF/WAVE header the other two
    receivers would write: it is 40 bytes long, its format tag is ["fmt"]
    followed by a zero byte, its RIFF size field holds 16, and the sample
    rate field is missing, so the [data] tag sits at offset 32 and the data
    size field at offset 36.  [finalize_wav_header] of the draft patches
    offsets 4 and 40 all the same: on a file that holds this header the
    data size field stays zero and the data size lands behind it, in the
    first four bytes of the audio. *)
Theorem draft_header_is_four_bytes_short
    (f : FILE) (sample_rate channels N : Z) (audio : list byte) (pos room : nat) :
  (8 <= room)%nat ->
  (4 <= length audio)%nat ->
  let header := draft_wav_header sample_rate channels in
  let final := content (Draft.finalize_wav_header
                          {| content := header ++ audio; position := pos; space := room |}
                          N channels sample_rate) in
  Draft.write_wev_header_placeholder (fopen_wb f) sample_rate channels
  = (true, {| content := firstn (space f) header;
              position := Nat.min (space f) 40;
              space := space f - 40 |}) /\
  length header = 40%nat /\
  slice 12 4 header = fmt0 /\
  slice 32 4 header = data /\
  header <> firstn 40 (wav_header sample_rate channels 16 0) /\
  final = RIFF ++ le_bytes 4 (36 + N * channels * 3) ++ skipn 8 header
          ++ le_bytes 4 (N * channels * 3) ++ skipn 4 audio /\
  slice 36 4 final = le_bytes 4 0.
Proof.
  intros Hroom Haudio header final.
  split; [apply draft_placeholder_on_fresh_file|].
  split; [reflexivity|]. split; [reflexivity|]. split; [reflexivity|].
  split.
  { subst header. unfold draft_wav_header, wav_header, RIFF, WAVE, fmt_, fmt0, data.
    cbn [le_bytes app firstn]. intros H. injection H as H12 _.
    repeat (injection H12 as _ H12). discriminate H12. }
  assert (Hfinal : final
                   = RIFF ++ le_bytes 4 (36 + N * channels * 3) ++ skipn 8 header
                     ++ le_bytes 4 (N * channels * 3) ++ skipn 4 audio).
  { subst final header. unfold Draft.finalize_wav_header, Draft.write_uint32t_little_endian.
    change 0xff with 0xFF. rewrite !u32_bytes_spec.
    destruct (size_fields_bytes N channels) as [-> ->].
    unfold fwrite_, fwrite, fseek_set. cbn [space content position].
    destruct room as [|[|[|[|[|[|[|[|room]]]]]]]]; try lia.
    destruct audio as [|a0 [|a1 [|a2 [|a3 audio]]]]; cbn [length] in Haudio; try lia.
    unfold draft_wav_header, RIFF, WAVE, fmt0, data, store.
    cbn [le_bytes app length firstn skipn repeat Nat.sub Nat.add snd content position space].
    rewrite !firstn_nil. cbn [app length skipn]. reflexivity. }
  split; [exact Hfinal|].
  rewrite Hfinal. subst header.
  unfold draft_wav_header, RIFF, WAVE, fmt0, data, slice.
  cbn [le_bytes app firstn skipn]. reflexivity.
Qed.

Lemma draft_header_is_four_bytes_short_witness :
  slice 36 4 (content (Draft.finalize_wav_header
                         {| content := draft_wav_header 48000 1 ++ [x01; x00; x00; xfe; xff; xff];
                            position := 0; space := 100 |} 2 1 48000))
  = le_bytes 4 0.
Proof.
  apply (draft_header_is_four_bytes_short
           {| content := []; position := 0; space := 100 |} 48000 1 2
           [x01; x00; x00; xfe; xff; xff] 0 100).
  - lia.
  - cbn. lia.
Defined.

(** X16.  The draft receiver records nothing.  Because of the stray semicolon
    after the test of [write_wev_header_placeholder], [tcp_server_loop]
    closes the file and the client right after the header is written and
    goes back to [accept]: for every sequence of clients the loop returns,
    no sample is counted, no status value moves, and the output file is
    either untouched or holds at most the 40 header bytes, whatever the
    clients send. *)
Theorem draft_server_never_records (listen_fd : list accept_result) (w : world) :
  exists w' : world,
    Draft.tcp_server_loop listen_fd w = Some w' /\
    global_total_samples_written_count w' = global_total_samples_written_count w /\
    global_highest_received_sample_index w' = global_highest_received_sample_index w /\
    global_last_received_sequence w' = global_last_received_sequence w /\
    global_makeup_gain w' = global_makeup_gain w /\
    global_should_run w' = global_should_run w /\
    (output_wav_file w' = output_wav_file w \/
     exists room : nat,
       content (output_wav_file w') = firstn room (draft_wav_header SAMPLE_RATE CHANNELS)) /\
    (exists sessions : list (list event),
       trace w' = trace w ++ concat sessions /\ Forall draft_session sessions).
Proof.
  revert w. induction listen_fd as [|[client file_opens| |] later IH]; intros w;
    cbn [Draft.tcp_server_loop]; destruct (global_should_run w) eqn:Hrun;
    try (exists w; repeat split; try assumption; [left; reflexivity|];
         exists []; cbn [concat]; rewrite app_nil_r; split; [reflexivity|constructor]).
  - destruct file_opens.
    + unfold Draft.open_output. cbn [note output_wav_file].
      rewrite draft_placeholder_on_fresh_file.
      match goal with
      | |- exists w', Draft.tcp_server_loop later ?w1 = Some w' /\ _ =>
          destruct (IH w1) as (w' & Hloop & Hk & Hh & Hl & Hg & Hr & Hfile & sessions & Ht & Hall)
      end.
      exists w'. split; [exact Hloop|].
      split; [exact Hk|]. split; [exact Hh|]. split; [exact Hl|]. split; [exact Hg|].
      split; [rewrite Hr; exact Hrun|]. split.
      * right. destruct Hfile as [Hsame|[room Hroom]].
        -- exists (space (output_wav_file w)). rewrite Hsame. reflexivity.
        -- exists room. exact Hroom.
      * exists ([Accepted; FileOpened; FileClosed; ClientClosed] :: sessions).
        split; [|constructor; [left; reflexivity|exact Hall]].
        rewrite Ht. cbn [note with_file trace concat]. rewrite <- !app_assoc. reflexivity.
    + destruct (IH (note ClientClosed (note Accepted w)))
        as (w' & Hloop & Hk & Hh & Hl & Hg & Hr & Hfile & sessions & Ht & Hall).
      exists w'. split; [exact Hloop|].
      split; [exact Hk|]. split; [exact Hh|]. split; [exact Hl|]. split; [exact Hg|].
      split; [rewrite Hr; exact Hrun|]. split; [exact Hfile|].
      exists ([Accepted; ClientClosed] :: sessions).
      split; [|constructor; [right; reflexivity|exact Hall]].
      rewrite Ht. cbn [note trace concat]. rewrite <- !app_assoc. reflexivity.
  - destruct (IH w) as (w' & Hloop & Hk & Hh & Hl & Hg & Hr & Hfile & sessions & Ht & Hall).
    exists w'. split; [exact Hloop|].
    split; [exact Hk|]. split; [exact Hh|]. split; [exact Hl|]. split; [exact Hg|].
    split; [rewrite Hr; exact Hrun|]. split; [exact Hfile|].
    exists sessions. split; [exact Ht|exact Hall].
Qed.

(* ================================================================== *)
(** * Further properties: the gain                                     *)
(* ================================================================== *)

Lemma SFcompare_antisym (x y : double) :
  SFcompare y x = option_map CompOpp (SFcompare x y).
Proof.
  destruct x as [sx|sx| |sx mx ex], y as [sy|sy| |sy my ey];
    try destruct sx; try destruct sy; try reflexivity;
    unfold SFcompare; cbn [option_map]; f_equal;
    rewrite (Z.compare_antisym ex ey); destruct (ex ?= ey); cbn [CompOpp];
    try reflexivity; rewrite (Pos.compare_cont_antisym mx my Eq); reflexivity.
Qed.

Lemma SFcompare_none (x y : double) :
  SFcompare x y = None -> x = S754_nan \/ y = S754_nan.
Proof.
  destruct x as [sx|sx| |sx mx ex], y as [sy|sy| |sy my ey]; cbn [SFcompare];
    try discriminate; auto.
Qed.

Lemma not_lt_le (x y : double) :
  x <> S754_nan -> y <> S754_nan -> SFltb x y = false -> SFleb y x = true.
Proof.
  intros Hx Hy. unfold SFltb, SFleb. rewrite (SFcompare_antisym x y).
  destruct (SFcompare x y) as [[| |]|] eqn:E; cbn [option_map CompOpp];
    try reflexivity; try discriminate.
  destruct (SFcompare_none _ _ E); contradiction.
Qed.

(** X17.  The gain a [/control] request leaves in the combined receiver.  A
    request that is a number ends in a gain between 0.01 and 16.0: a
    request below 0.01 gives 0.01, one above 16.0 gives 16.0, any other
    is stored as it is.  Nothing else of the state changes. *)
Theorem control_gain_is_clamped (requested_gain : double) (w : world) :
  let w' := control_set_gain requested_gain w in
  let g := global_makeup_gain w' in
  (requested_gain <> S754_nan ->
   SFleb gain_0_01 g = true /\ SFleb g gain_16_0 = true) /\
  (dlt requested_gain gain_0_01 = true -> g = gain_0_01) /\
  (dgt requested_gain gain_16_0 = true -> g = gain_16_0) /\
  (dlt requested_gain gain_0_01 = false -> dgt requested_gain gain_16_0 = false ->
   g = requested_gain) /\
  output_wav_file w' = output_wav_file w /\
  global_should_run w' = global_should_run w /\
  global_total_samples_written_count w' = global_total_samples_written_count w /\
  trace w' = trace w.
Proof.
  cbv zeta. cbn [control_set_gain global_makeup_gain output_wav_file global_should_run
                 global_total_samples_written_count trace].
  assert (H16 : gain_16_0 <> S754_nan) by discriminate.
  assert (H01 : gain_0_01 <> S754_nan) by discriminate.
  assert (Hcross : dgt gain_0_01 gain_16_0 = false) by reflexivity.
  unfold clamp_requested_gain.
  split; [|split; [|split; [|split; [|repeat split]]]].
  - intros Hnan. destruct (dlt requested_gain gain_0_01) eqn:Hlow.
    + rewrite Hcross. split; reflexivity.
    + destruct (dgt requested_gain gain_16_0) eqn:Hhigh.
      * split; reflexivity.
      * split; [apply not_lt_le; assumption|].
        apply not_lt_le; [exact H16|exact Hnan|exact Hhigh].
  - intros Hlow. rewrite Hlow, Hcross. reflexivity.
  - intros Hhigh. destruct (dlt requested_gain gain_0_01) eqn:Hlow.
    + exfalso. unfold dlt, dgt, SFltb in Hlow, Hhigh.
      rewrite (SFcompare_antisym requested_gain gain_16_0) in Hhigh.
      destruct requested_gain as [s|s| |s m e]; try destruct s; try discriminate.
      unfold gain_0_01, gain_16_0, SFcompare in Hlow, Hhigh. cbn [option_map] in Hhigh.
      destruct (e ?= -59) eqn:E1; destruct (e ?= -48) eqn:E2; try discriminate;
        try (apply Z.compare_eq in E1); try (apply Z.compare_eq in E2);
        try (pose proof (proj1 (Z.compare_lt_iff _ _) E1));
        try (pose proof (proj1 (Z.compare_gt_iff _ _) E2)); lia.
    + rewrite Hhigh. reflexivity.
  - intros Hlow Hhigh. rewrite Hlow, Hhigh. reflexivity.
Qed.

Lemma control_gain_is_clamped_witness :
  SFleb gain_0_01 (global_makeup_gain (control_set_gain (S754_infinity false)
                                         (initial_world 0))) = true /\
  SFleb (global_makeup_gain (control_set_gain (S754_infinity false) (initial_world 0)))
    gain_16_0 = true.
Proof.
  apply (control_gain_is_clamped (S754_infinity false) (initial_world 0)). discriminate.
Defined.

Lemma convert_sample_nan (s : Z) :
  Combined.convert_sample s S754_nan = None /\
  Fixed.convert_sample s S754_nan = None /\
  Draft.convert_sample s S754_nan = None.
Proof.
  assert (H : dmul (double_of_int s) S754_nan = S754_nan)
    by (unfold dmul, SFmul; destruct (double_of_int s); reflexivity).
  assert (Hc : Combined.convert_sample s S754_nan = None)
    by (unfold Combined.convert_sample; rewrite H; reflexivity).
  split; [exact Hc|]. split; [exact Hc|].
  rewrite (proj2 (convert_sample_agree s S754_nan)). exact Hc.
Qed.

(** X18.  A gain that is not a number is not caught and makes the recording
    undefined.  The clamp of the combined receiver lets a NaN through
    (both of its comparisons are false) and the fixed receiver stores
    whatever [std::stod] returns.  With such a gain no sample has a
    defined conversion, so every packet that carries at least one frame
    and arrives in full leaves the output of the combined and of the
    fixed receiver unspecified. *)
Theorem nan_gain_is_not_caught
    (s : Z) (w : world) (client client' client'' : socket) (header payload : list byte) :
  global_makeup_gain (control_set_gain S754_nan w) = S754_nan /\
  global_makeup_gain (fixed_control_set_gain S754_nan w) = S754_nan /\
  Combined.convert_sample s S754_nan = None /\
  Fixed.convert_sample s S754_nan = None /\
  Draft.convert_sample s S754_nan = None /\
  (global_makeup_gain w = S754_nan ->
   Combined.recv_all client HEADER_SIZE = Some (true, header, client') ->
   le_value (slice 0 4 header) = HEADER_MAGIC ->
   let payload_bytes :=
     le_value (slice 24 2 header) * le_value (slice 26 1 header)
     * le_value (slice 27 1 header) in
   payload_bytes <> 0 ->
   Combined.recv_all client' (Z.to_nat payload_bytes) = Some (true, payload, client'') ->
   Combined.packet w client = Undefined /\ Fixed.packet w client = Undefined).
Proof.
  split; [reflexivity|]. split; [reflexivity|].
  destruct (convert_sample_nan s) as (Hc & Hf & Hd).
  split; [exact Hc|]. split; [exact Hf|]. split; [exact Hd|].
  intros Hgain Hrecv Hmagic payload_bytes Hnz Hpay.
  destruct (header_received _ _ _ Hrecv) as [Hlen _].
  pose proof (combined_parse_header_spec header Hlen) as (Hm & _ & _ & _ & Hfr & _).
  pose proof (payload_bytes_of_spec header Hlen) as (Hpc & Hpf & _).
  unfold Fixed.parse_header in Hpf. fold payload_bytes in Hpc, Hpf.
  pose proof (frames_range header) as Rf. rewrite Hfr in Rf.
  assert (Hg : Combined.suspicious_number_of_frames (Combined.parse_header header) = false)
    by (apply frame_guard_passes; rewrite Hpc; exact Hnz).
  assert (Hframes : exists n, Z.to_nat (le_value (slice 24 2 header)) = S n).
  { exists (Z.to_nat (le_value (slice 24 2 header)) - 1)%nat.
    assert (le_value (slice 24 2 header) <> 0) by (intros E; apply Hnz; subst payload_bytes;
                                                    rewrite E; reflexivity).
    lia. }
  destruct Hframes as [n Hn].
  split.
  - unfold Combined.packet. rewrite Hrecv, Hm, Hmagic, Hpc, Hg, Hpay, Hgain, Hfr, Hn.
    replace (payload_bytes =? 0) with false by (symmetry; apply Z.eqb_neq; exact Hnz).
    rewrite Z.eqb_refl. cbn [negb seq Combined.convert_frames].
    destruct (Combined.le_bytes_to_int32 payload _) as [s0|]; [|reflexivity].
    rewrite (proj1 (convert_sample_nan s0)). reflexivity.
  - unfold Fixed.packet, Fixed.recv_all, Fixed.parse_header.
    rewrite Hrecv, Hm, Hmagic, Hpf, Hpay, Hgain, Hfr, Hn.
    replace (payload_bytes =? 0) with false by (symmetry; apply Z.eqb_neq; exact Hnz).
    rewrite Z.eqb_refl. cbn [negb seq Fixed.convert_frames].
    destruct (Fixed.sample_at payload _) as [s0|]; [|reflexivity].
    rewrite (proj1 (proj2 (convert_sample_nan s0))). reflexivity.
Qed.

Lemma nan_gain_is_not_caught_witness :
  Combined.packet (control_set_gain S754_nan (initial_world 1000))
    [Chunk one_frame_header; Chunk [x00; x01; x00; x00]] = Undefined /\
  Fixed.packet (control_set_gain S754_nan (initial_world 1000))
    [Chunk one_frame_header; Chunk [x00; x01; x00; x00]] = Undefined.
Proof.
  destruct (nan_gain_is_not_caught 0 (control_set_gain S754_nan (initial_world 1000))
              [Chunk one_frame_header; Chunk [x00; x01; x00; x00]]
              [Chunk [x00; x01; x00; x00]] [] one_frame_header [x00; x01; x00; x00])
    as (_ & _ & _ & _ & _ & H).
  apply H.
  - reflexivity.
  - reflexivity.
  - reflexivity.
  - vm_compute. discriminate.
  - reflexivity.
Defined.

(* ================================================================== *)
(** * Further properties: from the streamer to the file                *)
(* ================================================================== *)

Lemma orderly_after_chunk (n : nat) (bs : list byte) (rest : socket) :
  orderly rest -> orderly (after_chunk n bs rest).
Proof.
  unfold orderly, after_chunk. intros H.
  destruct (skipn n bs) as [|b remaining]; [exact H|]. constructor; [exact I|exact H].
Qed.

Lemma recv_all_loop_orderly (fuel : nat) :
  forall (sock sock' : socket) (required : nat) (received buf : list byte) (ok : bool),
    orderly sock ->
    Combined.recv_all_loop fuel sock required received = Some (ok, buf, sock') ->
    orderly sock'.
Proof.
  induction fuel as [|fuel IH]; intros sock sock' required received buf ok Hord H;
    cbn [Combined.recv_all_loop] in H;
    destruct (length received <? required)%nat; try discriminate;
    try (injection H as _ _ <-; exact Hord).
  destruct sock as [|[bs| |] rest]; cbn [recv] in H.
  - injection H as _ _ <-. constructor.
  - assert (Hrest : orderly (after_chunk (required - length received) bs rest))
      by (apply orderly_after_chunk; inversion Hord; assumption).
    destruct (firstn (required - length received) bs) as [|b r].
    + injection H as _ _ <-. exact Hrest.
    + exact (IH _ _ _ _ _ _ Hrest H).
  - apply (IH _ _ _ _ _ _ (Forall_inv_tail Hord) H).
  - injection H as _ _ <-. exact (Forall_inv_tail Hord).
Qed.

(** On an orderly connection [recv_all] hands over the next bytes of the
    stream and leaves the connection orderly. *)
Lemma recv_all_next (sock : socket) (next later : list byte) :
  orderly sock ->
  socket_data sock = next ++ later ->
  exists sock',
    Combined.recv_all sock (length next) = Some (true, next, sock') /\
    socket_data sock' = later /\ orderly sock'.
Proof.
  intros Hord Hdata.
  destruct (recv_all_spec sock (length next)) as (buf & sock' & Hrun & Hok).
  rewrite (delivers_orderly sock Hord) in Hrun, Hok.
  assert (Hfit : (length next <=? length (socket_data sock))%nat = true)
    by (apply Nat.leb_le; rewrite Hdata, length_app; lia).
  rewrite Hfit in Hrun, Hok. destruct (Hok eq_refl) as (Hbuf & Hsplit & Hlen).
  assert (Hnext : buf = next).
  { rewrite Hbuf, Hdata, firstn_app, Nat.sub_diag, firstn_all. cbn [firstn].
    apply app_nil_r. }
  clear Hbuf Hok. subst buf. exists sock'. split; [exact Hrun|]. split.
  - rewrite Hdata in Hsplit. exact (eq_sym (app_inv_head _ _ _ Hsplit)).
  - unfold Combined.recv_all in Hrun. exact (recv_all_loop_orderly _ _ _ _ _ _ _ Hord Hrun).
Qed.

Lemma slice_flat_map_4 (A : Type) (F : A -> list byte) (d : A) :
  (forall a, length (F a) = 4%nat) ->
  forall (l : list A) (i : nat),
    (i < length l)%nat -> slice (4 * i) 4 (flat_map F l) = F (nth i l d).
Proof.
  intros HF l. induction l as [|a l IH]; intros i Hi; cbn [length] in Hi; [lia|].
  cbn [flat_map]. unfold slice. destruct i as [|i].
  - rewrite Nat.mul_0_r. cbn [skipn nth].
    rewrite firstn_app, HF, Nat.sub_diag, firstn_O, app_nil_r.
    apply firstn_all2. rewrite HF. lia.
  - replace (4 * S i)%nat with (4 + 4 * i)%nat by lia.
    rewrite skipn_app, (skipn_all2 (F a)) by (rewrite HF; lia).
    rewrite HF. replace (4 + 4 * i - 4)%nat with (4 * i)%nat by lia.
    cbn [app nth]. apply IH. lia.
Qed.

Lemma length_flat_map_const (A : Type) (F : A -> list byte) (k : nat) :
  (forall a, length (F a) = k) ->
  forall l : list A, length (flat_map F l) = (k * length l)%nat.
Proof.
  intros HF l. induction l as [|a l IH]; cbn [flat_map length]; [lia|].
  rewrite length_app, HF, IH. lia.
Qed.

Lemma to_int32_mod (x : Z) : to_int32 (x mod 2 ^ 32) = to_int32 x.
Proof. unfold to_int32. rewrite Z.add_mod_idemp_l by lia. reflexivity. Qed.

Lemma to_int32_range (x : Z) : in_int32 (to_int32 x).
Proof.
  unfold in_int32, INT32_MIN, INT32_MAX, to_int32.
  pose proof (Z.mod_pos_bound (x + 2 ^ 31) (2 ^ 32) ltac:(lia)).
  change (2 ^ 31) with 2147483648 in *. change (2 ^ 32) with 4294967296 in *. lia.
Qed.

Lemma convert_sample_gain_1_0 (S : Z) :
  in_int32 S ->
  Fixed.convert_sample S gain_1_0 = Some (le_bytes 3 (Z.land (Z.shiftr S 8) 0xFFFFFF)).
Proof.
  intros HS. apply (convert_sample_of_clamped S S gain_1_0 HS).
  rewrite (double_of_int_gain_1_0 S HS). apply clamp_combined_in_range, HS.
Qed.

Lemma fixed_convert_frames_gain_1_0 (payload : list byte) (sample : nat -> Z) :
  forall (indices : list nat) (output : list byte),
    Forall (fun i => Z.of_nat i < 65536 /\ wire_sample payload i = Some (to_int32 (sample i)))
      indices ->
    Fixed.convert_frames indices payload gain_1_0 output
    = Some (output
            ++ flat_map (fun i => le_bytes 3 (Z.land (Z.shiftr (to_int32 (sample i)) 8) 0xFFFFFF))
                 indices).
Proof.
  intros indices. induction indices as [|i later IH]; intros output Hall.
  - cbn. rewrite app_nil_r. reflexivity.
  - inversion Hall as [|? ? [Hi Hs] Hlater]; subst.
    assert (Hbase : Z.to_nat (to_size_t (Z.of_nat i * 4)) = (4 * i)%nat).
    { unfold to_size_t, to_uint64. change (2 ^ 64) with 18446744073709551616.
      rewrite Z.mod_small by lia. lia. }
    cbn [Fixed.convert_frames flat_map].
    rewrite Hbase, (proj1 (sample_at_wire payload i)), Hs.
    rewrite convert_sample_gain_1_0 by apply to_int32_range.
    rewrite IH by exact Hlater. rewrite <- app_assoc. reflexivity.
Qed.

Lemma fixed_payload_bytes_of_eq (h : packet_header) :
  Fixed.payload_bytes_of h = Combined.payload_bytes_of h.
Proof. reflexivity. Qed.

Lemma audio_packet_parts (i2s_words : list Z) (word_count : nat)
    (seq_ first_sample_index_ timestamp_us : Z) :
  let frames := if (2048 <=? word_count)%nat then 1024%nat else (word_count / 2)%nat in
  Streamer.audio_packet i2s_words word_count seq_ first_sample_index_ timestamp_us
  = make_header seq_ first_sample_index_ timestamp_us (Z.of_nat frames) 1 4 48000 1
    ++ flat_map (fun i => le_bytes 4 (to_uint32 (nth (i * 2 + 1) i2s_words 0))) (seq 0 frames).
Proof.
  cbv zeta. unfold Streamer.audio_packet.
  change (Z.to_nat Streamer.FRAMES_PER_PACKET * 2)%nat with 2048%nat.
  change (Z.to_nat Streamer.FRAMES_PER_PACKET) with 1024%nat.
  set (frames := if (2048 <=? word_count)%nat then 1024%nat else (word_count / 2)%nat).
  assert (Hframes : (frames <= 1024)%nat).
  { subst frames. destruct (Nat.leb_spec 2048 word_count) as [H|H]; [lia|].
    apply Nat.Div0.div_le_upper_bound. lia. }
  assert (Hu16 : to_uint16 (Z.of_nat frames) = Z.of_nat frames)
    by (unfold to_uint16; change (2 ^ 16) with 65536; apply Z.mod_small; lia).
  rewrite Hu16, build_header_wire. f_equal.
  unfold Streamer.payload_of. rewrite Nat2Z.id.
  assert (Hwords : firstn frames
                     (if (2048 <=? word_count)%nat
                      then Streamer.right_channel i2s_words 1024
                      else Streamer.right_channel i2s_words (word_count / 2)
                           ++ repeat 0 (1024 - word_count / 2))
                   = Streamer.right_channel i2s_words frames).
  { subst frames. destruct (2048 <=? word_count)%nat.
    - apply firstn_all2. unfold Streamer.right_channel. rewrite length_map, length_seq. lia.
    - rewrite firstn_app. unfold Streamer.right_channel at 2.
      rewrite length_map, length_seq, Nat.sub_diag. cbn [firstn]. rewrite app_nil_r.
      apply firstn_all2. unfold Streamer.right_channel. rewrite length_map, length_seq. lia. }
  rewrite Hwords. unfold Streamer.right_channel.
  rewrite !flat_map_concat_map, map_map. f_equal. apply map_ext. intros i.
  apply bytes_of_spec.
Qed.

(** X19.  From the microphone to the file.  One turn of [audioTask] has read at
    least one stereo frame; the bytes it sends arrive, in whatever
    segments, at a combined or fixed receiver whose gain is 1.0.  The turn
    of the packet loop that reads them takes exactly these bytes from the
    connection, appends to the output file the upper three bytes of the
    right-channel word of every frame sent, in order, and publishes the
    frame count, the sequence number and the sample index of the
    streamer. *)
Theorem right_channel_is_recorded
    (w : world) (client : socket) (i2s_words : list Z) (word_count : nat)
    (seq_ first_sample_index_ timestamp_us : Z) (later : list byte) :
  global_makeup_gain w = gain_1_0 ->
  in_uint32 seq_ ->
  0 <= first_sample_index_ < 2 ^ 64 ->
  0 <= timestamp_us < 2 ^ 64 ->
  (2 <= word_count)%nat ->
  orderly client ->
  socket_data client
  = Streamer.audio_packet i2s_words word_count seq_ first_sample_index_ timestamp_us
    ++ later ->
  let frames := if (2048 <=? word_count)%nat then 1024%nat else (word_count / 2)%nat in
  let audio :=
    flat_map (fun i => le_bytes 3 (Z.land (Z.shiftr (to_int32 (nth (i * 2 + 1) i2s_words 0)) 8)
                                          0xFFFFFF))
      (seq 0 frames) in
  exists client' : socket,
    Combined.packet w client
    = Continue (publish (fwrite_ audio (output_wav_file w)) (Z.of_nat frames)
                  first_sample_index_ seq_ w) client' /\
    Fixed.packet w client
    = Continue (publish (fwrite_ audio (output_wav_file w)) (Z.of_nat frames)
                  first_sample_index_ seq_ w) client' /\
    socket_data client' = later /\
    orderly client' /\
    length audio = (3 * frames)%nat.
Proof.
  intros Hgain Hseq Hfirst Hts Hcount Hord Hdata frames audio.
  rewrite audio_packet_parts in Hdata. fold frames in Hdata.
  assert (Hframes : (1 <= frames <= 1024)%nat).
  { subst frames. destruct (Nat.leb_spec 2048 word_count) as [H|H]; [lia|]. split.
    - apply Nat.div_le_lower_bound; lia.
    - apply Nat.Div0.div_le_upper_bound. lia. }
  set (F := fun i : nat => le_bytes 4 (to_uint32 (nth (i * 2 + 1) i2s_words 0))) in *.
  remember (make_header seq_ first_sample_index_ timestamp_us (Z.of_nat frames) 1 4 48000 1)
    as header eqn:Hheader.
  remember (flat_map F (seq 0 frames)) as payload eqn:Hpayload.
  assert (Hhlen : length header = HEADER_SIZE) by (subst header; reflexivity).
  assert (Hplen : length payload = (4 * frames)%nat).
  { subst payload. rewrite (length_flat_map_const nat F 4), length_seq; [reflexivity|].
    intros a. apply length_le_bytes. }
  rewrite <- app_assoc in Hdata.
  destruct (recv_all_next client header (payload ++ later) Hord Hdata)
    as (client1 & Hrecv & Hdata1 & Hord1).
  rewrite Hhlen in Hrecv.
  destruct (recv_all_next client1 payload later Hord1 Hdata1)
    as (client2 & Hpay & Hdata2 & Hord2).
  rewrite Hplen in Hpay.
  assert (Hparse : Combined.parse_header header
                   = {| magic := HEADER_MAGIC; sequence_number := seq_;
                        first_sample_index := first_sample_index_;
                        timestamp_microseconds := timestamp_us;
                        frames_in_packet := Z.of_nat frames; channels_in_packet := 1;
                        bytes_per_sample_in_packet := 4; sample_rate_in_packet := 48000;
                        format_id_in_packet := 1 |}).
  { subst header. rewrite parse_make_header. unfold in_uint32 in Hseq.
    rewrite (Z.mod_small seq_), (Z.mod_small first_sample_index_),
      (Z.mod_small timestamp_us), (Z.mod_small (Z.of_nat frames))
      by (try assumption; change (2 ^ 16) with 65536; lia).
    reflexivity. }
  assert (Hwire : Forall (fun i => Z.of_nat i < 65536 /\
                                   wire_sample payload i
                                   = Some (to_int32 (nth (i * 2 + 1) i2s_words 0)))
                    (seq 0 frames)).
  { apply Forall_forall. intros i Hi. apply in_seq in Hi. split; [lia|].
    unfold wire_sample. subst payload.
    rewrite (slice_flat_map_4 nat F 0%nat) by (try rewrite length_seq; try lia;
                                              intros a; apply length_le_bytes).
    rewrite seq_nth by lia. unfold F. cbn [le_bytes Nat.add].
    change (le_value _) with (le_value (le_bytes 4 (to_uint32 (nth (i * 2 + 1) i2s_words 0)))).
    rewrite le_value_le_bytes. change (256 ^ Z.of_nat 4) with (2 ^ 32).
    unfold to_uint32. rewrite Z.mod_mod by lia. rewrite to_int32_mod. reflexivity. }
  assert (Hfixed : Fixed.convert_frames (seq 0 frames) payload gain_1_0 [] = Some audio)
    by (rewrite (fixed_convert_frames_gain_1_0 payload
                   (fun i => nth (i * 2 + 1) i2s_words 0)) by exact Hwire; reflexivity).
  assert (Hcombined : Combined.convert_frames (seq 0 frames) payload
                        (Combined.parse_header header) gain_1_0 [] = Some audio).
  { rewrite combined_convert_frames_mono; [exact Hfixed| | |].
    - rewrite Hparse. reflexivity.
    - rewrite Hparse. reflexivity.
    - apply seq_below. lia. }
  assert (Hbytes : Combined.payload_bytes_of (Combined.parse_header header)
                   = Z.of_nat (4 * frames)).
  { rewrite Hparse. unfold Combined.payload_bytes_of.
    cbn [frames_in_packet channels_in_packet bytes_per_sample_in_packet].
    rewrite payload_bytes_exact by lia. lia. }
  assert (Hguard : Combined.suspicious_number_of_frames (Combined.parse_header header) = false)
    by (apply frame_guard_passes; rewrite Hbytes; lia).
  exists client2.
  split; [|split; [|split; [exact Hdata2|split; [exact Hord2|]]]].
  - unfold Combined.packet. rewrite Hrecv. cbv zeta.
    rewrite Hbytes, Hguard, Nat2Z.id, Hpay, Hgain.
    replace (Z.of_nat (4 * frames) =? 0) with false by (symmetry; apply Z.eqb_neq; lia).
    replace (Z.to_nat (frames_in_packet (Combined.parse_header header))) with frames
      by (rewrite Hparse; cbn [frames_in_packet]; lia).
    rewrite Hcombined, Hparse.
    cbn [magic frames_in_packet first_sample_index sequence_number].
    rewrite Z.eqb_refl. reflexivity.
  - unfold Fixed.packet, Fixed.recv_all, Fixed.parse_header.
    rewrite Hrecv. cbv zeta.
    rewrite fixed_payload_bytes_of_eq, Hbytes, Nat2Z.id, Hpay, Hgain.
    replace (Z.of_nat (4 * frames) =? 0) with false by (symmetry; apply Z.eqb_neq; lia).
    replace (Z.to_nat (frames_in_packet (Combined.parse_header header))) with frames
      by (rewrite Hparse; cbn [frames_in_packet]; lia).
    rewrite Hfixed, Hparse.
    cbn [magic frames_in_packet first_sample_index sequence_number].
    rewrite Z.eqb_refl. reflexivity.
  - subst audio. rewrite (length_flat_map_const nat _ 3), length_seq; [reflexivity|].
    intros a. apply length_le_bytes.
Qed.

Lemma right_channel_is_recorded_witness :
  exists client' : socket,
    Combined.packet (initial_world 1000)
      [Chunk (Streamer.audio_packet [17; 256; 34; 4294966784] 4 1 4800 0)]
    = Continue (publish (fwrite_ [x01; x00; x00; xfe; xff; xff]
                           (output_wav_file (initial_world 1000)))
                  2 4800 1 (initial_world 1000)) client'.
Proof.
  destruct (right_channel_is_recorded (initial_world 1000)
              [Chunk (Streamer.audio_packet [17; 256; 34; 4294966784] 4 1 4800 0)]
              [17; 256; 34; 4294966784] 4 1 4800 0 [])
    as (client' & Hc & _).
  - reflexivity.
  - unfold in_uint32. lia.
  - lia.
  - lia.
  - lia.
  - unfold orderly. constructor; [vm_compute; exact I|constructor].
  - cbn [socket_data flat_map]. reflexivity.
  - exists client'. exact Hc.
Defined.

(* ================================================================== *)
(** * Further properties: what the receivers do not look at            *)
(* ================================================================== *)

Lemma combined_convert_frames_ext (payload : list byte) (h h' : packet_header) (g : double) :
  bytes_per_sample_in_packet h = bytes_per_sample_in_packet h' ->
  channels_in_packet h = channels_in_packet h' ->
  forall (indices : list nat) (output : list byte),
    Combined.convert_frames indices payload h g output
    = Combined.convert_frames indices payload h' g output.
Proof.
  intros Hb Hc indices. induction indices as [|i later IH]; intros output; [reflexivity|].
  cbn [Combined.convert_frames]. rewrite Hb, Hc.
  destruct (Combined.le_bytes_to_int32 payload _) as [s|]; [|reflexivity].
  destruct (Combined.convert_sample s g); [apply IH|reflexivity].
Qed.

Lemma slice_of_firstn (off len n : nat) (bs : list byte) :
  (off + len <= n)%nat -> slice off len (firstn n bs) = slice off len bs.
Proof.
  intros H. unfold slice. rewrite skipn_firstn_comm, firstn_firstn.
  f_equal. lia.
Qed.

Lemma slice_of_slice (off len off' len' : nat) (bs : list byte) :
  (off' + len' <= len)%nat ->
  slice off' len' (slice off len bs) = slice (off + off') len' bs.
Proof.
  intros H. unfold slice. rewrite skipn_firstn_comm, firstn_firstn, skipn_skipn.
  f_equal; [lia|]. f_equal. lia.
Qed.

(** X20.  The sample rate, the format id and the timestamp of a packet
    are not looked at.  Two headers that agree on the magic, the sequence
    number, the first sample index, the frame count, the channel count and
    the sample width, followed by the same bytes, lead the combined and the
    fixed receiver to the same result: the same bytes are written and the
    same values published, whatever rate and format the sender declares.
    [validate_header_basics] only prints. *)
Theorem rate_and_format_are_ignored
    (w : world) (client1 client2 later : socket) (header1 header2 : list byte) :
  Combined.recv_all client1 HEADER_SIZE = Some (true, header1, later) ->
  Combined.recv_all client2 HEADER_SIZE = Some (true, header2, later) ->
  firstn 16 header1 = firstn 16 header2 ->
  slice 24 4 header1 = slice 24 4 header2 ->
  Combined.packet w client1 = Combined.packet w client2 /\
  Fixed.packet w client1 = Fixed.packet w client2.
Proof.
  intros Hrecv1 Hrecv2 Hhead Hmid.
  destruct (header_received _ _ _ Hrecv1) as [Hlen1 _].
  destruct (header_received _ _ _ Hrecv2) as [Hlen2 _].
  pose proof (combined_parse_header_spec header1 Hlen1)
    as (Hm1 & Hs1 & Hf1 & _ & Hfr1 & Hc1 & Hb1 & _).
  pose proof (combined_parse_header_spec header2 Hlen2)
    as (Hm2 & Hs2 & Hf2 & _ & Hfr2 & Hc2 & Hb2 & _).
  assert (Em : magic (Combined.parse_header header1) = magic (Combined.parse_header header2)).
  { rewrite Hm1, Hm2, <- (slice_of_firstn 0 4 16 header1), <- (slice_of_firstn 0 4 16 header2),
      Hhead by lia. reflexivity. }
  assert (Es : sequence_number (Combined.parse_header header1)
               = sequence_number (Combined.parse_header header2)).
  { rewrite Hs1, Hs2, <- (slice_of_firstn 4 4 16 header1), <- (slice_of_firstn 4 4 16 header2),
      Hhead by lia. reflexivity. }
  assert (Ef : first_sample_index (Combined.parse_header header1)
               = first_sample_index (Combined.parse_header header2)).
  { rewrite Hf1, Hf2, <- (slice_of_firstn 8 8 16 header1), <- (slice_of_firstn 8 8 16 header2),
      Hhead by lia. reflexivity. }
  assert (Efr : frames_in_packet (Combined.parse_header header1)
                = frames_in_packet (Combined.parse_header header2)).
  { rewrite Hfr1, Hfr2. change 24%nat with (24 + 0)%nat.
    rewrite <- (slice_of_slice 24 4 0 2 header1), <- (slice_of_slice 24 4 0 2 header2), Hmid
      by lia. reflexivity. }
  assert (Ec : channels_in_packet (Combined.parse_header header1)
               = channels_in_packet (Combined.parse_header header2)).
  { rewrite Hc1, Hc2. change 26%nat with (24 + 2)%nat.
    rewrite <- (slice_of_slice 24 4 2 1 header1), <- (slice_of_slice 24 4 2 1 header2), Hmid
      by lia. reflexivity. }
  assert (Eb : bytes_per_sample_in_packet (Combined.parse_header header1)
               = bytes_per_sample_in_packet (Combined.parse_header header2)).
  { rewrite Hb1, Hb2. change 27%nat with (24 + 3)%nat.
    rewrite <- (slice_of_slice 24 4 3 1 header1), <- (slice_of_slice 24 4 3 1 header2), Hmid
      by lia. reflexivity. }
  assert (Ep : Combined.payload_bytes_of (Combined.parse_header header1)
               = Combined.payload_bytes_of (Combined.parse_header header2))
    by (unfold Combined.payload_bytes_of; rewrite Efr, Ec, Eb; reflexivity).
  assert (Eg : Combined.suspicious_number_of_frames (Combined.parse_header header1)
               = Combined.suspicious_number_of_frames (Combined.parse_header header2))
    by (unfold Combined.suspicious_number_of_frames; rewrite Efr; reflexivity).
  split.
  - unfold Combined.packet. rewrite Hrecv1, Hrecv2. cbv zeta.
    rewrite Em, Ep, Eg, Efr, Ef, Es.
    destruct (negb (magic (Combined.parse_header header2) =? HEADER_MAGIC)); [reflexivity|].
    destruct (Combined.payload_bytes_of (Combined.parse_header header2) =? 0);
      [reflexivity|].
    destruct (Combined.suspicious_number_of_frames (Combined.parse_header header2));
      [reflexivity|].
    destruct (Combined.recv_all later _) as [[[ok payload] client']|]; [|reflexivity].
    destruct ok; [|reflexivity].
    rewrite (combined_convert_frames_ext payload _ _ (global_makeup_gain w) Eb Ec).
    reflexivity.
  - unfold Fixed.packet, Fixed.recv_all, Fixed.parse_header.
    rewrite Hrecv1, Hrecv2. cbv zeta.
    rewrite !fixed_payload_bytes_of_eq, Em, Ep, Efr, Ef, Es. reflexivity.
Qed.

Lemma rate_and_format_are_ignored_witness :
  Combined.packet (initial_world 1000)
    [Chunk (make_header 1 4800 0 2 1 4 48000 1); Chunk two_mono_frames_payload]
  = Combined.packet (initial_world 1000)
      [Chunk (make_header 1 4800 77 2 1 4 8000 9); Chunk two_mono_frames_payload].
Proof.
  apply (rate_and_format_are_ignored (initial_world 1000)
           [Chunk (make_header 1 4800 0 2 1 4 48000 1); Chunk two_mono_frames_payload]
           [Chunk (make_header 1 4800 77 2 1 4 8000 9); Chunk two_mono_frames_payload]
           [Chunk two_mono_frames_payload]
           (make_header 1 4800 0 2 1 4 48000 1) (make_header 1 4800 77 2 1 4 8000 9)).
  - reflexivity.
  - reflexivity.
  - reflexivity.
  - reflexivity.
Defined.

(** X21.  Which samples of a packet are recorded.  For four-byte samples
    and any channel count a successful conversion writes three bytes per
    frame; the combined receiver takes, for frame [i], the sample at
    position [i * channels] of the payload, the first channel of the
    frame, while the fixed and the draft receiver take the sample at
    position [i], whatever the channel count. *)
Theorem first_channel_is_recorded
    (payload : list byte) (h : packet_header) (g : double) (frames : nat)
    (result : list byte) :
  bytes_per_sample_in_packet h = 4 ->
  0 <= channels_in_packet h < 256 ->
  Z.of_nat frames <= 65536 ->
  (Combined.convert_frames (seq 0 frames) payload h g [] = Some result ->
   length result = (3 * frames)%nat /\
   exists groups : list (list byte),
     result = concat groups /\
     Forall2 (fun i three =>
                exists s, wire_sample payload (i * Z.to_nat (channels_in_packet h)) = Some s /\
                          Combined.convert_sample s g = Some three)
       (seq 0 frames) groups) /\
  (Fixed.convert_frames (seq 0 frames) payload g [] = Some result \/
   Draft.convert_frames (seq 0 frames) payload g [] = Some result ->
   length result = (3 * frames)%nat /\
   exists groups : list (list byte),
     result = concat groups /\
     Forall2 (fun i three =>
                exists s, wire_sample payload i = Some s /\
                          Fixed.convert_sample s g = Some three)
       (seq 0 frames) groups).
Proof.
  intros Hb Hc Hn. split; intros Hrun.
  - destruct (combined_convert_frames_spec payload h g Hb Hc (seq 0 frames) [] result
                (seq_below frames Hn) Hrun) as (groups & Hres & Hlen & Hall).
    rewrite length_seq in Hlen. split; [exact Hlen|]. exists groups. split; assumption.
  - destruct (fixed_convert_frames_spec payload g (seq 0 frames) [] result
                (seq_below frames Hn) Hrun) as (groups & Hres & Hlen & Hall).
    rewrite length_seq in Hlen. split; [exact Hlen|]. exists groups. split; assumption.
Qed.

Lemma first_channel_is_recorded_witness :
  length [x01; x00; x00; x03; x00; x00] = (3 * 2)%nat /\
  exists groups : list (list byte),
    [x01; x00; x00; x03; x00; x00] = concat groups /\
    Forall2 (fun i three =>
               exists s, wire_sample two_stereo_frames_payload
                           (i * Z.to_nat (channels_in_packet
                                            (Combined.parse_header two_stereo_frames_header)))
                         = Some s /\
                         Combined.convert_sample s gain_1_0 = Some three)
      (seq 0 2) groups.
Proof.
  apply (first_channel_is_recorded two_stereo_frames_payload
           (Combined.parse_header two_stereo_frames_header) gain_1_0 2
           [x01; x00; x00; x03; x00; x00]).
  - reflexivity.
  - vm_compute. split; [discriminate|reflexivity].
  - lia.
  - vm_compute. reflexivity.
Defined.

(* ================================================================== *)
(** * The session: wrong magic, empty payload, short payload           *)
(* ================================================================== *)

Lemma combined_turns_loop (w w' : world) (client client' : socket) :
  turns Combined.packet w client w' client' ->
  global_should_run w = true ->
  forall fuel : nat,
    (socket_bytes client < fuel)%nat ->
    exists fuel' : nat,
      (socket_bytes client' < fuel')%nat /\
      Combined.packet_loop fuel w client = Combined.packet_loop fuel' w' client' /\
      global_should_run w' = true /\
      trace w' = trace w.
Proof.
  induction 1 as [w client|w w1 w2 client client1 client2 Hturn _ IH]; intros Hrun fuel Hfuel.
  - exists fuel. repeat split; assumption.
  - destruct fuel as [|fuel]; [lia|].
    pose proof (combined_packet_progress w client) as Hprogress.
    pose proof (combined_packet_cases w client) as Hcases.
    rewrite Hturn in Hprogress, Hcases.
    assert (Hsame : global_should_run w1 = global_should_run w /\ trace w1 = trace w).
    { destruct Hcases
        as (header & payload & _ & _ & _ & _ & [[_ ->]|(out & _ & _ & _ & ->)]);
        split; reflexivity. }
    destruct Hsame as [Hrun1 Htrace1].
    destruct (IH ltac:(congruence) fuel ltac:(lia)) as (fuel' & Hfuel' & Hloop & Hrun' & Htrace').
    exists fuel'. split; [exact Hfuel'|]. split; [|split; [exact Hrun'|congruence]].
    cbn [Combined.packet_loop]. rewrite Hrun, Hturn. exact Hloop.
Qed.

Lemma fixed_turns_loop (w w' : world) (client client' : socket) :
  turns Fixed.packet w client w' client' ->
  global_should_run w = true ->
  forall fuel : nat,
    (socket_bytes client < fuel)%nat ->
    exists fuel' : nat,
      (socket_bytes client' < fuel')%nat /\
      Fixed.packet_loop fuel w client = Fixed.packet_loop fuel' w' client' /\
      global_should_run w' = true /\
      trace w' = trace w.
Proof.
  induction 1 as [w client|w w1 w2 client client1 client2 Hturn _ IH]; intros Hrun fuel Hfuel.
  - exists fuel. repeat split; assumption.
  - destruct fuel as [|fuel]; [lia|].
    pose proof (fixed_packet_progress w client) as Hprogress.
    pose proof (fixed_packet_cases w client) as Hcases.
    rewrite Hturn in Hprogress, Hcases.
    assert (Hsame : global_should_run w1 = global_should_run w /\ trace w1 = trace w).
    { destruct Hcases
        as (header & payload & _ & _ & _ & _ & [[_ ->]|(out & _ & _ & _ & ->)]);
        split; reflexivity. }
    destruct Hsame as [Hrun1 Htrace1].
    destruct (IH ltac:(congruence) fuel ltac:(lia)) as (fuel' & Hfuel' & Hloop & Hrun' & Htrace').
    exists fuel'. split; [exact Hfuel'|]. split; [|split; [exact Hrun'|congruence]].
    cbn [Fixed.packet_loop]. rewrite Hrun, Hturn. exact Hloop.
Qed.

Lemma fixed_accept_goes_on
    (w w' : world) (client client' : socket) (later : list accept_result) :
  global_should_run w = true ->
  (exists ok, Fixed.packet_loop (S (socket_bytes client)) (fixed_opened w) client
              = Exited ok w' client') ->
  Fixed.tcp_server_loop (Client client true :: later) w
  = Fixed.tcp_server_loop later (closed w').
Proof.
  intros Hrun [ok Hloop]. unfold fixed_opened in Hloop.
  cbn [Fixed.tcp_server_loop]. rewrite Hrun.
  pose proof (eq_refl : fst (Fixed.open_output (note Accepted w)) = true) as Ht.
  destruct (Fixed.open_output (note Accepted w)) as [written f].
  cbn [fst snd] in *. subst written. rewrite Hloop. reflexivity.
Qed.

Lemma combined_accept_nil (w : world) :
  Combined.tcp_audio_receiver_server_loop [] w = Some w.
Proof. cbn. destruct (global_should_run w); reflexivity. Qed.

Lemma fixed_accept_nil (w : world) : Fixed.tcp_server_loop [] w = Some w.
Proof. cbn. destruct (global_should_run w); reflexivity. Qed.

(** How a connection of the combined receiver ends once a turn of its
    packet loop breaks: the loop of the connection is left in the state
    the turn found, the client and the file are closed, and [accept] is
    called again. *)
Lemma combined_connection_breaks
    (w0 w : world) (client0 client client' : socket) (ok : bool) :
  global_should_run w0 = true ->
  turns Combined.packet (combined_opened w0) client0 w client ->
  Combined.packet w client = Break ok w client' ->
  Combined.packet_loop (S (socket_bytes client0)) (combined_opened w0) client0
  = Exited ok w client' /\
  trace (closed w) = trace w0 ++ [Accepted; FileOpened; ClientClosed; FileClosed] /\
  Combined.tcp_audio_receiver_server_loop [Client client0 true] w0 = Some (closed w) /\
  (forall next : socket,
     Combined.tcp_audio_receiver_server_loop [Client client0 true; Client next false] w0
     = Some (note ClientClosed (note Accepted (closed w)))) /\
  (forall later : list accept_result,
     Combined.tcp_audio_receiver_server_loop (Client client0 true :: later) w0
     = Combined.tcp_audio_receiver_server_loop later (closed w)).
Proof.
  intros Hrun Hturns Hbreak.
  destruct (combined_turns_loop _ _ _ _ Hturns Hrun (S (socket_bytes client0))
              (Nat.lt_succ_diag_r _)) as (fuel' & Hfuel' & Hloop & Hrun' & Htrace').
  assert (Hexit : Combined.packet_loop (S (socket_bytes client0)) (combined_opened w0) client0
                  = Exited ok w client').
  { rewrite Hloop. destruct fuel' as [|fuel']; [lia|].
    cbn [Combined.packet_loop]. rewrite Hrun', Hbreak. reflexivity. }
  assert (Hgo : forall later,
            Combined.tcp_audio_receiver_server_loop (Client client0 true :: later) w0
            = Combined.tcp_audio_receiver_server_loop later (closed w)).
  { intros later. apply (combined_accept_goes_on w0 w client0 client' later Hrun).
    left. exists ok. exact Hexit. }
  split; [exact Hexit|]. split; [|split; [|split; [|exact Hgo]]].
  - unfold closed. cbn [note trace]. rewrite Htrace'. unfold combined_opened.
    cbn [note with_file trace]. rewrite <- !app_assoc. reflexivity.
  - rewrite Hgo. apply combined_accept_nil.
  - intros next. rewrite Hgo. cbn [Combined.tcp_audio_receiver_server_loop].
    change (global_should_run (closed w)) with (global_should_run w). rewrite Hrun'.
    apply combined_accept_nil.
Qed.

Lemma fixed_connection_breaks
    (w0 w : world) (client0 client client' : socket) (ok : bool) :
  global_should_run w0 = true ->
  turns Fixed.packet (fixed_opened w0) client0 w client ->
  Fixed.packet w client = Break ok w client' ->
  Fixed.packet_loop (S (socket_bytes client0)) (fixed_opened w0) client0
  = Exited ok w client' /\
  trace (closed w) = trace w0 ++ [Accepted; FileOpened; ClientClosed; FileClosed] /\
  Fixed.tcp_server_loop [Client client0 true] w0 = Some (closed w) /\
  (forall next : socket,
     Fixed.tcp_server_loop [Client client0 true; Client next false] w0
     = Some (note ClientClosed (note Accepted (closed w)))) /\
  (forall later : list accept_result,
     Fixed.tcp_server_loop (Client client0 true :: later) w0
     = Fixed.tcp_server_loop later (closed w)).
Proof.
  intros Hrun Hturns Hbreak.
  destruct (fixed_turns_loop _ _ _ _ Hturns Hrun (S (socket_bytes client0))
              (Nat.lt_succ_diag_r _)) as (fuel' & Hfuel' & Hloop & Hrun' & Htrace').
  assert (Hexit : Fixed.packet_loop (S (socket_bytes client0)) (fixed_opened w0) client0
                  = Exited ok w client').
  { rewrite Hloop. destruct fuel' as [|fuel']; [lia|].
    cbn [Fixed.packet_loop]. rewrite Hrun', Hbreak. reflexivity. }
  assert (Hgo : forall later,
            Fixed.tcp_server_loop (Client client0 true :: later) w0
            = Fixed.tcp_server_loop later (closed w)).
  { intros later. apply (fixed_accept_goes_on w0 w client0 client' later Hrun).
    exists ok. exact Hexit. }
  split; [exact Hexit|]. split; [|split; [|split; [|exact Hgo]]].
  - unfold closed. cbn [note trace]. rewrite Htrace'. unfold fixed_opened.
    cbn [note with_file trace]. rewrite <- !app_assoc. reflexivity.
  - rewrite Hgo. apply fixed_accept_nil.
  - intros next. rewrite Hgo. cbn [Fixed.tcp_server_loop].
    change (global_should_run (closed w)) with (global_should_run w). rewrite Hrun'.
    apply fixed_accept_nil.
Qed.

(** C4.  A 34-byte header whose first four bytes are not the
    little-endian magic, received at any point of a connection, makes the
    turn of the packet loop break with the connection marked bad and the
    state untouched: only the 34 header bytes are taken from the socket,
    nothing is written and no counter moves.  The packet loop of the
    connection is left, the client and the file are closed, and the accept
    loop goes on: it returns when no client follows, and it accepts the
    client that follows. *)
Theorem bad_magic_closes_connection
    (w0 w wf : world) (client0 client client' : socket) (header : list byte) :
  global_should_run w0 = true ->
  Combined.recv_all client HEADER_SIZE = Some (true, header, client') ->
  le_value (slice 0 4 header) <> HEADER_MAGIC ->
  socket_data client = header ++ socket_data client' /\
  (turns Combined.packet (combined_opened w0) client0 w client ->
   Combined.packet w client = Break false w client' /\
   Combined.packet_loop (S (socket_bytes client0)) (combined_opened w0) client0
   = Exited false w client' /\
   output_wav_file (closed w) = output_wav_file w /\
   global_total_samples_written_count (closed w) = global_total_samples_written_count w /\
   trace (closed w) = trace w0 ++ [Accepted; FileOpened; ClientClosed; FileClosed] /\
   Combined.tcp_audio_receiver_server_loop [Client client0 true] w0 = Some (closed w) /\
   (forall next : socket,
      Combined.tcp_audio_receiver_server_loop [Client client0 true; Client next false] w0
      = Some (note ClientClosed (note Accepted (closed w)))) /\
   (forall later : list accept_result,
      Combined.tcp_audio_receiver_server_loop (Client client0 true :: later) w0
      = Combined.tcp_audio_receiver_server_loop later (closed w))) /\
  (turns Fixed.packet (fixed_opened w0) client0 wf client ->
   Fixed.packet wf client = Break false wf client' /\
   Fixed.packet_loop (S (socket_bytes client0)) (fixed_opened w0) client0
   = Exited false wf client' /\
   output_wav_file (closed wf) = output_wav_file wf /\
   global_total_samples_written_count (closed wf) = global_total_samples_written_count wf /\
   trace (closed wf) = trace w0 ++ [Accepted; FileOpened; ClientClosed; FileClosed] /\
   Fixed.tcp_server_loop [Client client0 true] w0 = Some (closed wf) /\
   (forall next : socket,
      Fixed.tcp_server_loop [Client client0 true; Client next false] w0
      = Some (note ClientClosed (note Accepted (closed wf)))) /\
   (forall later : list accept_result,
      Fixed.tcp_server_loop (Client client0 true :: later) w0
      = Fixed.tcp_server_loop later (closed wf))) /\
  (forall (fuel : nat) (wd : world),
     Draft.after_header fuel wd client' header = Break false wd client').
Proof.
  intros Hrun Hrecv Hmagic.
  split; [apply (header_received _ _ _ Hrecv)|]. split; [|split].
  - intros Hturns.
    destruct (bad_magic_packet w client client' header 0 Hrecv Hmagic) as (Hbreak & _).
    destruct (combined_connection_breaks w0 w client0 client client' false Hrun Hturns Hbreak)
      as (Hexit & Htrace & Hone & Hnext & Hlater).
    split; [exact Hbreak|]. split; [exact Hexit|]. split; [reflexivity|].
    split; [reflexivity|]. split; [exact Htrace|]. split; [exact Hone|].
    split; [exact Hnext|exact Hlater].
  - intros Hturns.
    destruct (bad_magic_packet wf client client' header 0 Hrecv Hmagic) as (_ & Hbreak & _).
    destruct (fixed_connection_breaks w0 wf client0 client client' false Hrun Hturns Hbreak)
      as (Hexit & Htrace & Hone & Hnext & Hlater).
    split; [exact Hbreak|]. split; [exact Hexit|]. split; [reflexivity|].
    split; [reflexivity|]. split; [exact Htrace|]. split; [exact Hone|].
    split; [exact Hnext|exact Hlater].
  - intros fuel wd. apply (bad_magic_packet wd client client' header fuel Hrecv Hmagic).
Qed.

Lemma bad_magic_closes_connection_witness :
  Combined.packet_loop
    (S (socket_bytes [Chunk no_frames_header; Chunk zero_header; Chunk [x01; x02]]))
    (combined_opened (initial_world 1000))
    [Chunk no_frames_header; Chunk zero_header; Chunk [x01; x02]]
  = Exited false (combined_opened (initial_world 1000)) [Chunk [x01; x02]] /\
  Combined.tcp_audio_receiver_server_loop
    [Client [Chunk no_frames_header; Chunk zero_header; Chunk [x01; x02]] true]
    (initial_world 1000)
  = Some (closed (combined_opened (initial_world 1000))) /\
  Combined.tcp_audio_receiver_server_loop
    [Client [Chunk no_frames_header; Chunk zero_header; Chunk [x01; x02]] true;
     Client [] false]
    (initial_world 1000)
  = Some (note ClientClosed (note Accepted (closed (combined_opened (initial_world 1000))))).
Proof.
  destruct (bad_magic_closes_connection (initial_world 1000)
              (combined_opened (initial_world 1000)) (fixed_opened (initial_world 1000))
              [Chunk no_frames_header; Chunk zero_header; Chunk [x01; x02]]
              [Chunk zero_header; Chunk [x01; x02]] [Chunk [x01; x02]] zero_header)
    as (_ & Hcombined & _).
  - reflexivity.
  - reflexivity.
  - vm_compute. discriminate.
  - destruct Hcombined as (_ & Hexit & _ & _ & _ & Hone & Hnext & _).
    + apply (turns_more Combined.packet _ (combined_opened (initial_world 1000)) _
               _ [Chunk zero_header; Chunk [x01; x02]] _); [reflexivity|apply turns_none].
    + split; [exact Hexit|]. split; [exact Hone|apply Hnext].
Defined.

(** C6.  When the stream stops before the payload a header announces is
    complete (a [recv] fails or the peer closes with fewer than
    [payload_bytes] bytes delivered), at any point of a connection, the
    payload receive of the combined and of the fixed receiver fails with
    fewer bytes than announced, and the turn breaks with the connection
    marked bad and the state untouched: nothing is converted or appended
    and no counter moves.  The packet loop of the connection is left, so
    no further packet of the connection is handled; the client and the
    file are closed. *)
Theorem short_payload_aborts_connection
    (w0 w wf : world) (client0 client client' : socket) (header : list byte) :
  global_should_run w0 = true ->
  Combined.recv_all client HEADER_SIZE = Some (true, header, client') ->
  le_value (slice 0 4 header) = HEADER_MAGIC ->
  let payload_bytes :=
    le_value (slice 24 2 header) * le_value (slice 26 1 header)
    * le_value (slice 27 1 header) in
  payload_bytes <> 0 ->
  delivers client' (Z.to_nat payload_bytes) = false ->
  exists (partial : list byte) (client'' : socket),
    Combined.recv_all client' (Z.to_nat payload_bytes) = Some (false, partial, client'') /\
    (length partial < Z.to_nat payload_bytes)%nat /\
    (turns Combined.packet (combined_opened w0) client0 w client ->
     Combined.packet w client = Break false w client'' /\
     Combined.packet_loop (S (socket_bytes client0)) (combined_opened w0) client0
     = Exited false w client'' /\
     output_wav_file (closed w) = output_wav_file w /\
     global_total_samples_written_count (closed w) = global_total_samples_written_count w /\
     Combined.tcp_audio_receiver_server_loop [Client client0 true] w0 = Some (closed w) /\
     (forall later : list accept_result,
        Combined.tcp_audio_receiver_server_loop (Client client0 true :: later) w0
        = Combined.tcp_audio_receiver_server_loop later (closed w))) /\
    (turns Fixed.packet (fixed_opened w0) client0 wf client ->
     Fixed.packet wf client = Break false wf client'' /\
     Fixed.packet_loop (S (socket_bytes client0)) (fixed_opened w0) client0
     = Exited false wf client'' /\
     output_wav_file (closed wf) = output_wav_file wf /\
     global_total_samples_written_count (closed wf) = global_total_samples_written_count wf /\
     Fixed.tcp_server_loop [Client client0 true] w0 = Some (closed wf) /\
     (forall later : list accept_result,
        Fixed.tcp_server_loop (Client client0 true :: later) w0
        = Fixed.tcp_server_loop later (closed wf))).
Proof.
  intros Hrun Hrecv Hmagic payload_bytes Hnz Hshort.
  destruct (recv_all_spec client' (Z.to_nat payload_bytes)) as (partial & client'' & Hpay & _).
  rewrite Hshort in Hpay.
  exists partial, client''. split; [exact Hpay|]. split; [|split].
  - unfold Combined.recv_all in Hpay. exact (recv_all_loop_false _ _ _ _ _ _ Hpay).
  - intros Hturns.
    destruct (payload_failure_aborts w client client' client'' header partial 0
                Hrecv Hmagic Hnz Hpay) as (Hbreak & _).
    destruct (combined_connection_breaks w0 w client0 client client'' false Hrun Hturns Hbreak)
      as (Hexit & _ & Hone & _ & Hlater).
    split; [exact Hbreak|]. split; [exact Hexit|]. split; [reflexivity|].
    split; [reflexivity|]. split; [exact Hone|exact Hlater].
  - intros Hturns.
    destruct (payload_failure_aborts wf client client' client'' header partial 0
                Hrecv Hmagic Hnz Hpay) as (_ & Hbreak & _).
    destruct (fixed_connection_breaks w0 wf client0 client client'' false Hrun Hturns Hbreak)
      as (Hexit & _ & Hone & _ & Hlater).
    split; [exact Hbreak|]. split; [exact Hexit|]. split; [reflexivity|].
    split; [reflexivity|]. split; [exact Hone|exact Hlater].
Qed.

Lemma short_payload_aborts_connection_witness :
  exists (partial : list byte) (client'' : socket),
    Combined.recv_all [Chunk [x00; x01]; Failure; Chunk one_frame_header] 4
    = Some (false, partial, client'') /\
    (length partial < 4)%nat /\
    Combined.packet (combined_opened (initial_world 1000))
      [Chunk one_frame_header; Chunk [x00; x01]; Failure; Chunk one_frame_header]
    = Break false (combined_opened (initial_world 1000)) client'' /\
    Combined.tcp_audio_receiver_server_loop
      [Client [Chunk one_frame_header; Chunk [x00; x01]; Failure; Chunk one_frame_header] true]
      (initial_world 1000)
    = Some (closed (combined_opened (initial_world 1000))).
Proof.
  destruct (short_payload_aborts_connection (initial_world 1000)
              (combined_opened (initial_world 1000)) (fixed_opened (initial_world 1000))
              [Chunk one_frame_header; Chunk [x00; x01]; Failure; Chunk one_frame_header]
              [Chunk one_frame_header; Chunk [x00; x01]; Failure; Chunk one_frame_header]
              [Chunk [x00; x01]; Failure; Chunk one_frame_header] one_frame_header)
    as (partial & client'' & Hpay & Hlen & Hcombined & _).
  - reflexivity.
  - reflexivity.
  - reflexivity.
  - vm_compute. discriminate.
  - reflexivity.
  - destruct (Hcombined (turns_none Combined.packet _ _)) as (Hbreak & _ & _ & _ & Hone & _).
    exists partial, client''. split; [exact Hpay|]. split; [exact Hlen|].
    split; [exact Hbreak|exact Hone].
Defined.

(** C7.  The payload size computed from a header is exactly
    [frames * channels * bytes_per_sample].  When it is zero the turn of
    the packet loop ends there: nothing more is taken from the socket than
    the 34 header bytes, and the file and the counters are what they were.
    The loop then reads the next header from the bytes that follow: if
    they carry a header with a wrong magic the loop is left with the
    connection marked bad; if the stream ends before a header is complete
    the loop is left on the failed header receive; if they carry a packet
    that is handled the loop goes on from the state that packet leaves. *)
Theorem empty_payload_is_skipped
    (w : world) (client client' : socket) (header : list byte) (fuel : nat) :
  Combined.recv_all client HEADER_SIZE = Some (true, header, client') ->
  le_value (slice 0 4 header) = HEADER_MAGIC ->
  let frames := le_value (slice 24 2 header) in
  let channels := le_value (slice 26 1 header) in
  let bytes_per_sample := le_value (slice 27 1 header) in
  (Combined.payload_bytes_of (Combined.parse_header header)
   = frames * channels * bytes_per_sample /\
   Fixed.payload_bytes_of (Fixed.parse_header header)
   = frames * channels * bytes_per_sample /\
   Draft.payload_bytes_of (Draft.parse_header header)
   = frames * channels * bytes_per_sample) /\
  (frames * channels * bytes_per_sample = 0 ->
   socket_data client = header ++ socket_data client' /\
   Combined.packet w client = Continue w client' /\
   Fixed.packet w client = Continue w client' /\
   Draft.after_header fuel w client' header = Continue w client' /\
   (global_should_run w = true ->
    (forall (header2 : list byte) (client2 : socket),
       Combined.recv_all client' HEADER_SIZE = Some (true, header2, client2) ->
       le_value (slice 0 4 header2) <> HEADER_MAGIC ->
       Combined.packet_loop (S (S fuel)) w client = Exited false w client2 /\
       Fixed.packet_loop (S (S fuel)) w client = Exited false w client2) /\
    (forall (partial : list byte) (client2 : socket),
       Combined.recv_all client' HEADER_SIZE = Some (false, partial, client2) ->
       Combined.packet_loop (S (S fuel)) w client = Exited true w client2 /\
       Fixed.packet_loop (S (S fuel)) w client = Exited true w client2) /\
    (forall (w2 : world) (client2 : socket),
       Combined.packet w client' = Continue w2 client2 ->
       Combined.packet_loop (S (S fuel)) w client = Combined.packet_loop fuel w2 client2) /\
    (forall (w2 : world) (client2 : socket),
       Fixed.packet w client' = Continue w2 client2 ->
       Fixed.packet_loop (S (S fuel)) w client = Fixed.packet_loop fuel w2 client2) /\
    Combined.packet_loop (S fuel) w client = Combined.packet_loop fuel w client' /\
    Fixed.packet_loop (S fuel) w client = Fixed.packet_loop fuel w client')).
Proof.
  intros Hrecv Hmagic frames channels bytes_per_sample.
  destruct (header_received _ _ _ Hrecv) as [Hlen Hdata].
  split; [apply payload_bytes_of_spec; exact Hlen|].
  intros Hzero.
  destruct (empty_payload_packet w client client' header fuel Hrecv Hmagic Hzero)
    as (Hc & Hf & Hd).
  split; [exact Hdata|]. split; [exact Hc|]. split; [exact Hf|]. split; [exact Hd|].
  intros Hrun.
  assert (Hstep : forall n,
            Combined.packet_loop (S n) w client = Combined.packet_loop n w client' /\
            Fixed.packet_loop (S n) w client = Fixed.packet_loop n w client').
  { intros n. cbn [Combined.packet_loop Fixed.packet_loop]. rewrite Hrun, Hc, Hf.
    split; reflexivity. }
  split; [|split; [|split; [|split; [|apply Hstep]]]].
  - intros header2 client2 Hrecv2 Hmagic2.
    destruct (bad_magic_packet w client' client2 header2 0 Hrecv2 Hmagic2) as (Hb & Hbf & _).
    rewrite (proj1 (Hstep (S fuel))), (proj2 (Hstep (S fuel))).
    cbn [Combined.packet_loop Fixed.packet_loop]. rewrite Hrun, Hb, Hbf. split; reflexivity.
  - intros partial client2 Hrecv2.
    rewrite (proj1 (Hstep (S fuel))), (proj2 (Hstep (S fuel))).
    cbn [Combined.packet_loop Fixed.packet_loop]. rewrite Hrun.
    unfold Combined.packet, Fixed.packet, Fixed.recv_all. rewrite Hrecv2. split; reflexivity.
  - intros w2 client2 Hnext. rewrite (proj1 (Hstep (S fuel))).
    cbn [Combined.packet_loop]. rewrite Hrun, Hnext. reflexivity.
  - intros w2 client2 Hnext. rewrite (proj2 (Hstep (S fuel))).
    cbn [Fixed.packet_loop]. rewrite Hrun, Hnext. reflexivity.
Qed.

Lemma empty_payload_is_skipped_witness :
  Combined.packet (initial_world 1000) [Chunk no_frames_header; Chunk zero_header; Chunk [x01]]
  = Continue (initial_world 1000) [Chunk zero_header; Chunk [x01]] /\
  Combined.packet_loop 2 (initial_world 1000)
    [Chunk no_frames_header; Chunk zero_header; Chunk [x01]]
  = Exited false (initial_world 1000) [Chunk [x01]] /\
  Fixed.packet_loop 2 (initial_world 1000)
    [Chunk no_frames_header; Chunk zero_header; Chunk [x01]]
  = Exited false (initial_world 1000) [Chunk [x01]].
Proof.
  destruct (empty_payload_is_skipped (initial_world 1000)
              [Chunk no_frames_header; Chunk zero_header; Chunk [x01]]
              [Chunk zero_header; Chunk [x01]] no_frames_header 0) as (_ & Hskip).
  - reflexivity.
  - reflexivity.
  - destruct Hskip as (_ & Hp & _ & _ & Hloop); [reflexivity|].
    destruct (Hloop eq_refl) as (Hbad & _).
    destruct (Hbad zero_header [Chunk [x01]]) as [Hc Hf].
    + reflexivity.
    + vm_compute. discriminate.
    + split; [exact Hp|]. split; [exact Hc|exact Hf].
Defined.
